(** * Dominoes: the real-time session coordinator

    A shallow embedding of the server of the online two-player dominoes
    game (Express routes in [routes/game.js], Socket.IO handlers in
    [socket/challengeHandler.js] and [socket/gameHandler.js]) and of the
    move logic of the client component [GameBoard.jsx], followed by the
    properties checked against them.

    Conventions of the embedding.
    - JavaScript values that the code only compares, tests for truthiness
      or prints are values of [jsval]; numbers are integers (user ids,
      pips, positions), so [===] is structural equality.
    - The Supabase store is an in-memory set of tables.  It is reliable: a
      query reports an error only where [.single()] does not find exactly
      one row, so the branches of the source that handle any other store
      error cannot be taken and are left out.
    - A handler returns the new state together with the messages it emits.
    - [Math.random], [Date.now] and [crypto.randomUUID] are arguments. *)

From Stdlib Require Import ZArith List String Lia Bool Sorted.
From stdpp Require Import base decidable countable strings list gmap pretty sorting.
Import ListNotations.
Open Scope Z_scope.
Open Scope string_scope.

(** ** JavaScript values *)

Module JS.

Inductive jsval := JUndef | JNull | JNum (n : Z) | JStr (s : string).

#[global] Instance jsval_eq_dec : EqDecision jsval.
Proof. solve_decision. Defined.

#[global] Instance jsval_countable : Countable jsval.
Proof.
  refine (inj_countable'
    (fun v => match v with
              | JUndef => inl (inl ()) | JNull => inl (inr ())
              | JNum n => inr (inl n) | JStr s => inr (inr s)
              end)
    (fun x => match x with
              | inl (inl _) => JUndef | inl (inr _) => JNull
              | inr (inl n) => JNum n | inr (inr s) => JStr s
              end) _).
  by intros [].
Defined.

(** [if (v)]: undefined, null, 0 and the empty string are falsy. *)
Definition truthy (v : jsval) : bool :=
  match v with
  | JUndef | JNull => false
  | JNum n => negb (Z.eqb n 0)
  | JStr s => negb (bool_decide (s = ""))
  end.

(** [a === b] and [a !== b]. *)
Definition strict_eq (a b : jsval) : bool := bool_decide (a = b).
Definition strict_ne (a b : jsval) : bool := negb (strict_eq a b).

(** [`${v}`] and [String(v)]. *)
Definition to_string (v : jsval) : string :=
  match v with
  | JUndef => "undefined"
  | JNull => "null"
  | JNum n => pretty n
  | JStr s => s
  end.

(** A socket id slot of an object: [undefined], [null] or a string. *)
Definition slot_truthy (s : option string) : bool :=
  match s with
  | None => false
  | Some x => negb (bool_decide (x = ""))
  end.

End JS.
Export JS.

(** ** The persistent store (tables Games, GameTiles, GameMoves) *)

Module Store.

Record Game := mkGame {
  gameID : Z;
  game_uuid : string;
  player1_id : jsval;
  player2_id : jsval;
  current_turn : jsval;
  status : string;
  winner_id : jsval;
  boneyard_count : Z
}.

Record GameTile := mkTile {
  titleID : Z;
  tile_gameID : Z;
  top_value : Z;
  bottom_value : Z;
  location : string;
  board_position : Z
}.

Record GameMove := mkMove {
  move_gameID : Z;
  move_player_id : jsval;
  move_type : string;
  tile_top : option Z;
  tile_bottom : option Z;
  play_side : option string
}.

(** [next_gameID] and [next_titleID] are the serial counters of the two
    primary keys. *)
Record DB := mkDB {
  Games : list Game;
  GameTiles : list GameTile;
  GameMoves : list GameMove;
  next_gameID : Z;
  next_titleID : Z
}.

Definition empty_db : DB := mkDB [] [] [] 1 1.

#[global] Instance Game_eq_dec : EqDecision Game.
Proof. solve_decision. Defined.
#[global] Instance GameTile_eq_dec : EqDecision GameTile.
Proof. solve_decision. Defined.
#[global] Instance GameMove_eq_dec : EqDecision GameMove.
Proof. solve_decision. Defined.
#[global] Instance DB_eq_dec : EqDecision DB.
Proof. solve_decision. Defined.

(** [.single()]: exactly one row, or an error. *)
Definition single {A} (rows : list A) : option A :=
  match rows with
  | [r] => Some r
  | _ => None
  end.

Definition set_location (l : string) (t : GameTile) : GameTile :=
  mkTile (titleID t) (tile_gameID t) (top_value t) (bottom_value t) l (board_position t).

Definition set_board_position (p : Z) (t : GameTile) : GameTile :=
  mkTile (titleID t) (tile_gameID t) (top_value t) (bottom_value t) (location t) p.

Definition set_values (a b : Z) (t : GameTile) : GameTile :=
  mkTile (titleID t) (tile_gameID t) a b (location t) (board_position t).

Definition set_current_turn (v : jsval) (g : Game) : Game :=
  mkGame (gameID g) (game_uuid g) (player1_id g) (player2_id g) v
         (status g) (winner_id g) (boneyard_count g).

Definition set_boneyard_count (n : Z) (g : Game) : Game :=
  mkGame (gameID g) (game_uuid g) (player1_id g) (player2_id g) (current_turn g)
         (status g) (winner_id g) n.

(** [update({ status: 'completed', winner_id: w })]: a field whose value is
    [undefined] is dropped when the request is serialised, so the column
    keeps its value. *)
Definition set_completed (w : jsval) (g : Game) : Game :=
  mkGame (gameID g) (game_uuid g) (player1_id g) (player2_id g) (current_turn g)
         "completed" (if bool_decide (w = JUndef) then winner_id g else w)
         (boneyard_count g).

(** [from(table).update(f).eq(...)]: every row that matches is rewritten. *)
Definition update_where {A} (P : A -> Prop) `{forall x, Decision (P x)}
    (f : A -> A) (rows : list A) : list A :=
  map (fun r => if decide (P r) then f r else r) rows.

Definition with_games (gs : list Game) (db : DB) : DB :=
  mkDB gs (GameTiles db) (GameMoves db) (next_gameID db) (next_titleID db).

Definition with_tiles (ts : list GameTile) (db : DB) : DB :=
  mkDB (Games db) ts (GameMoves db) (next_gameID db) (next_titleID db).

Definition insert_move (m : GameMove) (db : DB) : DB :=
  mkDB (Games db) (GameTiles db) (GameMoves db ++ [m])%list (next_gameID db) (next_titleID db).

(** [.order('board_position', { ascending: true })]. *)
Fixpoint insert_by_position (t : GameTile) (l : list GameTile) : list GameTile :=
  match l with
  | [] => [t]
  | u :: r => if Z.leb (board_position t) (board_position u) then t :: u :: r
              else u :: insert_by_position t r
  end.

Definition order_by_position (l : list GameTile) : list GameTile :=
  foldr insert_by_position [] l.

(** [from('Games').update({status:'completed', winner_id}).eq('game_uuid', u)],
    the statement shared by the end route, leave-game and the disconnect
    timer. *)
Definition force_end (u : string) (w : jsval) (db : DB) : DB :=
  with_games (update_where (fun g => game_uuid g = u) (set_completed w) (Games db)) db.

Definition find_game (u : string) (db : DB) : option Game :=
  single (filter (fun g => game_uuid g = u) (Games db)).

End Store.
Export Store.

(** ** Inserting a game and its tiles (shared by the create route and the
    accept-challenge handler) *)

Module Inserts.

(** A tile as prepared for insertion: [{ value: [a, b], location, board_position }]. *)
Record TileToInsert := mkToInsert {
  value0 : Z;
  value1 : Z;
  ins_location : string;
  ins_board_position : Z
}.

(** [from('Games').insert([row]).select().single()]: the store assigns the
    next serial [gameID] and returns the stored row. *)
Definition insert_game (uuid : string) (p1 p2 turn : jsval) (count : Z) (db : DB) : DB * Game :=
  let game := mkGame (next_gameID db) uuid p1 p2 turn "active" (JNum 0) count in
  (mkDB (Games db ++ [game])%list (GameTiles db) (GameMoves db)
        (next_gameID db + 1) (next_titleID db), game).

Fixpoint number_tiles (gid : Z) (n : Z) (l : list TileToInsert) : list GameTile :=
  match l with
  | [] => []
  | s :: r => mkTile n gid (value0 s) (value1 s) (ins_location s) (ins_board_position s)
              :: number_tiles gid (n + 1) r
  end.

(** [from('GameTiles').insert(rows)]. *)
Definition insert_tiles (gid : Z) (l : list TileToInsert) (db : DB) : DB :=
  mkDB (Games db) (GameTiles db ++ number_tiles gid (next_titleID db) l)%list (GameMoves db)
       (next_gameID db) (next_titleID db + Z.of_nat (length l)).

End Inserts.
Export Inserts.

(** ** routes/game.js *)

Module GameRoutes.

Inductive response :=
| Err (code : Z) (error : string)
| CreateOk (gid : Z) (gameUuid : string)
| PlayOk (tile : GameTile) (nextTurn : jsval)
| DrawOk (tile : GameTile) (boneyardCount : Z)
| PassOk (nextTurn : jsval)
| EndOk.

#[global] Instance response_eq_dec : EqDecision response.
Proof. solve_decision. Defined.

(** The body of a play request. *)
Record PlayBody := mkPlayBody {
  tileId : jsval;
  side : string;
  boardPosition : Z;
  topValue : option Z;
  bottomValue : option Z
}.

(** [game.current_turn === game.player1_id ? game.player2_id : game.player1_id] *)
Definition nextTurnPlayerId (game : Game) : jsval :=
  if strict_eq (current_turn game) (player1_id game)
  then player2_id game else player1_id game.

(** POST /create *)
Definition create_route (userId : jsval) (gameUuid : string) (player1Id player2Id : jsval)
    (tiles : list TileToInsert) (db : DB) : DB * response :=
  if negb (truthy userId) then (db, Err 401 "Authentication required") else
  let '(db1, game) := insert_game gameUuid player1Id player2Id player1Id 14 db in
  let db2 := insert_tiles (gameID game) tiles db1 in
  (db2, CreateOk (gameID game) (game_uuid game)).

(** The loop that shifts the tiles already on the board one place right. *)
Definition shift_board_right (gid : Z) (ts : list GameTile) : list GameTile :=
  let existingBoardTiles :=
    order_by_position (filter (fun t => tile_gameID t = gid /\ location t = "board") ts) in
  fold_left
    (fun acc existingTile =>
       update_where (fun t => titleID t = titleID existingTile)
                    (set_board_position (board_position existingTile + 1)) acc)
    existingBoardTiles ts.

(** [updateData] applied to a row. *)
Definition apply_updateData (b : PlayBody) (t : GameTile) : GameTile :=
  let t1 := set_board_position (boardPosition b) (set_location "board" t) in
  match topValue b, bottomValue b with
  | Some a, Some c => set_values a c t1
  | _, _ => t1
  end.

(** POST /:gameUuid/play.  [titleID] is the key of GameTiles, so the update
    rewrites the one row found by the hand check; the branch for an update
    that does not return exactly one row is kept as the source has it. *)
Definition play_route (userId : jsval) (gameUuid : string) (b : PlayBody) (db : DB)
    : DB * response :=
  if negb (truthy userId) then (db, Err 401 "Authentication required") else
  match find_game gameUuid db with
  | None => (db, Err 404 "Game not found")
  | Some game =>
    if strict_ne (current_turn game) userId then (db, Err 403 "Not your turn") else
    let playerLocation :=
      if strict_eq (current_turn game) (player1_id game)
      then "player1_hand" else "player2_hand" in
    match single (filter (fun t => JNum (titleID t) = tileId b /\ tile_gameID t = gameID game
                                   /\ location t = playerLocation) (GameTiles db)) with
    | None => (db, Err 400 "Tile not found in your hand")
    | Some tileToPlay =>
      let ts1 :=
        if bool_decide (side b = "left") && Z.eqb (boardPosition b) 0
        then shift_board_right (gameID game) (GameTiles db)
        else GameTiles db in
      let hit := fun t => JNum (titleID t) = tileId b /\ tile_gameID t = gameID game in
      match single (filter hit ts1) with
      | None => (with_tiles ts1 db, Err 500 "Failed to play tile")
      | Some row =>
        let updatedTile := apply_updateData b row in
        let db2 := with_tiles (update_where hit (apply_updateData b) ts1) db in
        let db3 := insert_move (mkMove (gameID game) userId "play_tile"
                                       (Some (top_value updatedTile))
                                       (Some (bottom_value updatedTile))
                                       (Some (side b))) db2 in
        let next := nextTurnPlayerId game in
        let db4 := with_games (update_where (fun g => gameID g = gameID game)
                                            (set_current_turn next) (Games db3)) db3 in
        (db4, PlayOk updatedTile next)
      end
    end
  end.

(** POST /:gameUuid/draw.  [.limit(1)] without an order takes the first
    boneyard row of the table. *)
Definition draw_route (userId : jsval) (gameUuid : string) (playerLocation : string)
    (db : DB) : DB * response :=
  if negb (truthy userId) then (db, Err 401 "Authentication required") else
  match find_game gameUuid db with
  | None => (db, Err 404 "Game not found")
  | Some game =>
    if strict_ne (current_turn game) userId then (db, Err 403 "Not your turn") else
    if Z.leb (boneyard_count game) 0 then (db, Err 400 "Boneyard is empty") else
    match filter (fun t => tile_gameID t = gameID game /\ location t = "boneyard")
                 (GameTiles db) with
    | [] => (db, Err 400 "No tiles in boneyard")
    | drawnTile :: _ =>
      let hit := fun t => titleID t = titleID drawnTile in
      match single (filter hit (GameTiles db)) with
      | None => (db, Err 500 "Failed to draw tile")
      | Some row =>
        let updatedTile := set_location playerLocation row in
        let db2 := with_tiles (update_where hit (set_location playerLocation)
                                            (GameTiles db)) db in
        let next := nextTurnPlayerId game in
        let db3 := with_games
          (update_where (fun g => gameID g = gameID game)
             (fun g => set_current_turn next
                         (set_boneyard_count (boneyard_count game - 1) g))
             (Games db2)) db2 in
        let db4 := insert_move (mkMove (gameID game) userId "draw_tile"
                                       (Some (top_value updatedTile))
                                       (Some (bottom_value updatedTile)) None) db3 in
        (db4, DrawOk updatedTile (boneyard_count game - 1))
      end
    end
  end.

(** POST /:gameUuid/pass *)
Definition pass_route (userId : jsval) (gameUuid : string) (db : DB) : DB * response :=
  if negb (truthy userId) then (db, Err 401 "Authentication required") else
  match find_game gameUuid db with
  | None => (db, Err 404 "Game not found")
  | Some game =>
    if strict_ne (current_turn game) userId then (db, Err 403 "Not your turn") else
    let db1 := insert_move (mkMove (gameID game) userId "pass" None None None) db in
    let next := nextTurnPlayerId game in
    let db2 := with_games (update_where (fun g => gameID g = gameID game)
                                        (set_current_turn next) (Games db1)) db1 in
    (db2, PassOk next)
  end.

(** POST /:gameUuid/end *)
Definition end_route (userId : jsval) (gameUuid : string) (winnerId : jsval) (db : DB)
    : DB * response :=
  if negb (truthy userId) then (db, Err 401 "Authentication required") else
  (force_end gameUuid winnerId db, EndOk).

End GameRoutes.
Export GameRoutes.

(** ** socket/challengeHandler.js *)

Module ChallengeHandler.

(** [set[i], set[j]] = [set[j], set[i]].  Both indices are inside the array
    whenever the shuffle calls it; outside, the model leaves the list alone. *)
Definition swap {A} (set : list A) (i j : nat) : list A :=
  match set !! i, set !! j with
  | Some x, Some y => <[j := x]> (<[i := y]> set)
  | _, _ => set
  end.

(** The double loop that fills the set: [i] from 0 to 6, [j] from [i] to 6. *)
Definition domino_set : list (Z * Z) :=
  flat_map (fun i => map (fun j => (Z.of_nat i, Z.of_nat j)) (seq i (7 - i))) (seq 0 7).

(** The shuffle loop from index [i] down to 1.  [random i] is the index
    [Math.floor(Math.random() * (i + 1))] drawn in the iteration with loop
    variable [i]; as [Math.random()] lies in [0, 1) the index is one of
    [0..i], which is [random i mod (i + 1)] for an arbitrary [random]. *)
Fixpoint shuffle_loop {A} (random : nat -> nat) (i : nat) (set : list A) : list A :=
  match i with
  | O => set
  | S i' => shuffle_loop random i' (swap set i (random i mod (i + 1)))
  end.

Definition generateAndShuffleDominoes (random : nat -> nat) : list (Z * Z) :=
  shuffle_loop random (length domino_set - 1) domino_set.

Record Challenge := mkChallenge {
  challengeId : string;
  challengerId : jsval;
  challengerName : jsval;
  challengerDisplayName : jsval;
  targetId : jsval;
  targetName : jsval;
  timestamp : Z
}.

(** The payload of register-user, kept on the socket as [socket.userData]. *)
Record UserData := mkUserData {
  ud_id : jsval;
  ud_username : jsval;
  ud_displayName : jsval
}.

(** The fields the handlers attach to a socket object. *)
Record SocketFields := mkSocketFields {
  sock_userId : jsval;
  sock_userData : option UserData
}.

Record Player := mkPlayer {
  pl_id : jsval;
  pl_username : jsval;
  pl_displayName : jsval
}.

Record GameData := mkGameData {
  gd_gameId : string;
  gd_gameDbId : Z;
  gd_player1 : Player;
  gd_player2 : Player
}.

(** Where a message is sent: [io.to(id).emit] and [socket.emit] reach one
    socket, [io.emit] every socket. *)
Inductive dest := ToSocket (sid : string) | ToAll.

Inductive message :=
| challenge_received (cid : string) (challenger : Player)
| challenge_error (text : string)
| challenge_declined (target : jsval)
| game_start (gameData : GameData)
| user_busy (uid username : jsval).

#[global] Instance Challenge_eq_dec : EqDecision Challenge.
Proof. solve_decision. Defined.
#[global] Instance UserData_eq_dec : EqDecision UserData.
Proof. solve_decision. Defined.
#[global] Instance SocketFields_eq_dec : EqDecision SocketFields.
Proof. solve_decision. Defined.
#[global] Instance Player_eq_dec : EqDecision Player.
Proof. solve_decision. Defined.
#[global] Instance GameData_eq_dec : EqDecision GameData.
Proof. solve_decision. Defined.
#[global] Instance dest_eq_dec : EqDecision dest.
Proof. solve_decision. Defined.
#[global] Instance message_eq_dec : EqDecision message.
Proof. solve_decision. Defined.

(** The two module-level maps and the sockets' attached fields (by socket id). *)
Record State := mkState {
  activeChallenges : gmap string Challenge;
  userSocketMap : gmap jsval string;
  sockets : gmap string SocketFields
}.

Definition initial : State := mkState ∅ ∅ ∅.

Definition socket_userId (st : State) (sid : string) : jsval :=
  match sockets st !! sid with
  | Some f => sock_userId f
  | None => JUndef
  end.

Definition socket_userData (st : State) (sid : string) : option UserData :=
  match sockets st !! sid with
  | Some f => sock_userData f
  | None => None
  end.

(** register-user *)
Definition register_user (sid : string) (userData : UserData) (st : State) : State :=
  mkState (activeChallenges st)
          (<[ud_id userData := sid]> (userSocketMap st))
          (<[sid := mkSocketFields (ud_id userData) (Some userData)]> (sockets st)).

(** The payload of send-challenge. *)
Record Offer := mkOffer {
  of_challengerId : jsval;
  of_challengerName : jsval;
  of_challengerDisplayName : jsval;
  of_targetId : jsval;
  of_targetName : jsval
}.

Section SendChallenge.

(** [Number(v)]; [None] stands for a result that is no key of the map (NaN,
    which no registration payload can carry). *)
Variable Number : jsval -> option jsval.

(** The three lookups of the target's socket: by the id as sent, as a
    number, as a string. *)
Definition lookup_target (m : gmap jsval string) (targetId : jsval) : option string :=
  let targetSocketId := m !! targetId in
  let targetSocketId :=
    if negb (slot_truthy targetSocketId)
    then (match Number targetId with Some k => m !! k | None => None end)
    else targetSocketId in
  let targetSocketId :=
    if negb (slot_truthy targetSocketId)
    then m !! JStr (to_string targetId)
    else targetSocketId in
  targetSocketId.

(** send-challenge; [now] is [Date.now()]. *)
Definition send_challenge (sid : string) (o : Offer) (now : Z) (st : State)
    : State * list (dest * message) :=
  let cid := to_string (of_challengerId o) ++ "-" ++ to_string (of_targetId o)
             ++ "-" ++ pretty now in
  let st1 := mkState
    (<[cid := mkChallenge cid (of_challengerId o) (of_challengerName o)
                          (of_challengerDisplayName o) (of_targetId o)
                          (of_targetName o) now]> (activeChallenges st))
    (userSocketMap st) (sockets st) in
  let targetSocketId := lookup_target (userSocketMap st1) (of_targetId o) in
  if slot_truthy targetSocketId
  then (st1, [(ToSocket (default "" targetSocketId),
               challenge_received cid (mkPlayer (of_challengerId o) (of_challengerName o)
                                                (of_challengerDisplayName o)))])
  else (st1, [(ToSocket sid, challenge_error "User is not online")]).

End SendChallenge.

(** [a || b] *)
Definition js_or (a b : jsval) : jsval := if truthy a then a else b.

(** [socket.userData?.displayName] *)
Definition acceptor_displayName (st : State) (sid : string) : jsval :=
  match socket_userData st sid with
  | Some u => ud_displayName u
  | None => JUndef
  end.

Definition to_insert (loc : string) (tile : Z * Z) : TileToInsert :=
  mkToInsert (fst tile) (snd tile) loc (-1).

Definition emit_if_connected (s : option string) (m : message) : list (dest * message) :=
  if slot_truthy s then [(ToSocket (default "" s), m)] else [].

(** accept-challenge; [gameUuid] is the identifier drawn for the new game. *)
Definition accept_challenge (sid : string) (cid : string) (random : nat -> nat)
    (gameUuid : string) (st : State) (db : DB) : State * DB * list (dest * message) :=
  match activeChallenges st !! cid with
  | None => (st, db, [(ToSocket sid, challenge_error "Challenge not found or expired")])
  | Some challenge =>
    let challengerSocketId := userSocketMap st !! challengerId challenge in
    let targetSocketId := userSocketMap st !! targetId challenge in
    let allTiles := generateAndShuffleDominoes random in
    let player1Hand := take 7 allTiles in
    let allTiles := drop 7 allTiles in
    let player2Hand := take 7 allTiles in
    let boneyard := drop 7 allTiles in
    let tilesToInsert :=
      (map (to_insert "player1_hand") player1Hand
       ++ map (to_insert "player2_hand") player2Hand
       ++ map (to_insert "boneyard") boneyard)%list in
    let '(db1, game) :=
      insert_game gameUuid (challengerId challenge) (targetId challenge)
                  (challengerId challenge) (Z.of_nat (length boneyard)) db in
    let db2 := insert_tiles (gameID game) tilesToInsert db1 in
    let gameData := mkGameData gameUuid (gameID game)
      (mkPlayer (challengerId challenge) (challengerName challenge)
                (challengerDisplayName challenge))
      (mkPlayer (targetId challenge) (targetName challenge)
                (js_or (acceptor_displayName st sid) (targetName challenge))) in
    let out :=
      (emit_if_connected challengerSocketId (game_start gameData)
       ++ emit_if_connected targetSocketId (game_start gameData)
       ++ [(ToAll, user_busy (challengerId challenge) (challengerName challenge));
           (ToAll, user_busy (targetId challenge) (targetName challenge))])%list in
    (mkState (delete cid (activeChallenges st)) (userSocketMap st) (sockets st), db2, out)
  end.

(** decline-challenge *)
Definition decline_challenge (cid : string) (st : State) : State * list (dest * message) :=
  match activeChallenges st !! cid with
  | None => (st, [])
  | Some challenge =>
    let challengerSocketId := userSocketMap st !! challengerId challenge in
    (mkState (delete cid (activeChallenges st)) (userSocketMap st) (sockets st),
     emit_if_connected challengerSocketId (challenge_declined (targetName challenge)))
  end.

(** disconnect *)
Definition disconnect (sid : string) (st : State) : State :=
  let uid := socket_userId st sid in
  if truthy uid
  then mkState
         (filter (fun kc => ~ (challengerId kc.2 = uid \/ targetId kc.2 = uid))
                 (activeChallenges st))
         (delete uid (userSocketMap st))
         (sockets st)
  else st.

(** The expiry sweep run every minute; [now] is [Date.now()]. *)
Definition sweep (now : Z) (st : State) : State :=
  mkState (filter (fun kc => ~ (now - timestamp kc.2 > 2 * 60 * 1000)) (activeChallenges st))
          (userSocketMap st) (sockets st).

End ChallengeHandler.

(** ** components/GameBoard.jsx: the move logic of the client *)

Module GameBoard.

(** A tile of the hand or of the chain: [{ id, top, bottom }]
    ([isHorizontal] is always [true] and is left out). *)
Record Tile := mkCTile {
  id : jsval;
  top : Z;
  bottom : Z
}.

#[global] Instance Tile_eq_dec : EqDecision Tile.
Proof. solve_decision. Defined.

(** The props and the state of one mounted component. *)
Record Component := mkComponent {
  gameId : string;
  currentUser_id : jsval;
  isPlayer1 : bool;
  playerHand : list Tile;
  boardChain : list Tile;
  currentTurn : Z;
  gameStatus : string;
  winnerId : jsval;
  gameMessage : string
}.

Definition playerNumber (c : Component) : Z := if isPlayer1 c then 1 else 2.
Definition isMyTurn (c : Component) : bool := Z.eqb (currentTurn c) (playerNumber c).

(** [boardChain[0].top] and [boardChain[boardChain.length - 1].bottom];
    [None] is the [null] of an empty chain. *)
Definition leftEnd (chain : list Tile) : option Z := top <$> head chain.
Definition rightEnd (chain : list Tile) : option Z := bottom <$> last chain.

Definition canPlayTile (chain : list Tile) (tile : Tile) : bool :=
  match leftEnd chain, rightEnd chain with
  | Some l, Some r =>
      Z.eqb (top tile) l || Z.eqb (top tile) r || Z.eqb (bottom tile) l || Z.eqb (bottom tile) r
  | _, _ => true
  end.

Definition keep (tile : Tile) : Tile := mkCTile (id tile) (top tile) (bottom tile).
Definition flip (tile : Tile) : Tile := mkCTile (id tile) (bottom tile) (top tile).

(** The orientation step of [playTile]: the tile as laid, its board
    position and the new chain, or [None] where the source returns with
    'Tile does not match the board!'. *)
Definition orient (chain : list Tile) (tile : Tile) (side : string)
    : option (Tile * Z * list Tile) :=
  match leftEnd chain, rightEnd chain with
  | Some l, Some r =>
    if bool_decide (side = "left") then
      if Z.eqb (bottom tile) l then Some (keep tile, 0, keep tile :: chain)
      else if Z.eqb (top tile) l then Some (flip tile, 0, flip tile :: chain)
      else None
    else
      if Z.eqb (top tile) r then
        Some (keep tile, Z.of_nat (length chain), (chain ++ [keep tile])%list)
      else if Z.eqb (bottom tile) r then
        Some (flip tile, Z.of_nat (length chain), (chain ++ [flip tile])%list)
      else None
  | _, _ => Some (keep tile, 0, [keep tile])
  end.

(** What the component sends on its socket. *)
Inductive sent :=
| play_tile (gid : string) (tile : Tile) (side : string) (boardPosition : Z)
| end_game (gid : string) (winner : jsval).

Definition set_message (m : string) (c : Component) : Component :=
  mkComponent (gameId c) (currentUser_id c) (isPlayer1 c) (playerHand c) (boardChain c)
              (currentTurn c) (gameStatus c) (winnerId c) m.

(** [endGame(winnerUserId)]; the opponent's name in the losing message is
    not modelled. *)
Definition endGame (winnerUserId : jsval) (c : Component) (db : DB)
    : Component * DB * list sent :=
  match end_route (currentUser_id c) (gameId c) winnerUserId db with
  | (db1, EndOk) =>
    (mkComponent (gameId c) (currentUser_id c) (isPlayer1 c) (playerHand c) (boardChain c)
                 (currentTurn c) "completed" winnerUserId
                 (if strict_eq winnerUserId (currentUser_id c)
                  then "You win! You played all your tiles!" else "Opponent wins!"),
     db1, [end_game (gameId c) winnerUserId])
  | (db1, _) => (c, db1, [])
  end.

(** A row as the component holds it.  The ids of the rows are the serial
    keys of the store, which are not 0, so the fallback ids of the source
    are never used. *)
Definition to_tile (t : GameTile) : Tile :=
  mkCTile (JNum (titleID t)) (top_value t) (bottom_value t).

(** [loadGameFromDatabase()]: GET /:gameUuid and the state set from its
    answer; [player1] is [gameData.player1.id]. *)
Definition loadGameFromDatabase (player1 : jsval) (c : Component) (db : DB) : Component :=
  if negb (truthy (currentUser_id c))
  then set_message "Failed to load game. Please refresh." c
  else
    match find_game (gameId c) db with
    | None => set_message "Failed to load game. Please refresh." c
    | Some game =>
      let tiles := order_by_position
                     (filter (fun t => tile_gameID t = gameID game) (GameTiles db)) in
      let playerHandLocation := if isPlayer1 c then "player1_hand" else "player2_hand" in
      let myHand := filter (fun t => location t = playerHandLocation) tiles in
      let boardTiles := order_by_position (filter (fun t => location t = "board") tiles) in
      mkComponent (gameId c) (currentUser_id c) (isPlayer1 c)
                  (map to_tile myHand) (map to_tile boardTiles)
                  (if strict_eq (current_turn game) player1 then 1 else 2)
                  (status game) (winnerId c)
                  (if strict_eq (current_turn game) (currentUser_id c)
                   then "Your turn!" else "Opponent's turn...")
    end.

(** [playTile(tile, side)].  The requests of a component carry the session
    of its [currentUser]; the reload of the game state that follows a move
    after a delay is a separate step and is not part of this function. *)
Definition playTile (tile : Tile) (side : string) (c : Component) (db : DB)
    : Component * DB * list sent :=
  if negb (isMyTurn c) then (set_message "Not your turn!" c, db, [])
  else if negb (canPlayTile (boardChain c) tile)
  then (set_message "This tile cannot be played!" c, db, [])
  else if negb (truthy (id tile)) then (set_message "Invalid tile selected!" c, db, [])
  else
    match orient (boardChain c) tile side with
    | None => (set_message "Tile does not match the board!" c, db, [])
    | Some (newTile, boardPosition, chain') =>
      let updatedHand := filter (fun t => id t <> id tile) (playerHand c) in
      let c1 := mkComponent (gameId c) (currentUser_id c) (isPlayer1 c) updatedHand chain'
                            (currentTurn c) (gameStatus c) (winnerId c)
                            "Waiting for opponent..." in
      match play_route (currentUser_id c) (gameId c)
                       (mkPlayBody (id tile) side boardPosition
                                   (Some (top newTile)) (Some (bottom newTile))) db with
      | (db1, PlayOk _ _) =>
        let out := [play_tile (gameId c) newTile side boardPosition] in
        if bool_decide (updatedHand = [])
        then let '(c2, db2, out2) := endGame (currentUser_id c) c1 db1 in
             (c2, db2, (out ++ out2)%list)
        else (c1, db1, out)
      | (db1, _) => (set_message "Failed to play tile. Refreshing game..." c1, db1, [])
      end
    end.

End GameBoard.

(** ** socket/gameHandler.js *)

Module GameHandler.

(** An entry of [activeGames]; a socket slot holds [None] while it is
    [undefined] or [null]. *)
Record LiveGame := mkLiveGame {
  player1SocketId : option string;
  player1Id : jsval;
  player2SocketId : option string;
  player2Id : jsval
}.

Definition empty_game : LiveGame := mkLiveGame None JUndef None JUndef.

(** What the callback of a disconnect timer has captured. *)
Record Timer := mkTimer {
  tm_gameId : string;
  tm_disconnectedPlayerId : jsval;
  tm_timeoutKey : string
}.

(** A timer callback suspended at its [await], with the locals its
    continuation uses. *)
Record Suspended := mkSuspended {
  su_gameId : string;
  su_timeoutKey : string;
  su_player1Id : jsval;
  su_player2Id : jsval
}.

Inductive message :=
| opponent_played (tile : GameBoard.Tile) (side : string) (boardPosition : Z)
| opponent_drew (playerId : jsval)
| opponent_passed (playerId : jsval)
| game_ended (winnerId : jsval)
| opponent_disconnected
| user_available (uid : jsval).

(** A message with the sockets it is delivered to: the members of a room
    at the time of the emit, or every connected socket. *)
Inductive dest := ToSockets (members : gset string) | ToAll.

#[global] Instance LiveGame_eq_dec : EqDecision LiveGame.
Proof. solve_decision. Defined.
#[global] Instance Timer_eq_dec : EqDecision Timer.
Proof. solve_decision. Defined.
#[global] Instance Suspended_eq_dec : EqDecision Suspended.
Proof. solve_decision. Defined.
#[global] Instance message_eq_dec : EqDecision message.
Proof. solve_decision. Defined.
#[global] Instance dest_eq_dec : EqDecision dest.
Proof. solve_decision. Defined.

(** The two module-level maps, the timers that are armed ([setTimeout]
    handles are numbered), the callbacks waiting for the store to answer,
    and the Socket.IO rooms. *)
Record State := mkState {
  activeGames : gmap string LiveGame;
  disconnectTimeouts : gmap string nat;
  armed : gmap nat Timer;
  next_handle : nat;
  awaiting : list Suspended;
  rooms : gmap string (gset string)
}.

Definition initial : State := mkState ∅ ∅ ∅ 0 [] ∅.

Definition room (st : State) (gid : string) : gset string :=
  default ∅ (rooms st !! gid).

(** [`${gameId}-${playerId}`] *)
Definition timeoutKey (gid : string) (playerId : jsval) : string :=
  gid ++ "-" ++ to_string playerId.

(** The assignment of the joining socket to a slot of the entry. *)
Definition assign_slot (sid : string) (playerId : jsval) (game : LiveGame) : LiveGame :=
  if strict_eq (player1Id game) playerId then
    mkLiveGame (Some sid) (player1Id game) (player2SocketId game) (player2Id game)
  else if strict_eq (player2Id game) playerId then
    mkLiveGame (player1SocketId game) (player1Id game) (Some sid) (player2Id game)
  else if negb (slot_truthy (player1SocketId game)) then
    mkLiveGame (Some sid) playerId (player2SocketId game) (player2Id game)
  else if negb (slot_truthy (player2SocketId game)) then
    mkLiveGame (player1SocketId game) (player1Id game) (Some sid) playerId
  else game.

(** join-game *)
Definition join_game (sid : string) (gid : string) (playerId : jsval) (st : State) : State :=
  let rooms1 := <[gid := {[sid]} ∪ room st gid]> (rooms st) in
  let game := default empty_game (activeGames st !! gid) in
  let key := timeoutKey gid playerId in
  let '(timeouts1, armed1) :=
    match disconnectTimeouts st !! key with
    | Some h => (delete key (disconnectTimeouts st), delete h (armed st))
    | None => (disconnectTimeouts st, armed st)
    end in
  mkState (<[gid := assign_slot sid playerId game]> (activeGames st))
          timeouts1 armed1 (next_handle st) (awaiting st) rooms1.

(** play-tile, draw-tile, pass-turn: relayed to the rest of the room. *)
Definition relay (sid : string) (gid : string) (m : message) (st : State)
    : State * list (dest * message) :=
  (st, [(ToSockets (room st gid ∖ {[sid]}), m)]).

Definition announce_available (p1 p2 : jsval) : list (dest * message) :=
  ((if truthy p1 then [(ToAll, user_available p1)] else [])
   ++ (if truthy p2 then [(ToAll, user_available p2)] else []))%list.

(** end-game *)
Definition end_game (gid : string) (winner : jsval) (st : State)
    : State * list (dest * message) :=
  let game := activeGames st !! gid in
  let p1 := default JUndef (player1Id <$> game) in
  let p2 := default JUndef (player2Id <$> game) in
  (mkState (delete gid (activeGames st)) (disconnectTimeouts st) (armed st)
           (next_handle st) (awaiting st) (rooms st),
   ((ToSockets (room st gid), game_ended winner) :: announce_available p1 p2)).

(** leave-game; its continuation is run directly after its update of the
    store. *)
Definition leave_game (sid : string) (gid : string) (st : State) (db : DB)
    : State * DB * list (dest * message) :=
  match activeGames st !! gid with
  | None => (st, db, [])
  | Some game =>
    let p1 := player1Id game in
    let p2 := player2Id game in
    let leavingPlayerId :=
      if bool_decide (player1SocketId game = Some sid) then p1
      else if bool_decide (player2SocketId game = Some sid) then p2
      else JNull in
    let remainingPlayerId := if strict_eq leavingPlayerId p1 then p2 else p1 in
    let key := timeoutKey gid leavingPlayerId in
    let '(timeouts1, armed1) :=
      if truthy leavingPlayerId then
        match disconnectTimeouts st !! key with
        | Some h => (delete key (disconnectTimeouts st), delete h (armed st))
        | None => (disconnectTimeouts st, armed st)
        end
      else (disconnectTimeouts st, armed st) in
    (mkState (delete gid (activeGames st)) timeouts1 armed1 (next_handle st)
             (awaiting st) (rooms st),
     force_end gid remainingPlayerId db,
     ((ToSockets (room st gid ∖ {[sid]}), opponent_disconnected)
      :: announce_available p1 p2))
  end.

(** The body of the disconnect loop for one entry of [activeGames].  The
    timer is set for 15000 ms; time is not modelled: an armed timer fires at
    some later point unless it has been cleared before. *)
Definition disconnect_game (sid : string) (gid : string) (game : LiveGame) (st : State)
    : State :=
  let '(disconnectedPlayerId, game1) :=
    if bool_decide (player1SocketId game = Some sid) then
      (player1Id game,
       mkLiveGame None (player1Id game) (player2SocketId game) (player2Id game))
    else if bool_decide (player2SocketId game = Some sid) then
      (player2Id game,
       mkLiveGame (player1SocketId game) (player1Id game) None (player2Id game))
    else (JNull, game) in
  if truthy disconnectedPlayerId then
    let key := timeoutKey gid disconnectedPlayerId in
    let h := next_handle st in
    mkState (<[gid := game1]> (activeGames st))
            (<[key := h]> (disconnectTimeouts st))
            (<[h := mkTimer gid disconnectedPlayerId key]> (armed st))
            (S h) (awaiting st) (rooms st)
  else
    mkState (<[gid := game1]> (activeGames st)) (disconnectTimeouts st) (armed st)
            (next_handle st) (awaiting st) (rooms st).

(** disconnect: the socket has left its rooms when the handler runs. *)
Definition disconnect (sid : string) (st : State) : State :=
  let st0 := mkState (activeGames st) (disconnectTimeouts st) (armed st) (next_handle st)
                     (awaiting st) ((fun members => members ∖ {[sid]}) <$> rooms st) in
  map_fold (disconnect_game sid) st0 (activeGames st).

(** The timer with handle [h] fires: the callback runs up to its [await],
    where the update of the game row has been handed to the store. *)
Definition timer_fire (h : nat) (st : State) (db : DB) : State * DB :=
  match armed st !! h with
  | None => (st, db)
  | Some tm =>
    let st1 := mkState (activeGames st) (disconnectTimeouts st) (delete h (armed st))
                       (next_handle st) (awaiting st) (rooms st) in
    match activeGames st !! tm_gameId tm with
    | None => (st1, db)
    | Some currentGame =>
      let p1 := player1Id currentGame in
      let p2 := player2Id currentGame in
      let remainingPlayerId :=
        if strict_eq (tm_disconnectedPlayerId tm) p1 then p2 else p1 in
      (mkState (activeGames st) (disconnectTimeouts st) (delete h (armed st))
               (next_handle st)
               (awaiting st ++ [mkSuspended (tm_gameId tm) (tm_timeoutKey tm) p1 p2])
               (rooms st),
       force_end (tm_gameId tm) remainingPlayerId db)
    end
  end.

(** The store has answered the [k]-th waiting callback: the rest of the
    callback runs. *)
Definition timer_resume (k : nat) (st : State) : State * list (dest * message) :=
  match awaiting st !! k with
  | None => (st, [])
  | Some su =>
    (mkState (delete (su_gameId su) (activeGames st))
             (delete (su_timeoutKey su) (disconnectTimeouts st))
             (armed st) (next_handle st) (delete k (awaiting st)) (rooms st),
     ((ToSockets (room st (su_gameId su)), opponent_disconnected)
      :: announce_available (su_player1Id su) (su_player2Id su)))
  end.

(** The events of the handler, and a run of the server over a sequence of
    them. *)
Inductive event :=
| JoinGame (sid gid : string) (playerId : jsval)
| LeaveGame (sid gid : string)
| EndGame (gid : string) (winner : jsval)
| Disconnect (sid : string)
| TimerFires (h : nat)
| StoreAnswers (k : nat).

Definition handle (e : event) (st : State) (db : DB) : State * DB * list (dest * message) :=
  match e with
  | JoinGame sid gid playerId => (join_game sid gid playerId st, db, [])
  | LeaveGame sid gid => leave_game sid gid st db
  | EndGame gid winner => let '(st1, out) := end_game gid winner st in (st1, db, out)
  | Disconnect sid => (disconnect sid st, db, [])
  | TimerFires h => let '(st1, db1) := timer_fire h st db in (st1, db1, [])
  | StoreAnswers k => let '(st1, out) := timer_resume k st in (st1, db, out)
  end.

Fixpoint run (es : list event) (st : State) (db : DB) : State * DB * list (dest * message) :=
  match es with
  | [] => (st, db, [])
  | e :: r =>
    let '(st1, db1, out1) := handle e st db in
    let '(st2, db2, out2) := run r st1 db1 in
    (st2, db2, (out1 ++ out2)%list)
  end.

End GameHandler.

(** ** A sample session, used to run the handlers on concrete inputs *)

Module Scenario.
Import ChallengeHandler.

Definition alice : UserData := mkUserData (JNum 1) (JStr "alice") (JStr "Alice").
Definition bob : UserData := mkUserData (JNum 2) (JStr "bob") (JStr "Bob").
Definition carol : UserData := mkUserData (JNum 3) (JStr "carol") (JStr "Carol").

(** Alice is registered on socket sA, Bob on sB, Carol on sC. *)
Definition lobby : State :=
  register_user "sC" carol (register_user "sB" bob (register_user "sA" alice initial)).

Definition offer_to_bob : Offer :=
  mkOffer (JNum 1) (JStr "alice") (JStr "Alice") (JNum 2) (JStr "bob").

(** [Number] on the ids of the sample: numbers are themselves. *)
Definition number_of (v : jsval) : option jsval :=
  match v with
  | JNum n => Some (JNum n)
  | _ => None
  end.

(** Alice has challenged Bob at time 1000. *)
Definition challenged : State := (send_challenge number_of "sA" offer_to_bob 1000 lobby).1.

(** Bob has accepted; the shuffle drew index 0 in every iteration. *)
Definition started : State * DB :=
  (accept_challenge "sB" "1-2-1000" (fun _ => 0%nat) "g" challenged empty_db).1.

Definition started_db : DB := started.2.

Definition body (n : Z) (s : string) (pos : Z) : PlayBody :=
  mkPlayBody (JNum n) s pos None None.

(** Alice plays her tiles 2 to 7 one after the other on the right while Bob
    passes: the chain ends with [1|1], Alice is left with the tile [0|1]
    (row 1) and it is her turn. *)
Fixpoint alice_plays (k : nat) (n : Z) (db : DB) : DB :=
  match k with
  | O => db
  | S k' =>
    let db1 := (play_route (JNum 1) "g" (body n "right" (n - 2)) db).1 in
    let db2 := (pass_route (JNum 2) "g" db1).1 in
    alice_plays k' (n + 1) db2
  end.

Definition last_tile_db : DB := alice_plays 6 2 started_db.

Definition mounted (user : jsval) (first : bool) : GameBoard.Component :=
  GameBoard.mkComponent "g" user first [] [] 1 "active" JNull "Loading game...".

(** Alice's component, loaded when she holds her last tile. *)
Definition alice_view : GameBoard.Component :=
  GameBoard.loadGameFromDatabase (JNum 1) (mounted (JNum 1) true) last_tile_db.

(** Alice has opened with [1|1]; Bob's component, loaded for his move. *)
Definition opened_db : DB := (play_route (JNum 1) "g" (body 7 "right" 0) started_db).1.

Definition bob_view : GameBoard.Component :=
  GameBoard.loadGameFromDatabase (JNum 1) (mounted (JNum 2) false) opened_db.

(** An offer of Alice to user 9, who is not connected. *)
Definition offer_to_nobody : Offer :=
  mkOffer (JNum 1) (JStr "alice") (JStr "Alice") (JNum 9) (JStr "dave").

(** Alice has registered on socket sA and then again on a new socket sA2. *)
Definition reconnected : State :=
  register_user "sA2" alice (register_user "sA" alice initial).

(** Both players have joined the room of game g. *)
Definition both_joined : list GameHandler.event :=
  [GameHandler.JoinGame "sA" "g" (JNum 1); GameHandler.JoinGame "sB" "g" (JNum 2)].

(** Both sockets drop one after the other; the two timers (handles 0 and
    1) fire while the store has not yet answered the first update. *)
Definition both_drop : list GameHandler.event :=
  (both_joined ++ [GameHandler.Disconnect "sA"; GameHandler.Disconnect "sB"])%list.

Definition racing_timers : list GameHandler.event :=
  (both_drop ++ [GameHandler.TimerFires 0; GameHandler.TimerFires 1;
                 GameHandler.StoreAnswers 0; GameHandler.StoreAnswers 0])%list.

End Scenario.

(** ** The vocabulary of the properties *)

Module Terms.
Import GameBoard.

(** The open end of the chain on the side a tile is played on; every side
    other than 'left' is the right one, as in [playTile]. *)
Definition open_end (side : string) (chain : list Tile) : option Z :=
  if bool_decide (side = "left") then leftEnd chain else rightEnd chain.

(** The pip of [tile] that is left exposed when the pip [e] is matched. *)
Definition other_pip (tile : Tile) (e : Z) : Z :=
  if Z.eqb (top tile) e then bottom tile else top tile.

(** The placement rule: the chain is empty, or the open end of the chosen
    side equals one of the two pips of the tile. *)
Definition legal_placement (chain : list Tile) (tile : Tile) (side : string) : Prop :=
  chain = [] \/ exists e, open_end side chain = Some e /\ (top tile = e \/ bottom tile = e).

(** The rows of game [gid] that lie on the board, in chain order. *)
Definition board_rows (gid : Z) (db : DB) : list GameTile :=
  order_by_position (filter (fun t => tile_gameID t = gid /\ location t = "board")
                            (GameTiles db)).

(** The row selection of the play route for a tile of the hand of the
    player whose turn it is. *)
Definition in_hand_of_turn (game : Game) (k : jsval) (db : DB) : option GameTile :=
  single (filter (fun t => JNum (titleID t) = k /\ tile_gameID t = gameID game
                           /\ location t = (if strict_eq (current_turn game) (player1_id game)
                                            then "player1_hand" else "player2_hand"))
                 (GameTiles db)).

(** A message of the challenge handler with the display name of player 2
    in a game-start payload blanked. *)
Definition hide_player2_displayName (m : ChallengeHandler.dest * ChallengeHandler.message)
    : ChallengeHandler.dest * ChallengeHandler.message :=
  match m with
  | (d, ChallengeHandler.game_start gd) =>
    (d, ChallengeHandler.game_start
          (ChallengeHandler.mkGameData
             (ChallengeHandler.gd_gameId gd) (ChallengeHandler.gd_gameDbId gd)
             (ChallengeHandler.gd_player1 gd)
             (ChallengeHandler.mkPlayer
                (ChallengeHandler.pl_id (ChallengeHandler.gd_player2 gd))
                (ChallengeHandler.pl_username (ChallengeHandler.gd_player2 gd))
                JUndef)))
  | _ => m
  end.

(** The number of rows among [ts] that carry the location label [l]. *)
Definition count_at (l : string) (ts : list GameTile) : nat :=
  length (filter (fun t => location t = l) ts).

(** The four places a tile can be. *)
Definition four_locations : list string :=
  ["player1_hand"; "player2_hand"; "board"; "boneyard"].

Definition tiles_of (gid : Z) (db : DB) : list GameTile :=
  filter (fun t => tile_gameID t = gid) (GameTiles db).


(** The operations of the server that write to the store.  A draw request
    names the location the drawn tile goes to; here it names one of the
    four locations (the client sends the label of its own hand). *)
Inductive store_step : DB -> DB -> Prop :=
| step_accept (st : ChallengeHandler.State) (sid cid : string) (random : nat -> nat)
    (gameUuid : string) (db : DB) :
    store_step db (ChallengeHandler.accept_challenge sid cid random gameUuid st db).1.2
| step_create (userId : jsval) (gameUuid : string) (p1 p2 : jsval)
    (tiles : list TileToInsert) (db : DB) :
    store_step db (create_route userId gameUuid p1 p2 tiles db).1
| step_play (userId : jsval) (gameUuid : string) (b : PlayBody) (db : DB) :
    store_step db (play_route userId gameUuid b db).1
| step_draw (userId : jsval) (gameUuid : string) (playerLocation : string) (db : DB) :
    playerLocation ∈ four_locations ->
    store_step db (draw_route userId gameUuid playerLocation db).1
| step_pass (userId : jsval) (gameUuid : string) (db : DB) :
    store_step db (pass_route userId gameUuid db).1
| step_end (userId : jsval) (gameUuid : string) (winner : jsval) (db : DB) :
    store_step db (end_route userId gameUuid winner db).1
| step_leave (st : GameHandler.State) (sid gid : string) (db : DB) :
    store_step db (GameHandler.leave_game sid gid st db).1.2
| step_timer (st : GameHandler.State) (h : nat) (db : DB) :
    store_step db (GameHandler.timer_fire h st db).2.

(** The stores the server can be in, from the empty one. *)
Inductive reachable : DB -> Prop :=
| reachable_empty : reachable empty_db
| reachable_step (db db' : DB) : reachable db -> store_step db db' -> reachable db'.


(** A row after an operation that moved it: same key, same game, and its
    location either kept or set to one of the four locations. *)
Definition row_moved (t t' : GameTile) : Prop :=
  titleID t' = titleID t /\ tile_gameID t' = tile_gameID t
  /\ (location t' = location t \/ location t' ∈ four_locations).

Definition rows_moved (l l' : list GameTile) : Prop := Forall2 row_moved l l'.

(** An operation that moves rows, and one that adds the rows of a new game. *)
Definition moves_rows (db db' : DB) : Prop :=
  rows_moved (GameTiles db) (GameTiles db')
  /\ next_gameID db' = next_gameID db /\ next_titleID db' = next_titleID db.

Definition adds_game (db db' : DB) : Prop :=
  exists l, GameTiles db'
            = (GameTiles db ++ number_tiles (next_gameID db) (next_titleID db) l)%list
            /\ next_gameID db' = next_gameID db + 1
            /\ next_titleID db' = next_titleID db + Z.of_nat (length l).


(** [titleID] is a key of GameTiles, below the serial counter. *)
Definition keys_distinct (db : DB) : Prop :=
  NoDup (map titleID (GameTiles db))
  /\ Forall (fun t => titleID t < next_titleID db) (GameTiles db).

End Terms.
Export Terms.

(** ** The vocabulary of the further properties *)

Module ChainTerms.

(** A row of game [gid] that lies on the board. *)
Definition on_board (gid : Z) (t : GameTile) : Prop :=
  tile_gameID t = gid /\ location t = "board".

(** The row one place further right. *)
Definition bump (t : GameTile) : GameTile :=
  set_board_position (board_position t + 1) t.

(** The rows of a chain carry their index as board position. *)
Definition indexed (l : list GameTile) : Prop :=
  forall (i : nat) (t : GameTile), l !! i = Some t -> board_position t = Z.of_nat i.

(** [a] lies left of [b]. *)
Definition left_of (a b : GameTile) : Prop := board_position a < board_position b.

(** The rows [l] as the play request with body [b] leaves them, apart from
    the row it plays: shifted if it is a play on the left at position 0. *)
Definition shifted (b : PlayBody) (gid : Z) (l : list GameTile) : list GameTile :=
  if bool_decide (side b = "left") && Z.eqb (boardPosition b) 0
  then update_where (on_board gid) bump l else l.

End ChainTerms.
Export ChainTerms.

(** ** routes/game.js: the draw route for any row the store returns *)

Module DrawAny.

(** POST /:gameUuid/draw.  The selection of the boneyard rows ends in
    [.limit(1)] with no order, so the store returns one of the boneyard
    rows of the game, whichever it chooses: the row at index [pick] of the
    selection (taken modulo the number of its rows). *)
Definition draw_route_any (pick : nat) (userId : jsval) (gameUuid : string)
    (playerLocation : string) (db : DB) : DB * response :=
  if negb (truthy userId) then (db, Err 401 "Authentication required") else
  match find_game gameUuid db with
  | None => (db, Err 404 "Game not found")
  | Some game =>
    if strict_ne (current_turn game) userId then (db, Err 403 "Not your turn") else
    if Z.leb (boneyard_count game) 0 then (db, Err 400 "Boneyard is empty") else
    match filter (fun t => tile_gameID t = gameID game /\ location t = "boneyard")
                 (GameTiles db) with
    | [] => (db, Err 400 "No tiles in boneyard")
    | first :: others =>
      let drawnTile := nth (pick mod length (first :: others)) (first :: others) first in
      let hit := fun t => titleID t = titleID drawnTile in
      match single (filter hit (GameTiles db)) with
      | None => (db, Err 500 "Failed to draw tile")
      | Some row =>
        let updatedTile := set_location playerLocation row in
        let db2 := with_tiles (update_where hit (set_location playerLocation)
                                            (GameTiles db)) db in
        let next := nextTurnPlayerId game in
        let db3 := with_games
          (update_where (fun g => gameID g = gameID game)
             (fun g => set_current_turn next
                         (set_boneyard_count (boneyard_count game - 1) g))
             (Games db2)) db2 in
        let db4 := insert_move (mkMove (gameID game) userId "draw_tile"
                                       (Some (top_value updatedTile))
                                       (Some (bottom_value updatedTile)) None) db3 in
        (db4, DrawOk updatedTile (boneyard_count game - 1))
      end
    end
  end.

End DrawAny.
Export DrawAny.

(** ** components/GameBoard.jsx: the other handlers of the client *)

Module GameBoardEvents.
Import GameBoard.

(** A mounted component with the two counters it keeps beside its hand and
    chain, and [opponent.id] of its props. *)
Record View := mkView {
  component : Component;
  opponent_id : jsval;
  opponentHandCount : Z;
  boneyardCount : Z
}.

(** What the component sends on its socket after a draw or a pass. *)
Inductive notice :=
| draw_tile (gid : string) (playerId : jsval)
| pass_turn (gid : string) (playerId : jsval).

Definition with_component (c : Component) (v : View) : View :=
  mkView c (opponent_id v) (opponentHandCount v) (boneyardCount v).

Definition playerHandLocation (c : Component) : string :=
  if isPlayer1 c then "player1_hand" else "player2_hand".

(** [passTurn()]: a failed request is only logged. *)
Definition passTurn (v : View) (db : DB) : View * DB * list notice :=
  let c := component v in
  if negb (isMyTurn c) then (with_component (set_message "Not your turn!" c) v, db, [])
  else
    match pass_route (currentUser_id c) (gameId c) db with
    | (db1, PassOk _) =>
      (with_component (set_message "You passed your turn." c) v, db1,
       [pass_turn (gameId c) (currentUser_id c)])
    | (db1, _) => (v, db1, [])
    end.

(** [drawFromBoneyard()]; [pick] is the boneyard row the store returns to
    the draw request. *)
Definition drawFromBoneyard (pick : nat) (v : View) (db : DB) : View * DB * list notice :=
  let c := component v in
  if negb (isMyTurn c) then (with_component (set_message "Not your turn!" c) v, db, [])
  else if Z.eqb (boneyardCount v) 0
  then passTurn (with_component (set_message "Boneyard is empty! Passing turn..." c) v) db
  else
    match draw_route_any pick (currentUser_id c) (gameId c) (playerHandLocation c) db with
    | (db1, DrawOk tile newBoneyardCount) =>
      (mkView (mkComponent (gameId c) (currentUser_id c) (isPlayer1 c)
                           (playerHand c ++ [to_tile tile])%list (boardChain c)
                           (currentTurn c) (gameStatus c) (winnerId c)
                           ("Drew [" ++ pretty (top_value tile) ++ "|"
                            ++ pretty (bottom_value tile) ++ "] from boneyard."))
              (opponent_id v) (opponentHandCount v) newBoneyardCount,
       db1, [draw_tile (gameId c) (currentUser_id c)])
    | (db1, _) => (with_component (set_message "Failed to draw tile." c) v, db1, [])
    end.

(** The handler of opponent-played.  It is registered by the effect that
    runs when the component is mounted for a game, so the counter its test
    for the opponent's last tile reads is the one of that render, [seen];
    the chain and the counter of the state are changed by updater
    functions, which work on the current state. *)
Definition handleOpponentPlayed (seen : Z) (tile : Tile) (side : string)
    (boardPosition : Z) (v : View) (db : DB) : View * DB * list sent :=
  let c := component v in
  let chain' := if bool_decide (side = "left") then tile :: boardChain c
                else (boardChain c ++ [tile])%list in
  let c1 := mkComponent (gameId c) (currentUser_id c) (isPlayer1 c) (playerHand c) chain'
                        (currentTurn c) (gameStatus c) (winnerId c)
                        ("Opponent played [" ++ pretty (top tile) ++ "|"
                         ++ pretty (bottom tile) ++ "]. Your turn!") in
  if Z.eqb seen 1
  then let '(c2, db1, out) := endGame (opponent_id v) c1 db in
       (mkView c2 (opponent_id v) (opponentHandCount v - 1) (boneyardCount v), db1, out)
  else (mkView c1 (opponent_id v) (opponentHandCount v - 1) (boneyardCount v), db, []).

End GameBoardEvents.

(** ** socket/lobbyChatHandler.js *)

Module LobbyChat.
Import ChallengeHandler.

Record ChatMessage := mkChatMessage {
  msg_id : string;
  msg_username : jsval;
  msg_text : jsval;
  msg_timestamp : Z
}.

Definition MAX_HISTORY : nat := 50.

Inductive message :=
| message_history (history : list ChatMessage)
| user_joined (username : jsval) (timestamp : Z)
| user_left (username : jsval) (timestamp : Z)
| new_message (m : ChatMessage).

(** The module-level history, the members of the room 'lobby', and the
    fields of the socket objects, which this handler shares with the
    challenge handler ([socket.userData] is set by both). *)
Record State := mkState {
  messageHistory : list ChatMessage;
  lobby : gset string;
  sockets : gmap string SocketFields
}.

Definition userData_of (st : State) (sid : string) : option UserData :=
  match sockets st !! sid with
  | Some f => sock_userData f
  | None => None
  end.

Definition userId_of (st : State) (sid : string) : jsval :=
  match sockets st !! sid with
  | Some f => sock_userId f
  | None => JUndef
  end.

(** join-lobby; [now] is [Date.now()]. *)
Definition join_lobby (sid : string) (userData : UserData) (now : Z) (st : State)
    : State * list (gset string * message) :=
  (mkState (messageHistory st) ({[sid]} ∪ lobby st)
           (<[sid := mkSocketFields (userId_of st sid) (Some userData)]> (sockets st)),
   [({[sid]}, message_history (messageHistory st));
    (lobby st ∖ {[sid]}, user_joined (ud_username userData) now)]).

(** [messageHistory.push(message)] followed by the [shift()] of a history
    that has grown past [MAX_HISTORY]. *)
Definition push_bounded (m : ChatMessage) (history : list ChatMessage) : list ChatMessage :=
  let pushed := (history ++ [m])%list in
  if decide (MAX_HISTORY < length pushed)%nat then tail pushed else pushed.

(** lobby-message; [now0] and [now] are the two readings of [Date.now()],
    for the id and for the timestamp. *)
Definition lobby_message (sid : string) (text : jsval) (now0 now : Z) (st : State)
    : State * list (gset string * message) :=
  match userData_of st sid with
  | None => (st, [])
  | Some userData =>
    let m := mkChatMessage (pretty now0 ++ "-" ++ sid) (ud_username userData) text now in
    (mkState (push_bounded m (messageHistory st)) (lobby st) (sockets st),
     [(lobby st, new_message m)])
  end.

(** leave-lobby *)
Definition leave_lobby (sid : string) (now : Z) (st : State)
    : State * list (gset string * message) :=
  match userData_of st sid with
  | None => (st, [])
  | Some userData =>
    (mkState (messageHistory st) (lobby st ∖ {[sid]}) (sockets st),
     [(lobby st ∖ {[sid]}, user_left (ud_username userData) now)])
  end.

(** disconnect: the socket has left the room when the handler runs. *)
Definition disconnect (sid : string) (now : Z) (st : State)
    : State * list (gset string * message) :=
  let st1 := mkState (messageHistory st) (lobby st ∖ {[sid]}) (sockets st) in
  match userData_of st sid with
  | None => (st1, [])
  | Some userData => (st1, [(lobby st ∖ {[sid]}, user_left (ud_username userData) now)])
  end.

Inductive event :=
| JoinLobby (sid : string) (userData : UserData) (now : Z)
| LobbyMessage (sid : string) (text : jsval) (now0 now : Z)
| LeaveLobby (sid : string) (now : Z)
| Disconnect (sid : string) (now : Z).

Definition handle (e : event) (st : State) : State * list (gset string * message) :=
  match e with
  | JoinLobby sid userData now => join_lobby sid userData now st
  | LobbyMessage sid text now0 now => lobby_message sid text now0 now st
  | LeaveLobby sid now => leave_lobby sid now st
  | Disconnect sid now => disconnect sid now st
  end.

Definition run (es : list event) (st : State) : State :=
  fold_left (fun s e => (handle e s).1) es st.

(** The chat messages broadcast while the events [es] are handled. *)
Definition chat_of (dm : gset string * message) : option ChatMessage :=
  match dm.2 with
  | new_message m => Some m
  | _ => None
  end.

Fixpoint posted (es : list event) (st : State) : list ChatMessage :=
  match es with
  | [] => []
  | e :: r => (omap chat_of (handle e st).2 ++ posted r (handle e st).1)%list
  end.

End LobbyChat.

(** ** routes/users.js and the list of components/LobbyList.jsx *)

Module Users.

(** An entry of [onlineUsers]: [{ id, username, displayName }]. *)
Record OnlineUser := mkOnlineUser {
  ou_id : jsval;
  ou_username : jsval;
  ou_displayName : jsval
}.

#[global] Instance OnlineUser_eq_dec : EqDecision OnlineUser.
Proof. solve_decision. Defined.

(** The session fields the routes read. *)
Record Session := mkSession {
  s_userId : jsval;
  s_username : jsval;
  s_displayName : jsval
}.

(** A [Map] in insertion order: [set] overwrites the value of a key that
    is present and appends a new key. *)
Fixpoint map_set {V} (k : jsval) (v : V) (m : list (jsval * V)) : list (jsval * V) :=
  match m with
  | [] => [(k, v)]
  | (k', v') :: r => if decide (k' = k) then (k, v) :: r else (k', v') :: map_set k v r
  end.

Definition map_delete {V} (k : jsval) (m : list (jsval * V)) : list (jsval * V) :=
  filter (fun kv => kv.1 <> k) m.

Inductive response :=
| Err (code : Z) (error : string)
| UsersOk (users : list OnlineUser)
| OnlineOk (user : OnlineUser)
| OfflineOk.

Inductive broadcast :=
| user_online (user : OnlineUser)
| user_offline (uid username : jsval).

(** GET /online *)
Definition get_online (s : Session) (onlineUsers : list (jsval * OnlineUser)) : response :=
  if negb (truthy (s_userId s)) then Err 401 "Authentication required" else
  let allUsers := map snd onlineUsers in
  UsersOk (filter (fun u => ou_id u <> s_userId s) allUsers).

(** POST /online *)
Definition mark_online (s : Session) (onlineUsers : list (jsval * OnlineUser))
    : list (jsval * OnlineUser) * response * list broadcast :=
  if negb (truthy (s_userId s)) then (onlineUsers, Err 401 "Authentication required", [])
  else
    let user := mkOnlineUser (s_userId s) (s_username s)
                             (if truthy (s_displayName s) then s_displayName s
                              else s_username s) in
    (map_set (ou_id user) user onlineUsers, OnlineOk user, [user_online user]).

(** POST /offline *)
Definition mark_offline (s : Session) (onlineUsers : list (jsval * OnlineUser))
    : list (jsval * OnlineUser) * response * list broadcast :=
  if negb (truthy (s_userId s)) then (onlineUsers, Err 401 "Authentication required", [])
  else (map_delete (s_userId s) onlineUsers, OfflineOk,
        [user_offline (s_userId s) (s_username s)]).

(** The requests that change [onlineUsers]. *)
Inductive request := MarkOnline (s : Session) | MarkOffline (s : Session).

Definition serve (r : request) (onlineUsers : list (jsval * OnlineUser))
    : list (jsval * OnlineUser) :=
  match r with
  | MarkOnline s => (mark_online s onlineUsers).1.1
  | MarkOffline s => (mark_offline s onlineUsers).1.1
  end.

(** LobbyList: the updater of the user-online listener; [me] is [user.id]. *)
Definition on_user_online (me : jsval) (userData : OnlineUser) (prev : list OnlineUser)
    : list OnlineUser :=
  let alreadyInList := list_find (fun u => ou_id u = ou_id userData) prev in
  let isMe := strict_eq (ou_id userData) me in
  if bool_decide (is_Some alreadyInList) || isMe then prev else (prev ++ [userData])%list.

(** LobbyList: the updater of the user-offline listener. *)
Definition on_user_offline (uid : jsval) (prev : list OnlineUser) : list OnlineUser :=
  filter (fun u => ou_id u <> uid) prev.

Inductive lobby_event :=
| UserOnline (userData : OnlineUser)
| UserOffline (uid : jsval).

Definition on_event (me : jsval) (e : lobby_event) (prev : list OnlineUser)
    : list OnlineUser :=
  match e with
  | UserOnline userData => on_user_online me userData prev
  | UserOffline uid => on_user_offline uid prev
  end.

(** [onlineUsers] after the requests [rs], and the list of a LobbyList
    after the events [es]. *)
Definition served (rs : list request) (onlineUsers : list (jsval * OnlineUser))
    : list (jsval * OnlineUser) :=
  fold_left (fun m r => serve r m) rs onlineUsers.

Definition shown (me : jsval) (es : list lobby_event) (users : list OnlineUser)
    : list OnlineUser :=
  fold_left (fun l e => on_event me e l) es users.

(** The table of online users holds each user under the user's own id. *)
Definition keyed (m : list (jsval * OnlineUser)) : Prop :=
  NoDup (map fst m) /\ Forall (fun kv => ou_id kv.2 = kv.1) m.

End Users.

(** ** routes/auth.js and the token middleware of server.js *)

Module Auth.

(** The session of a browser: the four fields of the request-forgery
    token and the fields set by a login; [None] is an absent field. *)
Record Session := mkSession {
  csrfToken : option string;
  csrfTimestamp : option Z;
  csrfUserAgent : option string;
  csrfIP : option string;
  userId : jsval;
  username : jsval;
  displayName : jsval
}.

Definition fresh_session : Session := mkSession None None None None JUndef JUndef JUndef.

(** What a request carries besides its body; [now] is [Date.now()]. *)
Record Request := mkRequest {
  req_ip : string;
  req_userAgent : string;
  req_now : Z
}.

(** A row of the table Users. *)
Record User := mkUser {
  userID : Z;
  u_username : jsval;
  display_name : jsval;
  password_hash : string
}.

Record Users := mkUsers {
  rows : list User;
  next_userID : Z
}.

Inductive response :=
| Err (code : Z) (error : string)
| Registered
| LoggedIn (uid : Z) (name display : jsval)
| LoggedOut
| Token (t : option string)
| Me (uid name : jsval).

#[global] Instance User_eq_dec : EqDecision User.
Proof. solve_decision. Defined.
#[global] Instance Users_eq_dec : EqDecision Users.
Proof. solve_decision. Defined.
#[global] Instance Session_eq_dec : EqDecision Session.
Proof. solve_decision. Defined.
#[global] Instance response_eq_dec : EqDecision response.
Proof. solve_decision. Defined.

(** [!req.session.csrfToken] *)
Definition token_missing (s : Session) : bool :=
  match csrfToken s with
  | Some t => bool_decide (t = "")
  | None => true
  end.

(** The middleware that runs before every route: a session without a
    token gets [fresh], the value of [generateCsrfToken] for this request. *)
Definition csrf_middleware (fresh : string) (r : Request) (s : Session) : Session :=
  if token_missing s
  then mkSession (Some fresh) (Some (req_now r)) (Some (req_userAgent r)) (Some (req_ip r))
                 (userId s) (username s) (displayName s)
  else s.

Definition clear_token (s : Session) : Session :=
  mkSession None None None None (userId s) (username s) (displayName s).

Definition TOKEN_EXPIRY : Z := 10 * 60 * 1000.

(** The body of a registration request. *)
Record RegisterBody := mkRegisterBody {
  rb_username : jsval;
  rb_displayName : jsval;
  rb_password : jsval;
  rb_csrfToken : jsval
}.

(** [tokenAge > TOKEN_EXPIRY]; without a timestamp the age is not a number
    and the comparison is false. *)
Definition token_expired (r : Request) (s : Session) : bool :=
  match csrfTimestamp s with
  | Some t => Z.ltb TOKEN_EXPIRY (req_now r - t)
  | None => false
  end.

(** POST /register.  [production] is [NODE_ENV === 'production'], [hashed]
    the value of [bcrypt.hash] for the password; the insert fails with
    code 23505 when the username is taken. *)
Definition register (production : bool) (hashed : string) (r : Request) (b : RegisterBody)
    (users : Users) (s : Session) : Users * Session * response :=
  if negb (truthy (rb_csrfToken b))
     || negb (bool_decide (rb_csrfToken b = from_option JStr JUndef (csrfToken s)))
  then (users, s, Err 403 "Invalid or missing security token")
  else if production && negb (bool_decide (Some (req_ip r) = csrfIP s))
  then (users, s, Err 403 "Security validation failed - IP mismatch")
  else if production && negb (bool_decide (Some (req_userAgent r) = csrfUserAgent s))
  then (users, s, Err 403 "Security validation failed - Browser mismatch")
  else if token_expired r s
  then (users, s, Err 403 "Security token expired. Please refresh the page.")
  else
    let s1 := clear_token s in
    if negb (truthy (rb_username b)) || negb (truthy (rb_displayName b))
       || negb (truthy (rb_password b))
    then (users, s1, Err 400 "All fields are required")
    else if bool_decide (Exists (fun u => u_username u = rb_username b) (rows users))
    then (users, s1, Err 400 "Username already exists")
    else (mkUsers (rows users ++ [mkUser (next_userID users) (rb_username b)
                                         (rb_displayName b) hashed])%list
                  (next_userID users + 1),
          s1, Registered).

(** POST /login; [compare] is [bcrypt.compare]. *)
Definition login (compare : jsval -> string -> bool) (name password : jsval)
    (users : Users) (s : Session) : Session * response :=
  if negb (truthy name) || negb (truthy password)
  then (s, Err 400 "Username and password are required")
  else
    match single (filter (fun u => u_username u = name) (rows users)) with
    | None => (s, Err 401 "Invalid credentials")
    | Some data =>
      if bool_decide (password_hash data = "") then (s, Err 401 "Invalid credentials")
      else if negb (compare password (password_hash data))
      then (s, Err 401 "Invalid credentials")
      else if Z.eqb (userID data) 0 then (s, Err 500 "Database configuration error")
      else (mkSession (csrfToken s) (csrfTimestamp s) (csrfUserAgent s) (csrfIP s)
                      (JNum (userID data)) (u_username data) (display_name data),
            LoggedIn (userID data) (u_username data) (display_name data))
    end.

(** POST /logout: the session is destroyed. *)
Definition logout (s : Session) : Session * response := (fresh_session, LoggedOut).


(** GET /me *)
Definition me (s : Session) : response :=
  if negb (truthy (userId s)) then Err 401 "Not authenticated"
  else Me (userId s) (username s).

End Auth.

(** ** components/SVGBoard.jsx: the layout of the chain *)

Module SVGBoard.

Definition TILE_WIDTH : Z := 120.
Definition TILE_HEIGHT : Z := 60.
Definition TILE_SPACING : Z := 5.
Definition BOARD_PADDING : Z := 20.
Definition BOARD_HEIGHT : Z := 250.

(** [tiles.length > 0 ? tiles.length * (TILE_WIDTH + TILE_SPACING) + BOARD_PADDING * 2 : 800] *)
Definition boardWidth (n : nat) : Z :=
  if (0 <? Z.of_nat n)%Z then Z.of_nat n * (TILE_WIDTH + TILE_SPACING) + BOARD_PADDING * 2
  else 800.

(** [BOARD_HEIGHT / 2 - TILE_HEIGHT / 2]; both halves are whole numbers. *)
Definition centerY : Z := BOARD_HEIGHT / 2 - TILE_HEIGHT / 2.

(** The corner of the tile drawn at [index]. *)
Definition tile_x (index : nat) : Z :=
  BOARD_PADDING + Z.of_nat index * (TILE_WIDTH + TILE_SPACING).

Definition tile_y (index : nat) : Z := centerY.

End SVGBoard.

(** ** The vocabulary of the disconnect loop *)

Module ForfeitTerms.
Import GameHandler.

(** [disconnectedPlayerId] as the loop body finds it for socket [sid]. *)
Definition dropped (sid : string) (game : LiveGame) : jsval :=
  if bool_decide (player1SocketId game = Some sid) then player1Id game
  else if bool_decide (player2SocketId game = Some sid) then player2Id game
  else JNull.

(** The entry as the loop body leaves it: the slot of [sid] is emptied. *)
Definition emptied (sid : string) (game : LiveGame) : LiveGame :=
  if bool_decide (player1SocketId game = Some sid)
  then mkLiveGame None (player1Id game) (player2SocketId game) (player2Id game)
  else if bool_decide (player2SocketId game = Some sid)
  then mkLiveGame (player1SocketId game) (player1Id game) None (player2Id game)
  else game.

(** The timer the loop body arms for game [gid]. *)
Definition timer_of (sid gid : string) (game : LiveGame) : Timer :=
  mkTimer gid (dropped sid game) (timeoutKey gid (dropped sid game)).

(** What the loop has done when it has run over the games [m]. *)
Definition loop_done (sid gid : string) (st0 r : State) (m : gmap string LiveGame) : Prop :=
  activeGames r = (emptied sid <$> m) ∪ activeGames st0
  /\ rooms r = rooms st0 /\ awaiting r = awaiting st0
  /\ (forall g game, m !! g = Some game -> truthy (dropped sid game) = true ->
        exists h, (h < next_handle r)%nat /\ armed r !! h = Some (timer_of sid g game))
  /\ ((forall g game, m !! g = Some game -> g <> gid -> truthy (dropped sid game) = false) ->
      match m !! gid with
      | Some game =>
        truthy (dropped sid game) = true ->
        disconnectTimeouts r
        = <[timeoutKey gid (dropped sid game) := next_handle st0]> (disconnectTimeouts st0)
        /\ armed r = <[next_handle st0 := timer_of sid gid game]> (armed st0)
        /\ next_handle r = S (next_handle st0)
      | None =>
        disconnectTimeouts r = disconnectTimeouts st0 /\ armed r = armed st0
        /\ next_handle r = next_handle st0
      end).

End ForfeitTerms.

(** ** The shape of a chain *)

Module ChainShape.
Import GameBoard.

(** Neighbours in the chain show the same number where they touch. *)
Fixpoint linked (chain : list Tile) : Prop :=
  match chain with
  | a :: rest => match rest with
                 | b :: _ => bottom a = top b
                 | [] => True
                 end /\ linked rest
  | [] => True
  end.

End ChainShape.

(** ** socket/challengeHandler.js: the accept handler between its awaits *)

Module AcceptSteps.
Import ChallengeHandler.

(** The locals of an accept-challenge handler that waits for the store:
    the accepting socket, the challenge read at the start, the two socket
    ids looked up then, the tiles dealt, and the game row the first
    insert has returned. *)
Record Pending := mkPending {
  pd_socket : string;
  pd_challengeId : string;
  pd_challenge : Challenge;
  pd_challengerSocketId : option string;
  pd_targetSocketId : option string;
  pd_gameUuid : string;
  pd_tilesToInsert : list TileToInsert;
  pd_game : Game
}.

(** The handler from its start to its first await: the check of the
    challenge, the deal, and the insert of the game row handed to the
    store.  The challenge stays in [activeChallenges]. *)
Definition accept_begin (sid : string) (cid : string) (random : nat -> nat)
    (gameUuid : string) (st : State) (db : DB)
    : option Pending * DB * list (dest * message) :=
  match activeChallenges st !! cid with
  | None => (None, db, [(ToSocket sid, challenge_error "Challenge not found or expired")])
  | Some challenge =>
    let challengerSocketId := userSocketMap st !! challengerId challenge in
    let targetSocketId := userSocketMap st !! targetId challenge in
    let allTiles := generateAndShuffleDominoes random in
    let player1Hand := take 7 allTiles in
    let allTiles := drop 7 allTiles in
    let player2Hand := take 7 allTiles in
    let boneyard := drop 7 allTiles in
    let tilesToInsert :=
      (map (to_insert "player1_hand") player1Hand
       ++ map (to_insert "player2_hand") player2Hand
       ++ map (to_insert "boneyard") boneyard)%list in
    let '(db1, game) :=
      insert_game gameUuid (challengerId challenge) (targetId challenge)
                  (challengerId challenge) (Z.of_nat (length boneyard)) db in
    (Some (mkPending sid cid challenge challengerSocketId targetSocketId gameUuid
                     tilesToInsert game),
     db1, [])
  end.

(** From the answer of the first insert to the second await: the insert
    of the tile rows handed to the store. *)
Definition accept_tiles (p : Pending) (db : DB) : DB :=
  insert_tiles (gameID (pd_game p)) (pd_tilesToInsert p) db.

(** From the answer of the second insert to the end: the two game-start
    messages, the two user-busy messages, and the removal of the
    challenge. *)
Definition accept_finish (p : Pending) (st : State) : State * list (dest * message) :=
  let challenge := pd_challenge p in
  let gameData := mkGameData (pd_gameUuid p) (gameID (pd_game p))
    (mkPlayer (challengerId challenge) (challengerName challenge)
              (challengerDisplayName challenge))
    (mkPlayer (targetId challenge) (targetName challenge)
              (js_or (acceptor_displayName st (pd_socket p)) (targetName challenge))) in
  (mkState (delete (pd_challengeId p) (activeChallenges st)) (userSocketMap st) (sockets st),
   (emit_if_connected (pd_challengerSocketId p) (game_start gameData)
    ++ emit_if_connected (pd_targetSocketId p) (game_start gameData)
    ++ [(ToAll, user_busy (challengerId challenge) (challengerName challenge));
        (ToAll, user_busy (targetId challenge) (targetName challenge))])%list).

(** The three parts run one after the other with nothing in between. *)
Definition accept_in_one_go (sid : string) (cid : string) (random : nat -> nat)
    (gameUuid : string) (st : State) (db : DB) : State * DB * list (dest * message) :=
  match accept_begin sid cid random gameUuid st db with
  | (None, db0, out) => (st, db0, out)
  | (Some p, db1, _) =>
    let '(st1, out) := accept_finish p st in (st1, accept_tiles p db1, out)
  end.

End AcceptSteps.

(** * Properties *)

(** ** Store lemmas *)

Section StoreLemmas.

Context {A : Type}.
Variable P : A -> Prop.
Context `{!forall x, Decision (P x)}.
Variable Q : A -> Prop.
Context `{!forall x, Decision (Q x)}.
Variable f : A -> A.

Lemma update_where_length (l : list A) : length (update_where P f l) = length l.
Proof. unfold update_where. apply length_map. Qed.

(** An update that keeps [Q] commutes with the selection of the [Q] rows. *)
Lemma filter_update_where (l : list A) :
  (forall x, Q (f x) <-> Q x) ->
  filter Q (update_where P f l) = update_where P f (filter Q l).
Proof.
  intros Hf. unfold update_where. induction l as [|x l IH]; [reflexivity|].
  cbn [map]. rewrite !filter_cons.
  destruct (decide (P x)) as [HP|HP].
  - destruct (decide (Q (f x))) as [H1|H1]; destruct (decide (Q x)) as [H2|H2];
      try (exfalso; destruct (Hf x); tauto).
    + cbn [map]. rewrite decide_True by assumption. by rewrite IH.
    + exact IH.
  - destruct (decide (Q x)) as [H2|H2].
    + cbn [map]. rewrite decide_False by assumption. by rewrite IH.
    + exact IH.
Qed.

End StoreLemmas.

Lemma single_Some {A} (l : list A) (x : A) : single l = Some x -> l = [x].
Proof. destruct l as [|y [|z l]]; simpl; congruence. Qed.

Lemma find_game_rows (u : string) (db : DB) (game : Game) :
  find_game u db = Some game ->
  filter (fun g => game_uuid g = u) (Games db) = [game].
Proof. apply single_Some. Qed.

Lemma find_game_uuid (u : string) (db : DB) (game : Game) :
  find_game u db = Some game -> game_uuid game = u.
Proof.
  intros H. apply find_game_rows in H.
  assert (Hin : game ∈ filter (fun g => game_uuid g = u) (Games db)).
  { rewrite H. apply list_elem_of_singleton. reflexivity. }
  apply list_elem_of_filter in Hin. tauto.
Qed.

(** The row found under a uuid after the turn of its game has been set. *)
Lemma find_game_set_turn (u : string) (db : DB) (game : Game) (v : jsval)
    (ts : list GameTile) (ms : list GameMove) (n1 n2 : Z) :
  find_game u db = Some game ->
  find_game u (mkDB (update_where (fun g => gameID g = gameID game) (set_current_turn v)
                                  (Games db)) ts ms n1 n2)
  = Some (set_current_turn v game).
Proof.
  intros H. apply find_game_rows in H. unfold find_game. cbn [Games].
  rewrite (filter_update_where _ (fun g => game_uuid g = u)) by (intros x; reflexivity).
  rewrite H. unfold update_where. cbn [map].
  rewrite decide_True by reflexivity. reflexivity.
Qed.

(** ** Turn ownership (C4) *)

(** C4.  A play, draw or pass request of an authenticated user who is not
    the current-turn player of the addressed game is answered 403
    'Not your turn' and leaves the store as it was. *)
Theorem not_your_turn_is_rejected (db : DB) (userId : jsval) (gameUuid : string)
    (game : Game) (b : PlayBody) (playerLocation : string) :
  truthy userId = true ->
  find_game gameUuid db = Some game ->
  current_turn game <> userId ->
  play_route userId gameUuid b db = (db, Err 403 "Not your turn")
  /\ draw_route userId gameUuid playerLocation db = (db, Err 403 "Not your turn")
  /\ pass_route userId gameUuid db = (db, Err 403 "Not your turn").
Proof.
  intros Hauth Hfind Hturn.
  unfold play_route, draw_route, pass_route.
  rewrite Hauth, Hfind. cbn [negb].
  unfold strict_ne, strict_eq. rewrite bool_decide_false by assumption.
  cbn [negb]. repeat split.
Qed.

Lemma not_your_turn_is_rejected_witness :
  let db := Scenario.started_db in
  play_route (JNum 2) "g" (Scenario.body 8 "right" 0) db = (db, Err 403 "Not your turn")
  /\ draw_route (JNum 2) "g" "player2_hand" db = (db, Err 403 "Not your turn")
  /\ pass_route (JNum 2) "g" db = (db, Err 403 "Not your turn").
Proof.
  apply (not_your_turn_is_rejected Scenario.started_db (JNum 2) "g"
           (mkGame 1 "g" (JNum 1) (JNum 2) (JNum 1) "active" (JNum 0) 14)).
  - reflexivity.
  - vm_compute. reflexivity.
  - discriminate.
Defined.

(** ** Passing (C6) *)

(** The next player is the other of the two players. *)
Lemma nextTurnPlayerId_other (game : Game) :
  (current_turn game = player1_id game -> nextTurnPlayerId game = player2_id game)
  /\ (current_turn game <> player1_id game -> nextTurnPlayerId game = player1_id game).
Proof.
  unfold nextTurnPlayerId, strict_eq. split; intros H.
  - by rewrite bool_decide_true.
  - by rewrite bool_decide_false.
Qed.

(** C6, the claim fails: with 14 tiles in the pile, the pass of the
    current-turn player is not rejected; it is answered with success and
    the turn goes to the other player. *)
Lemma pass_with_full_pile_succeeds :
  find_game "g" Scenario.started_db
    = Some (mkGame 1 "g" (JNum 1) (JNum 2) (JNum 1) "active" (JNum 0) 14)
  /\ length (filter (fun t => tile_gameID t = 1 /\ location t = "boneyard")
                    (GameTiles Scenario.started_db)) = 14%nat
  /\ (pass_route (JNum 1) "g" Scenario.started_db).2 = PassOk (JNum 2)
  /\ find_game "g" (pass_route (JNum 1) "g" Scenario.started_db).1
    = Some (mkGame 1 "g" (JNum 1) (JNum 2) (JNum 2) "active" (JNum 0) 14).
Proof. vm_compute. repeat split. Qed.

(** C6 as amended.  A pass request of the current-turn player succeeds
    whatever the number of tiles in the pile: it records the move, gives
    the turn to the other player and touches no tile; the code has no
    'must draw first' rejection. *)
Theorem pass_always_gives_turn_to_other_player (db : DB) (userId : jsval)
    (gameUuid : string) (game : Game) :
  truthy userId = true ->
  find_game gameUuid db = Some game ->
  current_turn game = userId ->
  let next := nextTurnPlayerId game in
  (pass_route userId gameUuid db).2 = PassOk next
  /\ find_game gameUuid (pass_route userId gameUuid db).1 = Some (set_current_turn next game)
  /\ GameTiles (pass_route userId gameUuid db).1 = GameTiles db
  /\ GameMoves (pass_route userId gameUuid db).1
     = (GameMoves db ++ [mkMove (gameID game) userId "pass" None None None])%list
  /\ (userId = player1_id game -> next = player2_id game)
  /\ (userId <> player1_id game -> next = player1_id game).
Proof.
  intros Hauth Hfind Hturn next.
  unfold pass_route. rewrite Hauth, Hfind. cbn [negb].
  unfold strict_ne, strict_eq. rewrite bool_decide_true by assumption. cbn [negb].
  cbn [fst snd]. split; [reflexivity|]. split.
  - unfold with_games, insert_move. cbn [Games GameTiles GameMoves next_gameID next_titleID].
    by apply find_game_set_turn.
  - split; [reflexivity|]. split; [reflexivity|]. subst userId.
    destruct (nextTurnPlayerId_other game) as [H1 H2]. split; assumption.
Qed.

Lemma pass_always_gives_turn_to_other_player_witness :
  (pass_route (JNum 1) "g" Scenario.started_db).2 = PassOk (JNum 2)
  /\ find_game "g" (pass_route (JNum 1) "g" Scenario.started_db).1
     = Some (mkGame 1 "g" (JNum 1) (JNum 2) (JNum 2) "active" (JNum 0) 14).
Proof.
  pose proof (pass_always_gives_turn_to_other_player Scenario.started_db (JNum 1) "g"
                (mkGame 1 "g" (JNum 1) (JNum 2) (JNum 1) "active" (JNum 0) 14)) as H.
  destruct H as (H1 & H2 & _).
  - reflexivity.
  - vm_compute. reflexivity.
  - reflexivity.
  - split; [exact H1 | exact H2].
Defined.

(** ** Placing a tile (C1) *)

Lemma single_of_length_1 {A} (l : list A) : length l = 1%nat -> exists x, single l = Some x.
Proof. destruct l as [|x [|y l]]; simpl; intros H; try discriminate. by exists x. Qed.

(** No row carries a key that is not among the keys of the table. *)
Lemma filter_key_absent (l : list GameTile) (n g : Z) :
  ~ In n (map titleID l) ->
  filter (fun x => JNum (titleID x) = JNum n /\ tile_gameID x = g) l = [].
Proof.
  induction l as [|x l IH]; intros Hn; [reflexivity|].
  cbn [map] in Hn. rewrite filter_cons_False.
  - apply IH. intros Hin. apply Hn. by right.
  - intros [Hk _]. apply Hn. left. congruence.
Qed.

(** [titleID] is the primary key of GameTiles: a key selects its row only. *)
Lemma filter_key_unique (l : list GameTile) (t : GameTile) (g : Z) :
  NoDup (map titleID l) -> t ∈ l -> tile_gameID t = g ->
  filter (fun x => JNum (titleID x) = JNum (titleID t) /\ tile_gameID x = g) l = [t].
Proof.
  induction l as [|x l IH]; intros Hnd Hin Hg.
  - by apply elem_of_nil in Hin.
  - cbn [map] in Hnd. apply NoDup_cons in Hnd as [Hx Hnd].
    apply elem_of_cons in Hin as [->|Hin].
    + rewrite filter_cons_True by done.
      rewrite filter_key_absent; [reflexivity|].
      intros Hin. apply Hx. by apply list_elem_of_In.
    + rewrite filter_cons_False.
      * by apply IH.
      * intros [Hk _]. apply Hx. apply list_elem_of_In, in_map_iff.
        exists t. split; [congruence | by apply list_elem_of_In].
Qed.

(** Shifting the board moves no row in or out of a selection by key. *)
Lemma shift_keeps_selection (k : jsval) (g gid : Z) (ts : list GameTile) :
  length (filter (fun x => JNum (titleID x) = k /\ tile_gameID x = g)
                 (shift_board_right gid ts))
  = length (filter (fun x => JNum (titleID x) = k /\ tile_gameID x = g) ts).
Proof.
  unfold shift_board_right.
  generalize (order_by_position
                (filter (fun t => tile_gameID t = gid /\ location t = "board") ts)).
  intros ex. revert ts. induction ex as [|e ex IH]; intros ts; [reflexivity|].
  cbn [fold_left]. rewrite IH.
  rewrite (filter_update_where _ (fun x => JNum (titleID x) = k /\ tile_gameID x = g))
    by (intros x; reflexivity).
  apply update_where_length.
Qed.

(** The play route makes no placement check: for the current-turn player
    and a tile of that player's hand it answers with success, whatever the
    pips of the tile, the side and the ends of the chain. *)
Lemma play_route_accepts (db : DB) (userId : jsval) (gameUuid : string) (game : Game)
    (b : PlayBody) (row : GameTile) :
  truthy userId = true ->
  find_game gameUuid db = Some game ->
  current_turn game = userId ->
  NoDup (map titleID (GameTiles db)) ->
  single (filter (fun t => JNum (titleID t) = tileId b /\ tile_gameID t = gameID game
                           /\ location t = (if strict_eq (current_turn game) (player1_id game)
                                            then "player1_hand" else "player2_hand"))
                 (GameTiles db)) = Some row ->
  exists db' tile,
    play_route userId gameUuid b db = (db', PlayOk tile (nextTurnPlayerId game))
    /\ location tile = "board"
    /\ Games db' = update_where (fun g => gameID g = gameID game)
                                (set_current_turn (nextTurnPlayerId game)) (Games db).
Proof.
  intros Hauth Hfind Hturn Hnd Hrow.
  unfold play_route. rewrite Hauth, Hfind. cbn [negb].
  unfold strict_ne. replace (strict_eq (current_turn game) userId) with true
    by (symmetry; unfold strict_eq; by apply bool_decide_eq_true).
  cbn [negb]. rewrite Hrow.
  apply single_Some in Hrow.
  assert (Hin : row ∈ filter (fun t => JNum (titleID t) = tileId b
                 /\ tile_gameID t = gameID game
                 /\ location t = (if strict_eq (current_turn game) (player1_id game)
                                  then "player1_hand" else "player2_hand"))
                 (GameTiles db)).
  { rewrite Hrow. by apply list_elem_of_singleton. }
  apply list_elem_of_filter in Hin as [(Hk & Hg & _) Hin].
  set (ts1 := if bool_decide (side b = "left") && Z.eqb (boardPosition b) 0
              then shift_board_right (gameID game) (GameTiles db) else GameTiles db).
  assert (Hlen : length (filter (fun t => JNum (titleID t) = tileId b
                                          /\ tile_gameID t = gameID game) ts1) = 1%nat).
  { assert (H0 : length (filter (fun t => JNum (titleID t) = tileId b
                                   /\ tile_gameID t = gameID game) (GameTiles db)) = 1%nat).
    { rewrite <- Hk. by rewrite (filter_key_unique _ row). }
    subst ts1. destruct (bool_decide (side b = "left") && Z.eqb (boardPosition b) 0);
      [by rewrite shift_keeps_selection | exact H0]. }
  destruct (single_of_length_1 _ Hlen) as [r Hr]. rewrite Hr.
  eexists _, _. split; [reflexivity|]. split; [|reflexivity].
  unfold apply_updateData. destruct (topValue b), (bottomValue b); reflexivity.
Qed.

Section Placement.
Import GameBoard.

Lemma chain_ends (x : Tile) (chain : list Tile) :
  exists r, leftEnd (x :: chain) = Some (top x) /\ rightEnd (x :: chain) = Some r.
Proof.
  unfold leftEnd, rightEnd. cbn [head fmap option_fmap option_map].
  destruct (last (x :: chain)) as [y|] eqn:E.
  - exists (bottom y). split; reflexivity.
  - apply last_None in E. discriminate.
Qed.

(** The orientation step lays the tile exactly when the placement is legal. *)
Lemma orient_legal (chain : list Tile) (tile : Tile) (side : string) :
  is_Some (orient chain tile side) <-> legal_placement chain tile side.
Proof.
  unfold legal_placement, open_end. destruct chain as [|x chain].
  - split; [by left | intros _; by eexists].
  - destruct (chain_ends x chain) as (r & Hl & Hr).
    unfold orient. rewrite Hl, Hr.
    destruct (bool_decide (side = "left")).
    + destruct (Z.eqb_spec (bottom tile) (top x)) as [E1|E1].
      { split; [intros _; right; exists (top x); by auto | intros _; by eexists]. }
      destruct (Z.eqb_spec (top tile) (top x)) as [E2|E2].
      { split; [intros _; right; exists (top x); by auto | intros _; by eexists]. }
      split; [intros [? ?]; discriminate|].
      intros [?|(e & He & [?|?])]; [discriminate| |]; congruence.
    + destruct (Z.eqb_spec (top tile) r) as [E1|E1].
      { split; [intros _; right; exists r; by auto | intros _; by eexists]. }
      destruct (Z.eqb_spec (bottom tile) r) as [E2|E2].
      { split; [intros _; right; exists r; by auto | intros _; by eexists]. }
      split; [intros [? ?]; discriminate|].
      intros [?|(e & He & [?|?])]; [discriminate| |]; congruence.
Qed.

(** A tile that is laid on a non-empty chain keeps its two pips, covers the
    open end it is laid on and exposes its other pip there. *)
Lemma orient_new_end (chain : list Tile) (tile newTile : Tile) (side : string)
    (pos e : Z) (chain' : list Tile) :
  orient chain tile side = Some (newTile, pos, chain') ->
  open_end side chain = Some e ->
  open_end side chain' = Some (other_pip tile e)
  /\ (newTile = keep tile \/ newTile = flip tile).
Proof.
  unfold open_end, other_pip. destruct chain as [|x chain].
  - destruct (bool_decide (side = "left")); discriminate.
  - destruct (chain_ends x chain) as (r & Hl & Hr).
    unfold orient. rewrite Hl, Hr.
    destruct (bool_decide (side = "left")).
    + intros H [= <-].
      destruct (Z.eqb_spec (bottom tile) (top x)) as [E1|E1].
      { injection H as <- <- <-. split; [|by left].
        cbn. destruct (Z.eqb_spec (top tile) (top x)); congruence. }
      destruct (Z.eqb_spec (top tile) (top x)) as [E2|E2]; [|discriminate].
      injection H as <- <- <-. split; [|by right]. reflexivity.
    + intros H [= <-].
      destruct (Z.eqb_spec (top tile) r) as [E1|E1].
      { injection H as <- <- <-. split; [|by left].
        unfold rightEnd. by rewrite app_comm_cons, last_snoc. }
      destruct (Z.eqb_spec (bottom tile) r) as [E2|E2]; [|discriminate].
      injection H as <- <- <-. split; [|by right].
      unfold rightEnd. by rewrite app_comm_cons, last_snoc.
Qed.

(** A legal placement passes the first test of [playTile]. *)
Lemma legal_canPlayTile (chain : list Tile) (tile : Tile) (side : string) :
  legal_placement chain tile side -> canPlayTile chain tile = true.
Proof.
  unfold legal_placement, open_end, canPlayTile. intros [->|(e & He & Hm)]; [reflexivity|].
  destruct (leftEnd chain) as [l|]; [|reflexivity].
  destruct (rightEnd chain) as [r|]; [|reflexivity].
  destruct (bool_decide (side = "left")); injection He as <-;
    destruct Hm as [<-|<-]; rewrite ?Z.eqb_refl, ?orb_true_r; reflexivity.
Qed.

End Placement.

Section ClientPlay.
Import GameBoard.

(** [endGame] called with the component's own user: the end route sets the
    row and the component keeps its chain. *)
Lemma endGame_own (c : Component) (db : DB) :
  truthy (currentUser_id c) = true ->
  exists c2, endGame (currentUser_id c) c db
             = (c2, force_end (gameId c) (currentUser_id c) db,
                [end_game (gameId c) (currentUser_id c)])
             /\ boardChain c2 = boardChain c /\ playerHand c2 = playerHand c.
Proof.
  intros Hauth. unfold endGame, end_route. rewrite Hauth. cbn [negb].
  eexists. split; [reflexivity|]. split; reflexivity.
Qed.

(** C1, the claim fails on the play route: Bob's tile [2|2] is accepted on
    the right of the chain [1|1], whose open ends are both 1. *)
Lemma play_route_accepts_mismatch :
  let db1 := Scenario.opened_db in
  map (fun t => (top_value t, bottom_value t)) (board_rows 1 db1) = [(1, 1)]
  /\ in_hand_of_turn (mkGame 1 "g" (JNum 1) (JNum 2) (JNum 2) "active" (JNum 0) 14)
                     (JNum 13) db1
     = Some (mkTile 13 1 2 2 "player2_hand" (-1))
  /\ (play_route (JNum 2) "g" (Scenario.body 13 "right" 1) db1).2
     = PlayOk (mkTile 13 1 2 2 "board" 1) (JNum 1)
  /\ map (fun t => (top_value t, bottom_value t))
         (board_rows 1 (play_route (JNum 2) "g" (Scenario.body 13 "right" 1) db1).1)
     = [(1, 1); (2, 2)].
Proof. vm_compute. repeat split. Qed.

(** C1 as amended.  For the current-turn player and a tile of that player's
    hand, the play route succeeds whatever the pips, the side and the open
    ends: it has no placement check and no 'illegal placement' answer.  The
    placement rule is applied by the client's [playTile] before the request
    is made: if the placement is not legal it only shows a message (no
    request, no socket message, chain and hand untouched); if it is legal
    the move is sent, and on a non-empty chain the new open end of the
    chosen side is the other pip of the tile. *)
Theorem placement_rule_is_applied_by_the_client (c : Component) (db : DB) (tile : Tile)
    (side : string) (game : Game) (row : GameTile) :
  isMyTurn c = true ->
  truthy (id tile) = true ->
  truthy (currentUser_id c) = true ->
  find_game (gameId c) db = Some game ->
  current_turn game = currentUser_id c ->
  NoDup (map titleID (GameTiles db)) ->
  in_hand_of_turn game (id tile) db = Some row ->
  (forall s pos tv bv, exists db' t,
      play_route (currentUser_id c) (gameId c) (mkPlayBody (id tile) s pos tv bv) db
      = (db', PlayOk t (nextTurnPlayerId game)) /\ location t = "board")
  /\ (~ legal_placement (boardChain c) tile side ->
      exists m, playTile tile side c db = (set_message m c, db, []))
  /\ (legal_placement (boardChain c) tile side ->
      (exists newTile pos,
          In (play_tile (gameId c) newTile side pos) (playTile tile side c db).2)
      /\ forall e, open_end side (boardChain c) = Some e ->
           open_end side (boardChain (playTile tile side c db).1.1)
           = Some (other_pip tile e)).
Proof.
  intros Hmy Hid Hauth Hfind Hturn Hnd Hrow.
  assert (Hroute : forall s pos tv bv, exists db' t,
      play_route (currentUser_id c) (gameId c) (mkPlayBody (id tile) s pos tv bv) db
      = (db', PlayOk t (nextTurnPlayerId game)) /\ location t = "board").
  { intros s pos tv bv.
    destruct (play_route_accepts db (currentUser_id c) (gameId c) game
                (mkPlayBody (id tile) s pos tv bv) row Hauth Hfind Hturn Hnd Hrow)
      as (db' & t & H1 & H2 & _).
    by exists db', t. }
  split; [exact Hroute|]. split.
  - intros Hillegal. unfold playTile. rewrite Hmy. cbn [negb].
    destruct (canPlayTile (boardChain c) tile); cbn [negb]; [|by eexists].
    rewrite Hid. cbn [negb].
    destruct (orient (boardChain c) tile side) as [p|] eqn:E; [|by eexists].
    exfalso. apply Hillegal, orient_legal. by rewrite E.
  - intros Hlegal.
    assert (Hplay : exists newTile pos chain' c' db' out,
      orient (boardChain c) tile side = Some (newTile, pos, chain')
      /\ playTile tile side c db = (c', db', out)
      /\ In (play_tile (gameId c) newTile side pos) out
      /\ boardChain c' = chain').
    { unfold playTile. rewrite Hmy. cbn [negb].
      rewrite (legal_canPlayTile _ _ _ Hlegal). cbn [negb]. rewrite Hid. cbn [negb].
      apply orient_legal in Hlegal as [[[newTile pos] chain'] E]. rewrite E.
      destruct (Hroute side pos (Some (top newTile)) (Some (bottom newTile)))
        as (db' & t & Hr & _).
      rewrite Hr. exists newTile, pos, chain'.
      destruct (bool_decide (filter (fun t0 => id t0 <> id tile) (playerHand c) = [])).
      - match goal with |- context [endGame _ ?c1 ?d] =>
          destruct (endGame_own c1 d Hauth) as (c2 & He & Hb & _) end.
        cbn [currentUser_id gameId] in He. rewrite He.
        eexists _, _, _. split; [reflexivity|]. split; [reflexivity|].
        split; [by left | exact Hb].
      - eexists _, _, _. split; [reflexivity|]. split; [reflexivity|].
        split; [by left | reflexivity]. }
    destruct Hplay as (newTile & pos & chain' & c' & db' & out & E & Hp & Hin & Hb).
    rewrite Hp. cbn [fst snd]. split; [by exists newTile, pos|].
    intros e He. rewrite Hb.
    by destruct (orient_new_end _ _ _ _ _ _ _ E He).
Qed.
End ClientPlay.

Section ClientWin.
Import GameBoard.

Lemma keys_distinct_by_evaluation (db : DB) :
  bool_decide (NoDup (map titleID (GameTiles db))) = true ->
  NoDup (map titleID (GameTiles db)).
Proof. apply bool_decide_eq_true_1. Qed.

Lemma placement_rule_is_applied_by_the_client_witness :
  open_end "right" (boardChain Scenario.bob_view) = Some 1
  /\ open_end "right"
       (boardChain (playTile (mkCTile (JNum 8) 1 2) "right"
                             Scenario.bob_view Scenario.opened_db).1.1) = Some 2.
Proof.
  split; [reflexivity|].
  pose proof (placement_rule_is_applied_by_the_client Scenario.bob_view Scenario.opened_db
                (mkCTile (JNum 8) 1 2) "right"
                (mkGame 1 "g" (JNum 1) (JNum 2) (JNum 2) "active" (JNum 0) 14)
                (mkTile 8 1 1 2 "player2_hand" (-1))) as H.
  destruct H as (_ & _ & H).
  - reflexivity.
  - reflexivity.
  - reflexivity.
  - vm_compute. reflexivity.
  - reflexivity.
  - apply keys_distinct_by_evaluation. vm_compute. reflexivity.
  - vm_compute. reflexivity.
  - destruct H as [_ H].
    + right. exists 1. split; [reflexivity|]. left. reflexivity.
    + apply (H 1). reflexivity.
Defined.

Lemma find_game_after_turn (u : string) (db db' : DB) (game : Game) (v : jsval) :
  Games db' = update_where (fun g => gameID g = gameID game) (set_current_turn v) (Games db) ->
  find_game u db = Some game ->
  find_game u db' = Some (set_current_turn v game).
Proof.
  intros HG H.
  rewrite <- (find_game_set_turn u db game v (GameTiles db') (GameMoves db')
                (next_gameID db') (next_titleID db') H).
  unfold find_game. cbn [Games]. by rewrite HG.
Qed.

Lemma find_game_force_end (u : string) (w : jsval) (db : DB) (game : Game) :
  find_game u db = Some game ->
  find_game u (force_end u w db) = Some (set_completed w game).
Proof.
  intros H. pose proof (find_game_uuid _ _ _ H) as Hu.
  apply find_game_rows in H. unfold find_game, force_end, with_games. cbn [Games].
  rewrite (filter_update_where _ (fun g => game_uuid g = u)) by (intros x; reflexivity).
  rewrite H. unfold update_where. cbn [map].
  rewrite decide_True by assumption. reflexivity.
Qed.

(** C2, the claim fails on the play route: Alice plays her last tile; the
    answer is a success, her hand is empty, and the game is still active
    with the placeholder winner 0 and the turn given to Bob. *)
Lemma play_route_of_last_tile_keeps_game_active :
  let b := mkPlayBody (JNum 1) "right" 6 (Some 1) (Some 0) in
  let db' := (play_route (JNum 1) "g" b Scenario.last_tile_db).1 in
  (play_route (JNum 1) "g" b Scenario.last_tile_db).2
    = PlayOk (mkTile 1 1 1 0 "board" 6) (JNum 2)
  /\ filter (fun t => tile_gameID t = 1 /\ location t = "player1_hand") (GameTiles db') = []
  /\ find_game "g" db'
     = Some (mkGame 1 "g" (JNum 1) (JNum 2) (JNum 2) "active" (JNum 0) 14).
Proof. vm_compute. repeat split. Qed.

(** C2 as amended.  The play route never ends a game: it leaves status and
    winner as they are and always gives the turn to the other player.  The
    win is detected by the client: when [playTile] has sent a legal move
    that empties the hand it holds, it calls the end route with its own
    user, which sets the status to completed and the winner to the acting
    player; the turn has been switched by the play route before, so the
    win check does not take precedence over the turn switch. *)
Theorem win_is_recorded_after_the_turn_switch (c : Component) (db : DB) (tile : Tile)
    (side : string) (game : Game) (row : GameTile) :
  isMyTurn c = true ->
  truthy (id tile) = true ->
  truthy (currentUser_id c) = true ->
  find_game (gameId c) db = Some game ->
  current_turn game = currentUser_id c ->
  NoDup (map titleID (GameTiles db)) ->
  in_hand_of_turn game (id tile) db = Some row ->
  legal_placement (boardChain c) tile side ->
  filter (fun t => id t <> id tile) (playerHand c) = [] ->
  let next := nextTurnPlayerId game in
  (forall s pos tv bv, exists g1,
      find_game (gameId c)
        (play_route (currentUser_id c) (gameId c) (mkPlayBody (id tile) s pos tv bv) db).1
      = Some g1
      /\ status g1 = status game /\ winner_id g1 = winner_id game
      /\ current_turn g1 = next)
  /\ (exists g2,
      find_game (gameId c) (playTile tile side c db).1.2 = Some g2
      /\ status g2 = "completed" /\ winner_id g2 = currentUser_id c
      /\ current_turn g2 = next)
  /\ In (end_game (gameId c) (currentUser_id c)) (playTile tile side c db).2
  /\ playerHand (playTile tile side c db).1.1 = [].
Proof.
  intros Hmy Hid Hauth Hfind Hturn Hnd Hrow Hlegal Hempty next.
  assert (Hroute : forall s pos tv bv, exists db' t,
      play_route (currentUser_id c) (gameId c) (mkPlayBody (id tile) s pos tv bv) db
      = (db', PlayOk t next)
      /\ find_game (gameId c) db' = Some (set_current_turn next game)).
  { intros s pos tv bv.
    destruct (play_route_accepts db (currentUser_id c) (gameId c) game
                (mkPlayBody (id tile) s pos tv bv) row Hauth Hfind Hturn Hnd Hrow)
      as (db' & t & H1 & _ & H3).
    exists db', t. split; [exact H1|]. by apply (find_game_after_turn _ db). }
  split.
  { intros s pos tv bv. destruct (Hroute s pos tv bv) as (db' & t & Hr & Hg).
    rewrite Hr. cbn [fst]. eexists. split; [exact Hg|]. repeat split. }
  unfold playTile. rewrite Hmy. cbn [negb].
  rewrite (legal_canPlayTile _ _ _ Hlegal). cbn [negb]. rewrite Hid. cbn [negb].
  apply orient_legal in Hlegal as [[[newTile pos] chain'] E]. rewrite E.
  destruct (Hroute side pos (Some (top newTile)) (Some (bottom newTile)))
    as (db' & t & Hr & Hg).
  rewrite Hr, Hempty. rewrite bool_decide_true by reflexivity.
  match goal with |- context [endGame _ ?c1 ?d] =>
    destruct (endGame_own c1 d Hauth) as (c2 & He & _ & Hh) end.
  cbn [currentUser_id gameId playerHand] in He, Hh. rewrite He. cbn [fst snd].
  split; [|split; [right; by left | exact Hh]].
  eexists. split; [by apply find_game_force_end|].
  cbn [set_completed status winner_id current_turn set_current_turn].
  split; [reflexivity|]. split; [|reflexivity].
  rewrite bool_decide_false; [reflexivity|].
  intros Hu. rewrite Hu in Hauth. discriminate.
Qed.

Lemma win_is_recorded_after_the_turn_switch_witness :
  exists g2,
    find_game "g" (playTile (mkCTile (JNum 1) 0 1) "right"
                            Scenario.alice_view Scenario.last_tile_db).1.2 = Some g2
    /\ status g2 = "completed" /\ winner_id g2 = JNum 1 /\ current_turn g2 = JNum 2.
Proof.
  pose proof (win_is_recorded_after_the_turn_switch Scenario.alice_view
                Scenario.last_tile_db (mkCTile (JNum 1) 0 1) "right"
                (mkGame 1 "g" (JNum 1) (JNum 2) (JNum 1) "active" (JNum 0) 14)
                (mkTile 1 1 0 1 "player1_hand" (-1))) as H.
  destruct H as (_ & H & _).
  - reflexivity.
  - reflexivity.
  - reflexivity.
  - vm_compute. reflexivity.
  - reflexivity.
  - apply keys_distinct_by_evaluation. vm_compute. reflexivity.
  - vm_compute. reflexivity.
  - right. exists 1. split; [reflexivity|]. right. reflexivity.
  - reflexivity.
  - exact H.
Defined.

End ClientWin.

(** ** Challenges (C5, C7, C9, C10) *)

Section Challenges.
Import ChallengeHandler.

Lemma swap_length {A} (set : list A) (i j : nat) : length (swap set i j) = length set.
Proof.
  unfold swap. destruct (set !! i), (set !! j); try reflexivity.
  by rewrite !length_insert.
Qed.

Lemma shuffle_loop_length {A} (random : nat -> nat) (i : nat) (set : list A) :
  length (shuffle_loop random i set) = length set.
Proof.
  revert set. induction i as [|i IH]; intros set; [reflexivity|].
  cbn [shuffle_loop]. rewrite IH. apply swap_length.
Qed.

(** Whatever the random source, the shuffled set has 28 tiles. *)
Lemma generateAndShuffleDominoes_length (random : nat -> nat) :
  length (generateAndShuffleDominoes random) = 28%nat.
Proof. unfold generateAndShuffleDominoes. by rewrite shuffle_loop_length. Qed.

(** One accept-challenge handled from its check to its end with no other
    accept in between: it adds one game row, with the challenger as
    player 1 and as the player whose turn it is, and 28 tile rows of that
    game: 7 in player 1's hand, 7 in player 2's hand and 14 in the
    boneyard. *)
Theorem accepted_challenge_deals_7_7_14 (st : State) (db : DB) (sid cid : string)
    (random : nat -> nat) (gameUuid : string) (ch : Challenge) :
  activeChallenges st !! cid = Some ch ->
  let db' := (accept_challenge sid cid random gameUuid st db).1.2 in
  exists new,
    Games db' = (Games db ++ [mkGame (next_gameID db) gameUuid (challengerId ch) (targetId ch)
                                     (challengerId ch) "active" (JNum 0) 14])%list
    /\ GameTiles db' = (GameTiles db ++ new)%list
    /\ Forall (fun t => tile_gameID t = next_gameID db) new
    /\ length new = 28%nat
    /\ count_at "player1_hand" new = 7%nat
    /\ count_at "player2_hand" new = 7%nat
    /\ count_at "boneyard" new = 14%nat.
Proof.
  intros Hch db'. subst db'. unfold accept_challenge. rewrite Hch.
  pose proof (generateAndShuffleDominoes_length random) as Hlen.
  destruct (generateAndShuffleDominoes random) as [|a l]; [discriminate|].
  do 27 (destruct l as [|? l]; [discriminate|]).
  destruct l; [|discriminate].
  eexists. cbn. split; [reflexivity|]. split; [reflexivity|].
  split; [repeat constructor|]. repeat split.
Qed.

Lemma accepted_challenge_deals_7_7_14_witness :
  exists new,
    Games Scenario.started_db
      = [mkGame 1 "g" (JNum 1) (JNum 2) (JNum 1) "active" (JNum 0) 14]
    /\ GameTiles Scenario.started_db = new
    /\ Forall (fun t => tile_gameID t = 1) new
    /\ length new = 28%nat
    /\ count_at "player1_hand" new = 7%nat
    /\ count_at "player2_hand" new = 7%nat
    /\ count_at "boneyard" new = 14%nat.
Proof.
  destruct (accepted_challenge_deals_7_7_14 Scenario.challenged empty_db "sB" "1-2-1000"
              (fun _ => 0%nat) "g"
              (mkChallenge "1-2-1000" (JNum 1) (JStr "alice") (JStr "Alice")
                           (JNum 2) (JStr "bob") 1000))
    as (new & H).
  - vm_compute. reflexivity.
  - exists new. exact H.
Defined.

(** Overwriting the slot that holds [y] by [a] and putting [y] in front
    rearranges [a :: l]. *)
Lemma insert_cons_perm {A} (l : list A) (j : nat) (a y : A) :
  l !! j = Some y -> y :: <[j := a]> l ≡ₚ a :: l.
Proof.
  revert j. induction l as [|b l IH]; intros [|j] H; try discriminate.
  - injection H as ->. cbn. apply perm_swap.
  - cbn in H. cbn [list_insert insert].
    change (<[S j := a]> (b :: l)) with (b :: <[j := a]> l).
    rewrite (perm_swap b y). rewrite (IH j H). apply perm_swap.
Qed.

Lemma swap_perm {A} (set : list A) (i j : nat) : swap set i j ≡ₚ set.
Proof.
  unfold swap. destruct (set !! i) as [x|] eqn:Hi; [|reflexivity].
  destruct (set !! j) as [y|] eqn:Hj; [|reflexivity].
  revert i j Hi Hj. induction set as [|a l IH]; intros i j Hi Hj; [discriminate|].
  destruct i as [|i], j as [|j].
  - cbn in Hi, Hj. injection Hi as ->. injection Hj as ->. reflexivity.
  - cbn in Hi, Hj. injection Hi as ->.
    change (<[S j := x]> (<[0%nat := y]> (x :: l))) with (y :: <[j := x]> l).
    by apply insert_cons_perm.
  - cbn in Hi, Hj. injection Hj as ->.
    change (<[0%nat := x]> (<[S i := y]> (y :: l))) with (x :: <[i := y]> l).
    by apply insert_cons_perm.
  - cbn in Hi, Hj.
    change (<[S j := x]> (<[S i := y]> (a :: l))) with (a :: <[j := x]> (<[i := y]> l)).
    by rewrite (IH i j).
Qed.

Lemma shuffle_loop_perm {A} (random : nat -> nat) (i : nat) (set : list A) :
  shuffle_loop random i set ≡ₚ set.
Proof.
  revert set. induction i as [|i IH]; intros set; [reflexivity|].
  cbn [shuffle_loop]. rewrite IH. apply swap_perm.
Qed.

(** Whatever the random source, the tiles dealt are the 28 tiles of the
    double-six set, each once. *)
Lemma generateAndShuffleDominoes_perm (random : nat -> nat) :
  generateAndShuffleDominoes random ≡ₚ domino_set /\ NoDup domino_set.
Proof.
  split; [apply shuffle_loop_perm|].
  apply (bool_decide_eq_true_1 (NoDup domino_set)). vm_compute. reflexivity.
Qed.

(** C5, what the code does: the challenge is stored before the target is
    looked up and the branch that reports 'User is not online' does not
    remove it, so an offer to an unreachable target leaves a pending
    challenge behind.  The error goes to the offering socket only. *)
Theorem unreachable_offer_is_stored (Number : jsval -> option jsval) (st : State)
    (sid : string) (o : Offer) (now : Z) :
  slot_truthy (lookup_target Number (userSocketMap st) (of_targetId o)) = false ->
  let cid := to_string (of_challengerId o) ++ "-" ++ to_string (of_targetId o)
             ++ "-" ++ pretty now in
  (send_challenge Number sid o now st).2
    = [(ToSocket sid, challenge_error "User is not online")]
  /\ activeChallenges (send_challenge Number sid o now st).1 !! cid
     = Some (mkChallenge cid (of_challengerId o) (of_challengerName o)
                         (of_challengerDisplayName o) (of_targetId o)
                         (of_targetName o) now).
Proof.
  intros Hno cid. unfold send_challenge. cbn [userSocketMap]. rewrite Hno.
  cbn [fst snd activeChallenges]. split; [reflexivity|].
  apply lookup_insert_eq.
Qed.

Lemma unreachable_offer_is_stored_witness :
  activeChallenges Scenario.lobby !! "1-9-1000" = None
  /\ (send_challenge Scenario.number_of "sA" Scenario.offer_to_nobody 1000 Scenario.lobby).2
     = [(ToSocket "sA", challenge_error "User is not online")]
  /\ activeChallenges
       (send_challenge Scenario.number_of "sA" Scenario.offer_to_nobody 1000
                       Scenario.lobby).1 !! "1-9-1000"
     = Some (mkChallenge "1-9-1000" (JNum 1) (JStr "alice") (JStr "Alice")
                         (JNum 9) (JStr "dave") 1000).
Proof.
  split; [vm_compute; reflexivity|].
  apply (unreachable_offer_is_stored Scenario.number_of Scenario.lobby "sA"
           Scenario.offer_to_nobody 1000).
  vm_compute. reflexivity.
Defined.

(** C9, what the code does: the disconnect handler deletes the entry of
    [socket.userId] without comparing the stored socket id with the id of
    the socket that disconnects, so the user of the socket has no entry
    afterwards, whichever socket the entry pointed to. *)
Theorem disconnect_removes_mapping_of_any_socket (st : State) (sid : string) :
  truthy (socket_userId st sid) = true ->
  userSocketMap (disconnect sid st) !! socket_userId st sid = None.
Proof.
  intros Hu. unfold disconnect. rewrite Hu. cbn [userSocketMap].
  apply lookup_delete_eq.
Qed.

Lemma disconnect_removes_mapping_of_any_socket_witness :
  userSocketMap Scenario.reconnected !! JNum 1 = Some "sA2"
  /\ userSocketMap (disconnect "sA" Scenario.reconnected) !! JNum 1 = None.
Proof.
  split; [vm_compute; reflexivity|].
  apply (disconnect_removes_mapping_of_any_socket Scenario.reconnected "sA").
  vm_compute. reflexivity.
Defined.

(** C10, the claim fails for what is sent: accepted on Bob's socket the
    game-start payload names player 2 'Bob', accepted on Carol's socket it
    names player 2 'Carol'. *)
Lemma game_start_carries_acceptor_name :
  let by_bob := accept_challenge "sB" "1-2-1000" (fun _ => 0%nat) "g"
                                 Scenario.challenged empty_db in
  let by_carol := accept_challenge "sC" "1-2-1000" (fun _ => 0%nat) "g"
                                   Scenario.challenged empty_db in
  head by_bob.2
    = Some (ToSocket "sA",
            game_start (mkGameData "g" 1 (mkPlayer (JNum 1) (JStr "alice") (JStr "Alice"))
                                   (mkPlayer (JNum 2) (JStr "bob") (JStr "Bob"))))
  /\ head by_carol.2
    = Some (ToSocket "sA",
            game_start (mkGameData "g" 1 (mkPlayer (JNum 1) (JStr "alice") (JStr "Alice"))
                                   (mkPlayer (JNum 2) (JStr "bob") (JStr "Carol"))))
  /\ by_bob.2 <> by_carol.2.
Proof.
  cbv zeta. split; [vm_compute; reflexivity|]. split; [vm_compute; reflexivity|].
  intros H. apply (f_equal head) in H. vm_compute in H. discriminate.
Qed.

(** C10 as amended.  Accepting a stored challenge succeeds on whichever
    socket the event arrives: the challenge is consumed and one game
    between the challenger and the target is created, and the new state,
    the new store, the recipients and the messages are the same for any two
    accepting sockets, except for the display name of player 2 in the
    game-start payload, which is taken from the accepting socket. *)
Theorem accept_does_not_check_the_acceptor (st : State) (db : DB) (sid1 sid2 cid : string)
    (random : nat -> nat) (gameUuid : string) (ch : Challenge) :
  activeChallenges st !! cid = Some ch ->
  let r1 := accept_challenge sid1 cid random gameUuid st db in
  let r2 := accept_challenge sid2 cid random gameUuid st db in
  r1.1 = r2.1
  /\ map hide_player2_displayName r1.2 = map hide_player2_displayName r2.2
  /\ activeChallenges r1.1.1 !! cid = None
  /\ exists game, Games r1.1.2 = (Games db ++ [game])%list
                  /\ player1_id game = challengerId ch
                  /\ player2_id game = targetId ch.
Proof.
  intros Hch r1 r2. subst r1 r2. unfold accept_challenge. rewrite Hch.
  generalize (generateAndShuffleDominoes random). intros allTiles.
  cbn [insert_game fst snd]. unfold emit_if_connected.
  split; [reflexivity|]. split.
  - destruct (slot_truthy (userSocketMap st !! challengerId ch));
      destruct (slot_truthy (userSocketMap st !! targetId ch)); reflexivity.
  - split; [apply lookup_delete_eq|].
    eexists. cbn [insert_tiles Games]. split; [reflexivity|]. split; reflexivity.
Qed.

Lemma accept_does_not_check_the_acceptor_witness :
  (accept_challenge "sB" "1-2-1000" (fun _ => 0%nat) "g" Scenario.challenged empty_db).1
  = (accept_challenge "sC" "1-2-1000" (fun _ => 0%nat) "g" Scenario.challenged empty_db).1.
Proof.
  apply (accept_does_not_check_the_acceptor Scenario.challenged empty_db "sB" "sC"
           "1-2-1000" (fun _ => 0%nat) "g"
           (mkChallenge "1-2-1000" (JNum 1) (JStr "alice") (JStr "Alice")
                        (JNum 2) (JStr "bob") 1000)).
  vm_compute. reflexivity.
Defined.

End Challenges.

(** ** Disconnects during a game (C8) *)

Section Forfeit.
Import GameHandler.

(** One player drops and does not come back: when the timer has fired and
    the store has answered, the game is completed with the other player as
    winner, the remaining socket is told, and the game is off the table. *)
Example single_disconnect_forfeits :
  let r := run (Scenario.both_joined ++ [Disconnect "sA"; TimerFires 0; StoreAnswers 0])
               initial Scenario.started_db in
  find_game "g" r.1.2 = Some (mkGame 1 "g" (JNum 1) (JNum 2) (JNum 1) "completed" (JNum 2) 14)
  /\ r.2 = [(ToSockets {["sB"]}, opponent_disconnected);
            (ToAll, user_available (JNum 1)); (ToAll, user_available (JNum 2))]
  /\ activeGames r.1.1 = ∅ /\ armed r.1.1 = ∅.
Proof. vm_compute. repeat split. Qed.

(** The player joins again before the timer fires: the timer is disarmed,
    the store is as before and nothing is sent. *)
Example rejoin_cancels_forfeit :
  let r := run (Scenario.both_joined
                ++ [Disconnect "sA"; JoinGame "sA2" "g" (JNum 1); TimerFires 0])
               initial Scenario.started_db in
  r.1.2 = Scenario.started_db /\ r.2 = [] /\ armed r.1.1 = ∅
  /\ activeGames r.1.1 !! "g"
     = Some (mkLiveGame (Some "sA2") (JNum 1) (Some "sB") (JNum 2)).
Proof. vm_compute. repeat split. Qed.

(** A second timer that fires after the first callback has finished finds
    the game gone and does nothing. *)
Example later_timer_is_ignored :
  let r1 := run (Scenario.both_drop ++ [TimerFires 0; StoreAnswers 0])
                initial Scenario.started_db in
  let r2 := run (Scenario.both_drop ++ [TimerFires 0; StoreAnswers 0; TimerFires 1])
                initial Scenario.started_db in
  r2.1.2 = r1.1.2 /\ r2.2 = r1.2.
Proof. vm_compute. split; reflexivity. Qed.

(** C8, what the code does when the timers race: Alice's socket drops,
    then Bob's; both timers fire before the store has answered the first
    update.  The first callback writes completed with winner Bob, the
    second still finds the game on the table and writes completed with
    winner Alice, and the notification is emitted twice: the game is ended
    twice, and the winner that stays is the player who dropped first. *)
Theorem racing_timers_end_the_game_twice :
  find_game "g" (run (Scenario.both_drop ++ [TimerFires 0]) initial Scenario.started_db).1.2
    = Some (mkGame 1 "g" (JNum 1) (JNum 2) (JNum 1) "completed" (JNum 2) 14)
  /\ find_game "g" (run (Scenario.both_drop ++ [TimerFires 0; TimerFires 1])
                        initial Scenario.started_db).1.2
    = Some (mkGame 1 "g" (JNum 1) (JNum 2) (JNum 1) "completed" (JNum 1) 14)
  /\ find_game "g" (run Scenario.racing_timers initial Scenario.started_db).1.2
    = Some (mkGame 1 "g" (JNum 1) (JNum 2) (JNum 1) "completed" (JNum 1) 14)
  /\ (run Scenario.racing_timers initial Scenario.started_db).2
    = [(ToSockets ∅, opponent_disconnected);
       (ToAll, user_available (JNum 1)); (ToAll, user_available (JNum 2));
       (ToSockets ∅, opponent_disconnected);
       (ToAll, user_available (JNum 1)); (ToAll, user_available (JNum 2))].
Proof. vm_compute. repeat split. Qed.

End Forfeit.

(** ** Tile conservation (C3) *)

Section Conservation.

Lemma row_moved_refl (t : GameTile) : row_moved t t.
Proof. split; [reflexivity|]. split; [reflexivity | by left]. Qed.

Lemma rows_moved_refl (l : list GameTile) : rows_moved l l.
Proof. induction l; constructor; [apply row_moved_refl | assumption]. Qed.

Lemma rows_moved_trans (l1 l2 l3 : list GameTile) :
  rows_moved l1 l2 -> rows_moved l2 l3 -> rows_moved l1 l3.
Proof.
  unfold rows_moved. intros H12. revert l3.
  induction H12 as [|x y l1 l2 (Hk & Hg & Hl) _ IH]; intros l3 H23.
  - inversion H23. constructor.
  - inversion H23 as [|y' z l2' l3' (Hk' & Hg' & Hl') Hrest]; subst. constructor.
    + split; [congruence|]. split; [congruence|].
      destruct Hl' as [Hl'|Hl']; [|by right].
      destruct Hl as [Hl|Hl]; [left; congruence | right; by rewrite Hl'].
    + by apply IH.
Qed.

Lemma rows_moved_update_where (P : GameTile -> Prop) `{!forall x, Decision (P x)}
    (f : GameTile -> GameTile) (l : list GameTile) :
  (forall t, row_moved t (f t)) ->
  rows_moved l (update_where P f l).
Proof.
  intros Hf. unfold rows_moved, update_where. induction l as [|x l IH]; cbn [map].
  - constructor.
  - constructor; [|exact IH]. destruct (decide (P x)); [apply Hf | apply row_moved_refl].
Qed.

Lemma rows_moved_shift (gid : Z) (ts : list GameTile) :
  rows_moved ts (shift_board_right gid ts).
Proof.
  unfold shift_board_right.
  generalize (order_by_position
                (filter (fun t => tile_gameID t = gid /\ location t = "board") ts)).
  intros ex. revert ts. induction ex as [|e ex IH]; intros ts; cbn [fold_left].
  - apply rows_moved_refl.
  - eapply rows_moved_trans; [|apply IH].
    apply rows_moved_update_where. intros t.
    split; [reflexivity|]. split; [reflexivity | by left].
Qed.

Lemma board_is_a_location : "board" ∈ four_locations.
Proof. unfold four_locations. set_solver. Qed.

Lemma apply_updateData_moves (b : PlayBody) (t : GameTile) :
  row_moved t (apply_updateData b t).
Proof.
  unfold apply_updateData, row_moved.
  destruct (topValue b), (bottomValue b); (split; [reflexivity|]);
    (split; [reflexivity|]); right; apply board_is_a_location.
Qed.

Lemma moves_rows_refl (db : DB) : moves_rows db db.
Proof. split; [apply rows_moved_refl | split; reflexivity]. Qed.

(** An operation that leaves the tile table and the two counters alone. *)
Ltac tiles_untouched := split; [apply rows_moved_refl | split; reflexivity].

Lemma play_route_moves_rows (userId : jsval) (gameUuid : string) (b : PlayBody) (db : DB) :
  moves_rows db (play_route userId gameUuid b db).1.
Proof.
  unfold play_route.
  destruct (negb (truthy userId)); [apply moves_rows_refl|].
  destruct (find_game gameUuid db) as [game|]; [|apply moves_rows_refl].
  destruct (strict_ne (current_turn game) userId); [apply moves_rows_refl|].
  destruct (single (filter _ (GameTiles db))) as [tileToPlay|]; [|apply moves_rows_refl].
  assert (Hts1 : rows_moved (GameTiles db)
            (if bool_decide (side b = "left") && Z.eqb (boardPosition b) 0
             then shift_board_right (gameID game) (GameTiles db) else GameTiles db)).
  { destruct (bool_decide (side b = "left") && Z.eqb (boardPosition b) 0);
      [apply rows_moved_shift | apply rows_moved_refl]. }
  destruct (single (filter _ _)) as [row|]; cbn [fst].
  - split; [|split; reflexivity]. cbn [GameTiles with_games with_tiles insert_move].
    eapply rows_moved_trans; [exact Hts1|].
    apply rows_moved_update_where, apply_updateData_moves.
  - split; [exact Hts1 | split; reflexivity].
Qed.

Lemma draw_route_moves_rows (userId : jsval) (gameUuid : string) (playerLocation : string)
    (db : DB) :
  playerLocation ∈ four_locations ->
  moves_rows db (draw_route userId gameUuid playerLocation db).1.
Proof.
  intros Hloc. unfold draw_route.
  destruct (negb (truthy userId)); [apply moves_rows_refl|].
  destruct (find_game gameUuid db) as [game|]; [|apply moves_rows_refl].
  destruct (strict_ne (current_turn game) userId); [apply moves_rows_refl|].
  destruct (Z.leb (boneyard_count game) 0); [apply moves_rows_refl|].
  destruct (filter _ (GameTiles db)) as [|drawnTile rest]; [apply moves_rows_refl|].
  destruct (single (filter _ (GameTiles db))) as [row|]; [|apply moves_rows_refl].
  cbn [fst]. split; [|split; reflexivity].
  cbn [GameTiles with_games with_tiles insert_move].
  apply rows_moved_update_where. intros t.
  split; [reflexivity|]. split; [reflexivity | by right].
Qed.

Lemma pass_route_moves_rows (userId : jsval) (gameUuid : string) (db : DB) :
  moves_rows db (pass_route userId gameUuid db).1.
Proof.
  unfold pass_route.
  destruct (negb (truthy userId)); [apply moves_rows_refl|].
  destruct (find_game gameUuid db) as [game|]; [|apply moves_rows_refl].
  destruct (strict_ne (current_turn game) userId); tiles_untouched.
Qed.

Lemma force_end_moves_rows (u : string) (w : jsval) (db : DB) :
  moves_rows db (force_end u w db).
Proof. tiles_untouched. Qed.

Lemma end_route_moves_rows (userId : jsval) (gameUuid : string) (w : jsval) (db : DB) :
  moves_rows db (end_route userId gameUuid w db).1.
Proof. unfold end_route. destruct (negb (truthy userId)); tiles_untouched. Qed.

Lemma leave_game_moves_rows (st : GameHandler.State) (sid gid : string) (db : DB) :
  moves_rows db (GameHandler.leave_game sid gid st db).1.2.
Proof.
  unfold GameHandler.leave_game.
  destruct (GameHandler.activeGames st !! gid) as [game|]; [|apply moves_rows_refl].
  destruct (truthy _); [destruct (GameHandler.disconnectTimeouts st !! _)|];
    tiles_untouched.
Qed.

Lemma timer_fire_moves_rows (st : GameHandler.State) (h : nat) (db : DB) :
  moves_rows db (GameHandler.timer_fire h st db).2.
Proof.
  unfold GameHandler.timer_fire.
  destruct (GameHandler.armed st !! h) as [tm|]; [|apply moves_rows_refl].
  destruct (GameHandler.activeGames st !! _); tiles_untouched.
Qed.


Lemma create_route_shape (userId : jsval) (gameUuid : string) (p1 p2 : jsval)
    (tiles : list TileToInsert) (db : DB) :
  moves_rows db (create_route userId gameUuid p1 p2 tiles db).1
  \/ adds_game db (create_route userId gameUuid p1 p2 tiles db).1.
Proof.
  unfold create_route. destruct (negb (truthy userId)); [left; apply moves_rows_refl|].
  right. cbn. eexists. split; [reflexivity|]. split; reflexivity.
Qed.

Lemma accept_challenge_shape (st : ChallengeHandler.State) (sid cid : string)
    (random : nat -> nat) (gameUuid : string) (db : DB) :
  moves_rows db (ChallengeHandler.accept_challenge sid cid random gameUuid st db).1.2
  \/ adds_game db (ChallengeHandler.accept_challenge sid cid random gameUuid st db).1.2.
Proof.
  unfold ChallengeHandler.accept_challenge.
  destruct (ChallengeHandler.activeChallenges st !! cid) as [ch|];
    [|left; apply moves_rows_refl].
  right. generalize (ChallengeHandler.generateAndShuffleDominoes random). intros allTiles.
  cbn [insert_game insert_tiles fst snd GameTiles next_gameID next_titleID gameID].
  eexists. split; [reflexivity|]. split; reflexivity.
Qed.

(** Every operation either moves rows or adds the rows of a new game. *)
Lemma store_step_shape (db db' : DB) :
  store_step db db' -> moves_rows db db' \/ adds_game db db'.
Proof.
  intros [ | | | | | | | ].
  - apply accept_challenge_shape.
  - apply create_route_shape.
  - left. apply play_route_moves_rows.
  - left. by apply draw_route_moves_rows.
  - left. apply pass_route_moves_rows.
  - left. apply end_route_moves_rows.
  - left. apply leave_game_moves_rows.
  - left. apply timer_fire_moves_rows.
Qed.

Lemma filter_none {A} (P : A -> Prop) `{!forall x, Decision (P x)} (l : list A) :
  Forall (fun x => ~ P x) l -> filter P l = [].
Proof.
  induction 1 as [|x l Hx _ IH]; [reflexivity|]. by rewrite filter_cons_False.
Qed.

Lemma filter_all {A} (P : A -> Prop) `{!forall x, Decision (P x)} (l : list A) :
  Forall P l -> filter P l = l.
Proof.
  induction 1 as [|x l Hx _ IH]; [reflexivity|]. rewrite filter_cons_True by done.
  by rewrite IH.
Qed.




Lemma rows_moved_keys (l l' : list GameTile) :
  rows_moved l l' -> map titleID l' = map titleID l.
Proof.
  unfold rows_moved. induction 1 as [|x y l l' (Hk & _) _ IH]; [reflexivity|].
  cbn [map]. by rewrite Hk, IH.
Qed.

Lemma rows_moved_keys_below (n : Z) (l l' : list GameTile) :
  rows_moved l l' ->
  Forall (fun t => titleID t < n) l -> Forall (fun t => titleID t < n) l'.
Proof.
  unfold rows_moved. induction 1 as [|x y l l' (Hk & _) _ IH]; intros Hall; [constructor|].
  apply Forall_cons in Hall as [Hx Hall]. constructor; [lia | by apply IH].
Qed.

(** The rows of an insertion carry the serial keys from [n] on. *)
Lemma number_tiles_keys (gid n : Z) (l : list TileToInsert) :
  Forall (fun t => n <= titleID t < n + Z.of_nat (length l)) (number_tiles gid n l)
  /\ NoDup (map titleID (number_tiles gid n l)).
Proof.
  revert n. induction l as [|s l IH]; intros n; cbn [number_tiles map length].
  - split; constructor.
  - destruct (IH (n + 1)) as [IH1 IH2]. split.
    + constructor; [cbn; lia|].
      eapply Forall_impl; [exact IH1|]. cbn. intros; lia.
    + apply NoDup_cons. split; [|exact IH2].
      intros Hin. apply list_elem_of_In, in_map_iff in Hin as (t & Ht & Hin).
      apply list_elem_of_In in Hin.
      rewrite Forall_forall in IH1. specialize (IH1 t Hin). cbn in Ht. lia.
Qed.



Lemma store_step_keys_distinct (db db' : DB) :
  store_step db db' -> keys_distinct db -> keys_distinct db'.
Proof.
  intros Hstep [Hnd Hlt]. unfold keys_distinct.
  destruct (store_step_shape _ _ Hstep) as [(Hm & _ & Hn)|(l & Ht & _ & Hn)].
  - rewrite (rows_moved_keys _ _ Hm), Hn. split; [exact Hnd|].
    by apply (rows_moved_keys_below _ _ _ Hm).
  - destruct (number_tiles_keys (next_gameID db) (next_titleID db) l) as [Hr Hnd'].
    rewrite Ht, Hn, map_app. split.
    + apply NoDup_app. split; [exact Hnd|]. split; [|exact Hnd'].
      intros k Hk1 Hk2.
      apply list_elem_of_In, in_map_iff in Hk1 as (t & <- & Hk1).
      apply list_elem_of_In, in_map_iff in Hk2 as (t' & Hkk & Hk2).
      apply list_elem_of_In in Hk1. apply list_elem_of_In in Hk2.
      rewrite Forall_forall in Hlt. specialize (Hlt t Hk1).
      rewrite Forall_forall in Hr. specialize (Hr t' Hk2). cbn in Hlt, Hr. lia.
    + apply Forall_app. split.
      * eapply Forall_impl; [exact Hlt|]. cbn. intros; lia.
      * eapply Forall_impl; [exact Hr|]. cbn. intros; lia.
Qed.

(** In every store the server can be in, [titleID] is a key: the
    assumption on the tile table made for the play route above holds there. *)
Lemma reachable_keys_distinct (db : DB) : reachable db -> keys_distinct db.
Proof.
  induction 1 as [|db db' _ IH Hstep]; [split; constructor|].
  by apply (store_step_keys_distinct db).
Qed.







End Conservation.

(** * Further properties of the code *)

Open Scope list_scope.

(** ** The persisted chain *)

Section PersistedChain.

Lemma insert_by_position_perm (t : GameTile) (l : list GameTile) :
  insert_by_position t l ≡ₚ t :: l.
Proof.
  induction l as [|u r IH]; cbn [insert_by_position]; [reflexivity|].
  destruct (Z.leb (board_position t) (board_position u)); [reflexivity|].
  rewrite IH. apply perm_swap.
Qed.

Lemma order_by_position_perm (l : list GameTile) : order_by_position l ≡ₚ l.
Proof.
  unfold order_by_position. induction l as [|t l IH]; cbn [foldr]; [reflexivity|].
  by rewrite insert_by_position_perm, IH.
Qed.

(** Inserting between the rows left of [t] and the rows right of it. *)
Lemma insert_by_position_between (t : GameTile) (l1 l2 : list GameTile) :
  Forall (fun a => left_of a t) l1 -> Forall (fun b => left_of t b) l2 ->
  insert_by_position t (l1 ++ l2) = l1 ++ t :: l2.
Proof.
  unfold left_of. intros H1 H2. induction H1 as [|a l1 Ha _ IH]; cbn.
  - destruct H2 as [|b l2 Hb _]; cbn; [reflexivity|].
    destruct (Z.leb_spec (board_position t) (board_position b)); [reflexivity | lia].
  - destruct (Z.leb_spec (board_position t) (board_position a)); [lia|]. by rewrite IH.
Qed.

(** Ordering yields the one arrangement of the rows that goes strictly
    left to right. *)
Lemma order_by_position_sorted (l l' : list GameTile) :
  StronglySorted left_of l' -> l ≡ₚ l' -> order_by_position l = l'.
Proof.
  revert l'. induction l as [|t l IH]; intros l' Hs Hp.
  - apply Permutation_nil_l in Hp. by subst.
  - apply Permutation_cons_inv_l in Hp as (l1 & l2 & -> & Hp).
    apply StronglySorted_app in Hs as (H12 & Hs1 & Hs2).
    apply StronglySorted_cons in Hs2 as [Ht2 Hs2].
    unfold order_by_position. cbn [foldr]. fold (order_by_position l).
    rewrite (IH (l1 ++ l2)); [|apply StronglySorted_app_2; [|done..]|done].
    + apply insert_by_position_between; [|exact Ht2].
      apply Forall_forall. intros a Ha. apply H12; [done | by left].
    + intros a c Ha Hc. apply H12; [done | by right].
Qed.

Lemma indexed_from (k : Z) (l : list GameTile) :
  (forall (i : nat) t, l !! i = Some t -> board_position t = k + Z.of_nat i) ->
  StronglySorted left_of l /\ Forall (fun t => k <= board_position t) l.
Proof.
  revert k. induction l as [|a l IH]; intros k H; [split; constructor|].
  destruct (IH (k + 1)) as [IH1 IH2].
  { intros i t Hi. rewrite (H (S i) t Hi). lia. }
  pose proof (H 0%nat a eq_refl) as Ha. split.
  - constructor; [exact IH1|]. eapply Forall_impl; [exact IH2|].
    unfold left_of. cbn. intros; lia.
  - constructor; [lia|]. eapply Forall_impl; [exact IH2|]. cbn. intros; lia.
Qed.

Lemma indexed_sorted (l : list GameTile) : indexed l -> StronglySorted left_of l.
Proof. intros H. by apply (indexed_from 0). Qed.

Lemma indexed_below (l : list GameTile) (t : GameTile) :
  indexed l -> t ∈ l -> 0 <= board_position t < Z.of_nat (length l).
Proof.
  intros H Ht. apply list_elem_of_lookup in Ht as [i Hi].
  rewrite (H i t Hi). apply lookup_lt_Some in Hi. lia.
Qed.

End PersistedChain.

Section ShiftedBoard.

(** The loop over the snapshot of the board rewrites exactly the rows of
    the snapshot, each one place to the right. *)
Lemma shift_loop_as_update (ex ts : list GameTile) :
  NoDup (map titleID ts) -> NoDup (map titleID ex) -> (forall e, e ∈ ex -> e ∈ ts) ->
  fold_left
    (fun acc existingTile =>
       update_where (fun t => titleID t = titleID existingTile)
                    (set_board_position (board_position existingTile + 1)) acc)
    ex ts
  = update_where (fun t => t ∈ ex) bump ts.
Proof.
  revert ts. induction ex as [|e ex IH]; intros ts Hts Hex Hin; cbn [fold_left].
  - unfold update_where. rewrite <- (map_id ts) at 1. apply map_ext. intros t.
    rewrite decide_False; [reflexivity | apply not_elem_of_nil].
  - cbn [map] in Hex. apply NoDup_cons in Hex as [He Hex].
    assert (Hkey : forall t, t ∈ ts -> titleID t = titleID e -> t = e).
    { intros t Ht Hk. apply list_elem_of_lookup in Ht as [i Hi].
      assert (He' : e ∈ ts) by (apply Hin; by left).
      apply list_elem_of_lookup in He' as [j Hj].
      assert (i = j); [|congruence].
      apply (NoDup_lookup (map titleID ts) i j (titleID e)); [done| |].
      - rewrite list_lookup_fmap. change (titleID <$> ts !! i = Some (titleID e)).
        by rewrite Hi, <- Hk.
      - change (map titleID ts !! j) with ((titleID <$> ts) !! j).
        rewrite list_lookup_fmap. by rewrite Hj. }
    assert (Hnot : forall e', e' ∈ ex -> titleID e' <> titleID e).
    { intros e' He' Hk. apply He. apply list_elem_of_In, in_map_iff.
      exists e'. split; [done | by apply list_elem_of_In]. }
    rewrite IH.
    + unfold update_where. rewrite map_map. apply map_ext_in. intros t Ht.
      apply list_elem_of_In in Ht.
      destruct (decide (titleID t = titleID e)) as [Hk|Hk].
      * rewrite (Hkey t Ht Hk). rewrite decide_False.
        { rewrite decide_True by (by left). reflexivity. }
        intros Hbad. by apply (Hnot _ Hbad).
      * destruct (decide (t ∈ ex)) as [Hx|Hx].
        { rewrite decide_True by (by right). reflexivity. }
        rewrite decide_False; [reflexivity|].
        intros [->|?]%elem_of_cons; [by apply Hk | by apply Hx].
    + unfold update_where. rewrite map_map.
      erewrite map_ext; [exact Hts|]. intros t. cbn. by destruct (decide _).
    + exact Hex.
    + intros e' He'. unfold update_where. apply list_elem_of_In, in_map_iff.
      exists e'. split; [|apply list_elem_of_In, Hin; by right].
      rewrite decide_False; [reflexivity | by apply Hnot].
Qed.

(** With [titleID] a key, the shift moves every board row of the game one
    place right and touches no other row. *)
Lemma shift_board_right_as_update (gid : Z) (ts : list GameTile) :
  NoDup (map titleID ts) ->
  shift_board_right gid ts = update_where (on_board gid) bump ts.
Proof.
  intros Hts. unfold shift_board_right.
  set (ex := order_by_position _).
  assert (Hex : ex ≡ₚ filter (fun t => tile_gameID t = gid /\ location t = "board") ts)
    by apply order_by_position_perm.
  assert (Hmem : forall e, e ∈ ex <-> e ∈ ts /\ on_board gid e).
  { intros e. rewrite Hex, list_elem_of_filter. unfold on_board. tauto. }
  rewrite shift_loop_as_update.
  - unfold update_where. apply map_ext_in. intros t Ht. apply list_elem_of_In in Ht.
    destruct (decide (t ∈ ex)) as [Hx|Hx].
    + rewrite decide_True; [reflexivity | by apply Hmem].
    + rewrite decide_False; [reflexivity|]. intros Hb. apply Hx, Hmem. by split.
  - exact Hts.
  - rewrite Hex. apply (NoDup_fmap_2_strong titleID).
    + intros x y Hx Hy Hk. apply list_elem_of_filter in Hx as [_ Hx].
      apply list_elem_of_filter in Hy as [_ Hy].
      apply list_elem_of_lookup in Hx as [i Hi]. apply list_elem_of_lookup in Hy as [j Hj].
      assert (i = j); [|congruence].
      apply (NoDup_lookup (map titleID ts) i j (titleID x)); [done| |].
      * change (map titleID ts !! i) with ((titleID <$> ts) !! i).
        rewrite list_lookup_fmap. by rewrite Hi.
      * change (map titleID ts !! j) with ((titleID <$> ts) !! j).
        rewrite list_lookup_fmap. by rewrite Hj, Hk.
    + apply NoDup_filter. by apply (NoDup_fmap_1 titleID).
  - intros e He. by apply Hmem.
Qed.

End ShiftedBoard.

Section PlayedTile.

Lemma update_where_none {A} (P : A -> Prop) `{!forall x, Decision (P x)} (f : A -> A)
    (l : list A) :
  Forall (fun x => ~ P x) l -> update_where P f l = l.
Proof.
  induction 1 as [|x l Hx _ IH]; [reflexivity|].
  unfold update_where in *. cbn [map]. rewrite decide_False by done. by rewrite IH.
Qed.

Lemma update_where_app {A} (P : A -> Prop) `{!forall x, Decision (P x)} (f : A -> A)
    (l1 l2 : list A) :
  update_where P f (l1 ++ l2) = update_where P f l1 ++ update_where P f l2.
Proof. unfold update_where. apply map_app. Qed.

Lemma update_where_cons {A} (P : A -> Prop) `{!forall x, Decision (P x)} (f : A -> A)
    (x : A) (l : list A) :
  update_where P f (x :: l) = (if decide (P x) then f x else x) :: update_where P f l.
Proof. reflexivity. Qed.

(** A row of a table with distinct keys splits the table into rows of
    other keys. *)
Lemma split_at_key (ts : list GameTile) (row : GameTile) :
  NoDup (map titleID ts) -> row ∈ ts ->
  exists a c, ts = a ++ row :: c
              /\ Forall (fun t => titleID t <> titleID row) a
              /\ Forall (fun t => titleID t <> titleID row) c.
Proof.
  intros Hnd Hin. apply list_elem_of_split in Hin as (a & c & ->).
  exists a, c. split; [reflexivity|].
  rewrite map_app in Hnd. cbn [map] in Hnd.
  apply NoDup_app in Hnd as (_ & Hac & Hc). apply NoDup_cons in Hc as [Hc _].
  split; apply Forall_forall; intros t Ht Hk.
  - apply (Hac (titleID t)).
    + apply list_elem_of_In, in_map_iff. exists t. split; [done | by apply list_elem_of_In].
    + rewrite Hk. by left.
  - apply Hc. apply list_elem_of_In, in_map_iff. exists t.
    split; [done | by apply list_elem_of_In].
Qed.

Lemma shifted_keys (b : PlayBody) (gid k : Z) (l : list GameTile) :
  Forall (fun t => titleID t <> k) l -> Forall (fun t => titleID t <> k) (shifted b gid l).
Proof.
  intros H. unfold shifted. destruct (_ && _); [|exact H].
  unfold update_where. apply Forall_forall. intros t Ht.
  apply list_elem_of_In, in_map_iff in Ht as (u & <- & Hu). apply list_elem_of_In in Hu.
  rewrite Forall_forall in H. specialize (H u Hu). by destruct (decide _).
Qed.

Lemma hand_label_not_board (game : Game) :
  (if strict_eq (current_turn game) (player1_id game)
   then "player1_hand" else "player2_hand") <> "board".
Proof. destruct (strict_eq _ _); discriminate. Qed.

(** What a successful play request does to the tile table: the rows
    before and after the played row are kept (shifted for a play on the
    left at position 0) and the played row is rewritten in its place. *)
Lemma play_route_moves_the_row (db : DB) (userId : jsval) (gameUuid : string) (game : Game)
    (b : PlayBody) (row : GameTile) :
  truthy userId = true ->
  find_game gameUuid db = Some game ->
  current_turn game = userId ->
  NoDup (map titleID (GameTiles db)) ->
  in_hand_of_turn game (tileId b) db = Some row ->
  exists a c db',
    GameTiles db = a ++ row :: c
    /\ play_route userId gameUuid b db
       = (db', PlayOk (apply_updateData b row) (nextTurnPlayerId game))
    /\ GameTiles db'
       = shifted b (gameID game) a ++ apply_updateData b row :: shifted b (gameID game) c
    /\ Games db' = update_where (fun g => gameID g = gameID game)
                                (set_current_turn (nextTurnPlayerId game)) (Games db)
    /\ ~ on_board (gameID game) row
    /\ JNum (titleID row) = tileId b /\ tile_gameID row = gameID game.
Proof.
  intros Hauth Hfind Hturn Hnd Hrow. unfold in_hand_of_turn in Hrow.
  pose proof (single_Some _ _ Hrow) as Hrows.
  assert (Hin : row ∈ filter (fun t => JNum (titleID t) = tileId b
                 /\ tile_gameID t = gameID game
                 /\ location t = (if strict_eq (current_turn game) (player1_id game)
                                  then "player1_hand" else "player2_hand"))
                 (GameTiles db)).
  { rewrite Hrows. by apply list_elem_of_singleton. }
  apply list_elem_of_filter in Hin as [(Hk & Hg & Hloc) Hin].
  assert (Hnb : ~ on_board (gameID game) row).
  { intros [_ Hb]. rewrite Hb in Hloc. symmetry in Hloc.
    by apply (hand_label_not_board game). }
  destruct (split_at_key _ _ Hnd Hin) as (a & c & Hts & Ha & Hc).
  exists a, c.
  unfold play_route. rewrite Hauth, Hfind. cbn [negb].
  unfold strict_ne. replace (strict_eq (current_turn game) userId) with true
    by (symmetry; unfold strict_eq; by apply bool_decide_eq_true).
  cbn [negb]. rewrite Hrow.
  rewrite (shift_board_right_as_update _ _ Hnd).
  assert (Hts1 : (if bool_decide (side b = "left") && Z.eqb (boardPosition b) 0
                  then update_where (on_board (gameID game)) bump (GameTiles db)
                  else GameTiles db)
                 = shifted b (gameID game) a ++ row :: shifted b (gameID game) c).
  { rewrite Hts. unfold shifted. destruct (_ && _); [|reflexivity].
    rewrite update_where_app, update_where_cons. by rewrite decide_False. }
  rewrite Hts1.
  assert (Hhit : forall l, Forall (fun t => titleID t <> titleID row) l ->
            Forall (fun t => ~ (JNum (titleID t) = tileId b
                                /\ tile_gameID t = gameID game))
                   (shifted b (gameID game) l)).
  { intros l Hl. eapply Forall_impl; [apply shifted_keys, Hl|].
    cbn. intros t Ht [Hk' _]. apply Ht. congruence. }
  rewrite filter_app, filter_cons_True by done.
  rewrite !filter_none by (by apply Hhit). cbn [app single].
  rewrite update_where_app, update_where_cons, decide_True by done.
  rewrite (update_where_none _ _ (shifted b (gameID game) a)) by (by apply Hhit).
  rewrite (update_where_none _ _ (shifted b (gameID game) c)) by (by apply Hhit).
  eexists. split; [exact Hts|]. split; [reflexivity|]. cbn.
  repeat split; done.
Qed.

End PlayedTile.

Section ExtendedChain.

Lemma filter_bumped (gid : Z) (l : list GameTile) :
  filter (on_board gid) (update_where (on_board gid) bump l)
  = map bump (filter (on_board gid) l).
Proof.
  induction l as [|x l IH]; [reflexivity|].
  rewrite update_where_cons, (filter_cons _ x).
  destruct (decide (on_board gid x)) as [Hx|Hx].
  - rewrite filter_cons_True by exact Hx. cbn [map]. by rewrite IH.
  - rewrite filter_cons_False by exact Hx. exact IH.
Qed.

Lemma apply_updateData_placed (b : PlayBody) (gid : Z) (row : GameTile) :
  tile_gameID row = gid ->
  on_board gid (apply_updateData b row)
  /\ board_position (apply_updateData b row) = boardPosition b
  /\ titleID (apply_updateData b row) = titleID row.
Proof.
  intros Hg. unfold apply_updateData, on_board.
  destruct (topValue b), (bottomValue b); cbn; by repeat split.
Qed.

Lemma indexed_cons_bumped (placed : GameTile) (old : list GameTile) :
  board_position placed = 0 -> indexed old -> indexed (placed :: map bump old).
Proof.
  intros H0 Hold [|i] t Hi.
  - cbn in Hi. injection Hi as <-. exact H0.
  - cbn in Hi. change (map bump old !! i) with ((bump <$> old) !! i) in Hi.
    rewrite list_lookup_fmap in Hi.
    destruct (old !! i) as [u|] eqn:Hu; [|discriminate].
    cbn in Hi. injection Hi as <-. cbn. rewrite (Hold i u Hu). lia.
Qed.

Lemma indexed_snoc (placed : GameTile) (old : list GameTile) :
  board_position placed = Z.of_nat (length old) -> indexed old ->
  indexed (old ++ [placed]).
Proof.
  intros Hn Hold i t Hi. apply lookup_app_Some in Hi as [Hi|[Hlen Hi]].
  - by apply Hold.
  - destruct (i - length old)%nat as [|k] eqn:E; [|by destruct k].
    cbn in Hi. injection Hi as <-. rewrite Hn. f_equal. lia.
Qed.

(** The persisted chain after an accepted play request. *)
Lemma play_route_extends_the_chain_parts (db : DB) (userId : jsval) (gameUuid : string)
    (game : Game) (b : PlayBody) (row : GameTile) :
  truthy userId = true ->
  find_game gameUuid db = Some game ->
  current_turn game = userId ->
  NoDup (map titleID (GameTiles db)) ->
  in_hand_of_turn game (tileId b) db = Some row ->
  indexed (board_rows (gameID game) db) ->
  let db' := (play_route userId gameUuid b db).1 in
  let old := board_rows (gameID game) db in
  (side b = "left" -> boardPosition b = 0 ->
   board_rows (gameID game) db' = apply_updateData b row :: map bump old
   /\ indexed (board_rows (gameID game) db'))
  /\ (side b <> "left" -> boardPosition b = Z.of_nat (length old) ->
      board_rows (gameID game) db' = old ++ [apply_updateData b row]
      /\ indexed (board_rows (gameID game) db')).
Proof.
  intros Hauth Hfind Hturn Hnd Hrow Hidx db' old. subst db'.
  destruct (play_route_moves_the_row db userId gameUuid game b row
              Hauth Hfind Hturn Hnd Hrow)
    as (a & c & db' & Hts & Hplay & Hts' & _ & Hnb & _ & Hg).
  rewrite Hplay. cbn [fst].
  destruct (apply_updateData_placed b (gameID game) row Hg) as (Hpb & Hpp & _).
  assert (Hold : old ≡ₚ filter (on_board (gameID game)) a
                        ++ filter (on_board (gameID game)) c).
  { subst old. unfold board_rows. rewrite order_by_position_perm, Hts.
    change (fun t => tile_gameID t = gameID game /\ location t = "board")
      with (on_board (gameID game)).
    by rewrite filter_app, filter_cons_False. }
  unfold board_rows. rewrite Hts'.
  change (fun t => tile_gameID t = gameID game /\ location t = "board")
    with (on_board (gameID game)).
  rewrite filter_app, filter_cons_True by exact Hpb.
  split.
  - intros Hside Hpos. unfold shifted.
    rewrite bool_decide_true by exact Hside. rewrite Hpos. cbn [Z.eqb andb].
    rewrite !filter_bumped.
    assert (Hi : indexed (apply_updateData b row :: map bump old)).
    { apply indexed_cons_bumped; [congruence | exact Hidx]. }
    rewrite (order_by_position_sorted _ (apply_updateData b row :: map bump old)).
    + by split.
    + by apply indexed_sorted.
    + rewrite <- Permutation_middle. constructor.
      rewrite <- map_app. change (map bump ?l) with (bump <$> l). by rewrite Hold.
  - intros Hside Hpos. unfold shifted.
    rewrite bool_decide_false by exact Hside. cbn [andb].
    assert (Hi : indexed (old ++ [apply_updateData b row])).
    { apply indexed_snoc; [congruence | exact Hidx]. }
    rewrite (order_by_position_sorted _ (old ++ [apply_updateData b row])).
    + by split.
    + by apply indexed_sorted.
    + rewrite <- Permutation_middle, Hold. apply Permutation_cons_append.
Qed.

(** X1: a play on the left at position 0 puts the played row in front of the
    persisted chain and moves the rest one place right; a play on another
    side at the position after the last row appends it.  In both cases
    the rows of the chain again carry their index as position. *)
Theorem play_route_extends_the_chain (db : DB) (userId : jsval) (gameUuid : string)
    (game : Game) (b : PlayBody) (row : GameTile) :
  truthy userId = true ->
  find_game gameUuid db = Some game ->
  current_turn game = userId ->
  NoDup (map titleID (GameTiles db)) ->
  in_hand_of_turn game (tileId b) db = Some row ->
  indexed (board_rows (gameID game) db) ->
  let db' := (play_route userId gameUuid b db).1 in
  let old := board_rows (gameID game) db in
  (side b = "left" -> boardPosition b = 0 ->
   board_rows (gameID game) db' = apply_updateData b row :: map bump old
   /\ indexed (board_rows (gameID game) db'))
  /\ (side b <> "left" -> boardPosition b = Z.of_nat (length old) ->
      board_rows (gameID game) db' = old ++ [apply_updateData b row]
      /\ indexed (board_rows (gameID game) db')).
Proof.
  intros Hauth Hfind Hturn Hnd Hrow Hidx.
  exact (play_route_extends_the_chain_parts db userId gameUuid game b row
           Hauth Hfind Hturn Hnd Hrow Hidx).
Qed.

End ExtendedChain.

Section ShownChain.
Import GameBoard.

Lemma filter_twice {A} (P Q : A -> Prop) `{!forall x, Decision (P x)}
    `{!forall x, Decision (Q x)} (l : list A) :
  filter P (filter Q l) = filter (fun x => Q x /\ P x) l.
Proof.
  induction l as [|x l IH]; [reflexivity|].
  rewrite (filter_cons Q), (filter_cons (fun x => Q x /\ P x)).
  destruct (decide (Q x)) as [HQ|HQ].
  - rewrite filter_cons. destruct (decide (P x)) as [HP|HP].
    + rewrite decide_True by done. by rewrite IH.
    + rewrite decide_False by tauto. exact IH.
  - rewrite decide_False by tauto. exact IH.
Qed.

(** The chain that a reload shows is the persisted chain. *)
Lemma loadGameFromDatabase_chain (player1 : jsval) (c : Component) (db : DB) (game : Game) :
  truthy (currentUser_id c) = true ->
  find_game (gameId c) db = Some game ->
  indexed (board_rows (gameID game) db) ->
  boardChain (loadGameFromDatabase player1 c db)
  = map to_tile (board_rows (gameID game) db).
Proof.
  intros Hauth Hfind Hidx. unfold loadGameFromDatabase. rewrite Hauth, Hfind.
  cbn [negb boardChain]. f_equal.
  apply order_by_position_sorted; [by apply indexed_sorted|].
  rewrite order_by_position_perm, filter_twice.
  unfold board_rows. by rewrite order_by_position_perm.
Qed.

(** The three ways [playTile] lays a tile. *)
Lemma orient_cases (chain : list Tile) (tile newTile : Tile) (side : string)
    (pos : Z) (chain' : list Tile) :
  orient chain tile side = Some (newTile, pos, chain') ->
  id newTile = id tile
  /\ ((chain = [] /\ pos = 0 /\ chain' = [newTile])
      \/ (side = "left" /\ pos = 0 /\ chain' = newTile :: chain)
      \/ (side <> "left" /\ pos = Z.of_nat (length chain) /\ chain' = chain ++ [newTile])).
Proof.
  destruct chain as [|x chain].
  - cbn. intros [= <- <- <-]. split; [reflexivity|]. by left.
  - destruct (chain_ends x chain) as (r & Hl & Hr). unfold orient. rewrite Hl, Hr.
    case_bool_decide as Hs.
    + destruct (Z.eqb (bottom tile) (top x)); [|destruct (Z.eqb (top tile) (top x))];
        intros [= <- <- <-]; (split; [reflexivity|]); right; left; done.
    + destruct (Z.eqb (top tile) r); [|destruct (Z.eqb (bottom tile) r)];
        intros [= <- <- <-]; (split; [reflexivity|]); right; right; done.
Qed.

(** What [playTile] does with a legal move of the current-turn player for
    a tile of that player's hand: the request it makes is accepted, and
    the component and the store it leaves are those of the request, with
    the game ended in the store if the hand has become empty. *)
Lemma playTile_legal (c : Component) (db : DB) (tile : Tile) (side : string)
    (game : Game) (row : GameTile) :
  isMyTurn c = true ->
  truthy (id tile) = true ->
  truthy (currentUser_id c) = true ->
  find_game (gameId c) db = Some game ->
  current_turn game = currentUser_id c ->
  NoDup (map titleID (GameTiles db)) ->
  in_hand_of_turn game (id tile) db = Some row ->
  legal_placement (boardChain c) tile side ->
  exists newTile pos chain' db1,
    orient (boardChain c) tile side = Some (newTile, pos, chain')
    /\ play_route (currentUser_id c) (gameId c)
         (mkPlayBody (id tile) side pos (Some (top newTile)) (Some (bottom newTile))) db
       = (db1, PlayOk (apply_updateData
                         (mkPlayBody (id tile) side pos (Some (top newTile))
                                     (Some (bottom newTile))) row)
                      (nextTurnPlayerId game))
    /\ boardChain (playTile tile side c db).1.1 = chain'
    /\ playerHand (playTile tile side c db).1.1
       = filter (fun t => id t <> id tile) (playerHand c)
    /\ gameId (playTile tile side c db).1.1 = gameId c
    /\ currentUser_id (playTile tile side c db).1.1 = currentUser_id c
    /\ GameTiles (playTile tile side c db).1.2 = GameTiles db1
    /\ exists g, find_game (gameId c) (playTile tile side c db).1.2 = Some g
                 /\ gameID g = gameID game.
Proof.
  intros Hmy Hid Hauth Hfind Hturn Hnd Hrow Hlegal.
  pose proof Hlegal as Ho. apply orient_legal in Ho as [[[newTile pos] chain'] E].
  set (b := mkPlayBody (id tile) side pos (Some (top newTile)) (Some (bottom newTile))).
  destruct (play_route_moves_the_row db (currentUser_id c) (gameId c) game b row
              Hauth Hfind Hturn Hnd Hrow)
    as (a & r & db1 & _ & Hplay & _ & Hgames & _).
  assert (Hg1 : find_game (gameId c) db1
                = Some (set_current_turn (nextTurnPlayerId game) game))
    by (by apply (find_game_after_turn _ db)).
  exists newTile, pos, chain', db1. split; [exact E|]. split; [exact Hplay|].
  unfold playTile. rewrite Hmy. cbn [negb].
  rewrite (legal_canPlayTile _ _ _ Hlegal). cbn [negb]. rewrite Hid. cbn [negb].
  rewrite E. fold b. rewrite Hplay.
  destruct (bool_decide (filter (fun t0 => id t0 <> id tile) (playerHand c) = [])).
  - unfold endGame, end_route. cbn [currentUser_id gameId]. rewrite Hauth. cbn [negb fst snd].
    repeat split; try reflexivity.
    eexists. split; [by apply find_game_force_end|]. reflexivity.
  - cbn [fst snd]. repeat split; try reflexivity.
    eexists. split; [exact Hg1|]. reflexivity.
Qed.

(** X2: after a legal move of [playTile] the chain in the store is the chain
    the component shows, and a reload from the store shows that chain
    again, provided store and component agreed before the move. *)
Theorem playTile_keeps_store_and_view_in_step (player1 : jsval) (c : Component) (db : DB)
    (tile : Tile) (side : string) (game : Game) (row : GameTile) :
  isMyTurn c = true ->
  truthy (id tile) = true ->
  truthy (currentUser_id c) = true ->
  find_game (gameId c) db = Some game ->
  current_turn game = currentUser_id c ->
  NoDup (map titleID (GameTiles db)) ->
  in_hand_of_turn game (id tile) db = Some row ->
  legal_placement (boardChain c) tile side ->
  indexed (board_rows (gameID game) db) ->
  map to_tile (board_rows (gameID game) db) = boardChain c ->
  let c' := (playTile tile side c db).1.1 in
  let db' := (playTile tile side c db).1.2 in
  map to_tile (board_rows (gameID game) db') = boardChain c'
  /\ indexed (board_rows (gameID game) db')
  /\ boardChain (loadGameFromDatabase player1 c' db') = boardChain c'.
Proof.
  intros Hmy Hid Hauth Hfind Hturn Hnd Hrow Hlegal Hidx Hsame c' db'.
  destruct (playTile_legal c db tile side game row Hmy Hid Hauth Hfind Hturn Hnd Hrow Hlegal)
    as (newTile & pos & chain' & db1 & E & Hplay & Hchain & _ & Hgid & Hcu & Hts & g & Hg & Hgg).
  set (b := mkPlayBody (id tile) side pos (Some (top newTile)) (Some (bottom newTile))) in *.
  assert (Hrows : board_rows (gameID game) db' = board_rows (gameID game) db1)
    by (unfold board_rows; subst db'; by rewrite Hts).
  destruct (play_route_extends_the_chain_parts db (currentUser_id c) (gameId c) game b row
              Hauth Hfind Hturn Hnd Hrow Hidx) as [Hleft Hright].
  rewrite Hplay in Hleft, Hright. cbn [fst] in Hleft, Hright.
  destruct (orient_cases _ _ _ _ _ _ E) as [Hnid Hcases].
  assert (Hplaced : to_tile (apply_updateData b row) = newTile).
  { destruct (play_route_moves_the_row db (currentUser_id c) (gameId c) game b row
                Hauth Hfind Hturn Hnd Hrow) as (_ & _ & _ & _ & _ & _ & _ & _ & Hk & _).
    unfold to_tile, apply_updateData. cbn. rewrite Hk. cbn.
    destruct newTile as [i t u]. cbn in *. by rewrite Hnid. }
  assert (Hbump : forall l, map to_tile (map bump l) = map to_tile l).
  { intros l. rewrite map_map. apply map_ext. intros t. reflexivity. }
  assert (Hlen : length (board_rows (gameID game) db) = length (boardChain c)).
  { rewrite <- Hsame. by rewrite length_map. }
  assert (Hboth : map to_tile (board_rows (gameID game) db1) = chain'
                  /\ indexed (board_rows (gameID game) db1)).
  { destruct Hcases as [(Hnil & -> & ->)|[(Hs & -> & ->)|(Hs & -> & ->)]].
    - rewrite Hnil in Hsame.
      assert (Hold : board_rows (gameID game) db = []).
      { destruct (board_rows (gameID game) db); [reflexivity | discriminate]. }
      destruct (decide (side = "left")) as [Hs|Hs].
      + destruct (Hleft Hs eq_refl) as [-> Hi]. rewrite Hold in *. cbn [map].
        by rewrite Hplaced.
      + destruct Hright as [Hr Hi]; [exact Hs | by rewrite Hold |].
        rewrite Hr in *. rewrite Hold in *. cbn [map app]. by rewrite Hplaced.
    - destruct (Hleft Hs eq_refl) as [-> Hi]. cbn [map].
      by rewrite Hplaced, Hbump, Hsame.
    - destruct Hright as [Hr Hi]; [exact Hs | cbn; by rewrite Hlen |].
      rewrite Hr in *. by rewrite map_app, Hsame, <- Hplaced. }
  destruct Hboth as [Hmap Hi].
  rewrite Hrows. subst c'. rewrite Hchain. split; [exact Hmap|]. split; [exact Hi|].
  rewrite <- Hchain.
  rewrite (loadGameFromDatabase_chain player1 _ db' g).
  - rewrite Hgg, Hrows, Hmap. by rewrite Hchain.
  - by rewrite Hcu.
  - rewrite Hgid. exact Hg.
  - by rewrite Hgg, Hrows.
Qed.

End ShownChain.

Section ChainWitnesses.
Import GameBoard.

Lemma indexed_by_evaluation (l : list GameTile) :
  forallb (fun p => Z.eqb (board_position p.2) (Z.of_nat p.1)) (imap pair l) = true ->
  indexed l.
Proof.
  intros H i t Hi. rewrite forallb_forall in H.
  apply Z.eqb_eq. apply (H (i, t)).
  apply list_elem_of_In, list_elem_of_lookup. exists i.
  by rewrite list_lookup_imap, Hi.
Qed.

Lemma play_route_extends_the_chain_witness :
  let db' := (play_route (JNum 2) "g" (Scenario.body 8 "left" 0) Scenario.opened_db).1 in
  board_rows 1 db'
  = apply_updateData (Scenario.body 8 "left" 0) (mkTile 8 1 1 2 "player2_hand" (-1))
    :: map bump (board_rows 1 Scenario.opened_db)
  /\ indexed (board_rows 1 db').
Proof.
  destruct (play_route_extends_the_chain Scenario.opened_db (JNum 2) "g"
              (mkGame 1 "g" (JNum 1) (JNum 2) (JNum 2) "active" (JNum 0) 14)
              (Scenario.body 8 "left" 0)
              (mkTile 8 1 1 2 "player2_hand" (-1))) as [H _].
  - reflexivity.
  - vm_compute. reflexivity.
  - reflexivity.
  - apply keys_distinct_by_evaluation. vm_compute. reflexivity.
  - vm_compute. reflexivity.
  - apply indexed_by_evaluation. vm_compute. reflexivity.
  - exact (H eq_refl eq_refl).
Defined.

Lemma playTile_keeps_store_and_view_in_step_witness :
  let tile := GameBoard.mkCTile (JNum 8) 1 2 in
  let c' := (playTile tile "right" Scenario.bob_view Scenario.opened_db).1.1 in
  let db' := (playTile tile "right" Scenario.bob_view Scenario.opened_db).1.2 in
  map to_tile (board_rows 1 db') = boardChain c'
  /\ indexed (board_rows 1 db')
  /\ boardChain (loadGameFromDatabase (JNum 1) c' db') = boardChain c'.
Proof.
  exact (playTile_keeps_store_and_view_in_step (JNum 1) Scenario.bob_view Scenario.opened_db
           (GameBoard.mkCTile (JNum 8) 1 2) "right"
           (mkGame 1 "g" (JNum 1) (JNum 2) (JNum 2) "active" (JNum 0) 14)
           (mkTile 8 1 1 2 "player2_hand" (-1))
           eq_refl eq_refl eq_refl
           ltac:(vm_compute; reflexivity)
           eq_refl
           ltac:(apply keys_distinct_by_evaluation; vm_compute; reflexivity)
           ltac:(vm_compute; reflexivity)
           ltac:(right; exists 1; split; [vm_compute; reflexivity | left; reflexivity])
           ltac:(apply indexed_by_evaluation; vm_compute; reflexivity)
           ltac:(vm_compute; reflexivity)).
Defined.

End ChainWitnesses.

(** ** The game routes: rejections, draws, plays, ends *)

Section RouteEffects.

(** X3: a refused move changes nothing.  A play request with a numeric
    tile id, a draw request or a pass request that is answered 400, 401,
    403 or 404 (any error but 500) leaves the whole store as it was:
    games, tiles and moves. *)
Theorem refused_move_changes_nothing (db : DB) (userId : jsval) (gameUuid : string)
    (b : PlayBody) (n : Z) (pick : nat) (playerLocation : string) (code : Z)
    (error : string) :
  tileId b = JNum n ->
  code <> 500 ->
  ((play_route userId gameUuid b db).2 = Err code error ->
   (play_route userId gameUuid b db).1 = db)
  /\ ((draw_route_any pick userId gameUuid playerLocation db).2 = Err code error ->
      (draw_route_any pick userId gameUuid playerLocation db).1 = db)
  /\ ((pass_route userId gameUuid db).2 = Err code error ->
      (pass_route userId gameUuid db).1 = db).
Proof.
  intros _ Hcode. split; [|split].
  - unfold play_route.
    destruct (negb (truthy userId)); [done|].
    destruct (find_game gameUuid db) as [game|]; [|done].
    destruct (strict_ne (current_turn game) userId); [done|].
    destruct (single _) as [tileToPlay|]; [|done].
    destruct (single _) as [row|]; [discriminate|].
    cbn [snd]. intros [= E _]. congruence.
  - unfold draw_route_any.
    destruct (negb (truthy userId)); [done|].
    destruct (find_game gameUuid db) as [game|]; [|done].
    destruct (strict_ne (current_turn game) userId); [done|].
    destruct (Z.leb (boneyard_count game) 0); [done|].
    destruct (filter _ (GameTiles db)) as [|first others]; [done|].
    destruct (single _) as [row|]; [discriminate | done].
  - unfold pass_route.
    destruct (negb (truthy userId)); [done|].
    destruct (find_game gameUuid db) as [game|]; [|done].
    destruct (strict_ne (current_turn game) userId); [done | discriminate].
Qed.

Lemma refused_move_changes_nothing_witness :
  (play_route (JNum 1) "g" (Scenario.body 13 "right" 0) Scenario.started_db).2
    = Err 400 "Tile not found in your hand"
  /\ (play_route (JNum 1) "g" (Scenario.body 13 "right" 0) Scenario.started_db).1
     = Scenario.started_db.
Proof.
  split; [vm_compute; reflexivity|].
  destruct (refused_move_changes_nothing Scenario.started_db (JNum 1) "g"
              (Scenario.body 13 "right" 0) 13 0 "player1_hand"
              400 "Tile not found in your hand") as [H _].
  - reflexivity.
  - discriminate.
  - apply H. vm_compute. reflexivity.
Defined.

(** The number of rows of game [gid] at location [l], as one selection. *)
Lemma count_at_tiles_of (gid : Z) (l : string) (db : DB) :
  count_at l (tiles_of gid db)
  = length (filter (fun t => tile_gameID t = gid /\ location t = l) (GameTiles db)).
Proof. unfold count_at, tiles_of. by rewrite filter_twice. Qed.

Lemma count_shifted (b : PlayBody) (gid gid' : Z) (l : string) (ts : list GameTile) :
  length (filter (fun t => tile_gameID t = gid' /\ location t = l) (shifted b gid ts))
  = length (filter (fun t => tile_gameID t = gid' /\ location t = l) ts).
Proof.
  unfold shifted. destruct (_ && _); [|reflexivity].
  rewrite (filter_update_where _ (fun t => tile_gameID t = gid' /\ location t = l))
    by (intros x; reflexivity).
  apply update_where_length.
Qed.

(** X4: a successful play takes one tile out of the hand of the player
    whose turn it is and puts one on the board; the other hand and the
    boneyard keep their tiles. *)
Theorem play_moves_one_tile_from_hand_to_board (db : DB) (userId : jsval)
    (gameUuid : string) (game : Game) (b : PlayBody) (row : GameTile) :
  truthy userId = true ->
  find_game gameUuid db = Some game ->
  current_turn game = userId ->
  NoDup (map titleID (GameTiles db)) ->
  in_hand_of_turn game (tileId b) db = Some row ->
  let db' := (play_route userId gameUuid b db).1 in
  let gid := gameID game in
  let hand := if strict_eq (current_turn game) (player1_id game)
              then "player1_hand" else "player2_hand" in
  let other := if strict_eq (current_turn game) (player1_id game)
               then "player2_hand" else "player1_hand" in
  (count_at hand (tiles_of gid db') + 1 = count_at hand (tiles_of gid db))%nat
  /\ (count_at "board" (tiles_of gid db') = count_at "board" (tiles_of gid db) + 1)%nat
  /\ count_at other (tiles_of gid db') = count_at other (tiles_of gid db)
  /\ count_at "boneyard" (tiles_of gid db') = count_at "boneyard" (tiles_of gid db).
Proof.
  intros Hauth Hfind Hturn Hnd Hrow db' gid hand other. subst db' gid hand other.
  pose proof Hrow as Hrow'. unfold in_hand_of_turn in Hrow'.
  apply single_Some in Hrow'.
  assert (Hin : row ∈ filter (fun t => JNum (titleID t) = tileId b
                 /\ tile_gameID t = gameID game
                 /\ location t = (if strict_eq (current_turn game) (player1_id game)
                                  then "player1_hand" else "player2_hand"))
                 (GameTiles db))
    by (rewrite Hrow'; by apply list_elem_of_singleton).
  apply list_elem_of_filter in Hin as [(_ & _ & Hloc) _].
  destruct (play_route_moves_the_row db userId gameUuid game b row
              Hauth Hfind Hturn Hnd Hrow)
    as (a & c & db' & Hts & Hplay & Hts' & _ & _ & _ & Hg).
  rewrite Hplay. cbn [fst].
  destruct (apply_updateData_placed b (gameID game) row Hg) as ([Hpg Hpl] & _ & _).
  rewrite !count_at_tiles_of, Hts, Hts'.
  rewrite !filter_app, !(filter_cons _ row), !(filter_cons _ (apply_updateData b row)).
  rewrite !length_app, !count_shifted. rewrite Hpl, Hloc.
  destruct (strict_eq (current_turn game) (player1_id game));
    repeat case_decide; try (exfalso; intuition congruence);
    cbn [length]; rewrite ?count_shifted; repeat split; lia.
Qed.

Lemma play_moves_one_tile_from_hand_to_board_witness :
  let db' := (play_route (JNum 1) "g" (Scenario.body 7 "right" 0) Scenario.started_db).1 in
  (count_at "player1_hand" (tiles_of 1 db') + 1
   = count_at "player1_hand" (tiles_of 1 Scenario.started_db))%nat
  /\ (count_at "board" (tiles_of 1 db')
      = count_at "board" (tiles_of 1 Scenario.started_db) + 1)%nat.
Proof.
  destruct (play_moves_one_tile_from_hand_to_board Scenario.started_db (JNum 1) "g"
              (mkGame 1 "g" (JNum 1) (JNum 2) (JNum 1) "active" (JNum 0) 14)
              (Scenario.body 7 "right" 0)
              (mkTile 7 1 1 1 "player1_hand" (-1))) as (H1 & H2 & _).
  - reflexivity.
  - vm_compute. reflexivity.
  - reflexivity.
  - apply keys_distinct_by_evaluation. vm_compute. reflexivity.
  - vm_compute. reflexivity.
  - exact (conj H1 H2).
Defined.

End RouteEffects.

(** ** The game routes: draws and ends *)

Section DrawAndEnd.

Lemma find_game_updated (u : string) (db : DB) (game : Game) (f : Game -> Game)
    (ts : list GameTile) (ms : list GameMove) (n1 n2 : Z) :
  (forall g, game_uuid (f g) = game_uuid g) ->
  find_game u db = Some game ->
  find_game u (mkDB (update_where (fun g => gameID g = gameID game) f (Games db)) ts ms n1 n2)
  = Some (f game).
Proof.
  intros Hf H. apply find_game_rows in H. unfold find_game. cbn [Games].
  rewrite (filter_update_where _ (fun g => game_uuid g = u))
    by (intros x; by rewrite Hf).
  rewrite H. unfold update_where. cbn [map].
  rewrite decide_True by reflexivity. reflexivity.
Qed.

(** The draw route of the earlier sections is the one for the store that
    returns the first row of its selection. *)
Lemma draw_route_first (userId : jsval) (gameUuid : string) (playerLocation : string)
    (db : DB) :
  draw_route userId gameUuid playerLocation db
  = draw_route_any 0 userId gameUuid playerLocation db.
Proof.
  unfold draw_route, draw_route_any.
  destruct (negb (truthy userId)); [reflexivity|].
  destruct (find_game gameUuid db) as [game|]; [|reflexivity].
  destruct (strict_ne (current_turn game) userId); [reflexivity|].
  destruct (Z.leb (boneyard_count game) 0); [reflexivity|].
  destruct (filter _ (GameTiles db)) as [|first others]; [reflexivity|].
  rewrite Nat.Div0.mod_0_l. reflexivity.
Qed.

(** What the draw route does when it accepts the request, for the row
    the store returns. *)
Lemma draw_route_any_accepts (pick : nat) (db : DB) (userId : jsval) (gameUuid : string)
    (playerLocation : string) (game : Game) :
  truthy userId = true ->
  find_game gameUuid db = Some game ->
  current_turn game = userId ->
  0 < boneyard_count game ->
  NoDup (map titleID (GameTiles db)) ->
  let rows := filter (fun t => tile_gameID t = gameID game /\ location t = "boneyard")
                     (GameTiles db) in
  rows <> [] ->
  exists drawn a c,
    rows !! (pick mod length rows)%nat = Some drawn
    /\ GameTiles db = a ++ drawn :: c
    /\ draw_route_any pick userId gameUuid playerLocation db
       = (mkDB (update_where (fun g => gameID g = gameID game)
                  (fun g => set_current_turn (nextTurnPlayerId game)
                              (set_boneyard_count (boneyard_count game - 1) g))
                  (Games db))
               (a ++ set_location playerLocation drawn :: c)
               (GameMoves db ++ [mkMove (gameID game) userId "draw_tile"
                                        (Some (top_value drawn)) (Some (bottom_value drawn))
                                        None])
               (next_gameID db) (next_titleID db),
          DrawOk (set_location playerLocation drawn) (boneyard_count game - 1)).
Proof.
  intros Hauth Hfind Hturn Hpos Hnd rows Hrows.
  destruct rows as [|first others] eqn:Erows; [done|]. clear Hrows.
  set (n := (pick mod length (first :: others))%nat).
  assert (Hn : (n < length (first :: others))%nat)
    by (subst n; apply Nat.mod_upper_bound; discriminate).
  destruct (lookup_lt_is_Some_2 (first :: others) n Hn) as [drawn Hdrawn].
  assert (Hnth : nth n (first :: others) first = drawn)
    by (by apply nth_lookup_Some with (d := first) in Hdrawn).
  assert (Hin : drawn ∈ GameTiles db).
  { assert (Hin' : drawn ∈ first :: others) by (by eapply list_elem_of_lookup_2).
    subst rows. rewrite <- Erows in Hin'. apply list_elem_of_filter in Hin'. tauto. }
  destruct (split_at_key _ _ Hnd Hin) as (a & c & Hts & Ha & Hc).
  assert (Hsel : filter (fun t => titleID t = titleID drawn) (GameTiles db) = [drawn]).
  { rewrite Hts, filter_app, filter_cons, decide_True by reflexivity.
    rewrite (filter_none _ a), (filter_none _ c) by assumption. reflexivity. }
  assert (Hupd : update_where (fun t => titleID t = titleID drawn)
                   (set_location playerLocation) (GameTiles db)
                 = a ++ set_location playerLocation drawn :: c).
  { rewrite Hts, update_where_app, update_where_cons, decide_True by reflexivity.
    rewrite (update_where_none _ _ a), (update_where_none _ _ c) by assumption.
    reflexivity. }
  exists drawn, a, c. split; [exact Hdrawn|]. split; [exact Hts|].
  unfold draw_route_any. rewrite Hauth, Hfind. cbn [negb].
  unfold strict_ne. replace (strict_eq (current_turn game) userId) with true
    by (symmetry; unfold strict_eq; by apply bool_decide_eq_true).
  cbn [negb]. replace (Z.leb (boneyard_count game) 0) with false
    by (symmetry; apply Z.leb_gt; lia).
  subst rows. rewrite Erows. fold n. rewrite Hnth, Hsel. cbn [single].
  unfold insert_move, with_games, with_tiles.
  cbn [Games GameTiles GameMoves next_gameID next_titleID top_value bottom_value
       set_location]. by rewrite Hupd.
Qed.

(** X5: a successful draw moves one boneyard row.  When the player whose
    turn it is draws and the stored count is positive, then whichever
    boneyard row of the game the store returns, that row gets the
    location the request names, whatever it is, and no other row changes;
    the answer carries the row and the count less one; the stored count
    goes down by one and the turn goes to the other player. *)
Theorem draw_moves_one_boneyard_row (pick : nat) (db : DB) (userId : jsval)
    (gameUuid : string) (playerLocation : string) (game : Game) :
  truthy userId = true ->
  find_game gameUuid db = Some game ->
  current_turn game = userId ->
  0 < boneyard_count game ->
  NoDup (map titleID (GameTiles db)) ->
  filter (fun t => tile_gameID t = gameID game /\ location t = "boneyard") (GameTiles db)
  <> [] ->
  let db' := (draw_route_any pick userId gameUuid playerLocation db).1 in
  exists drawn a c,
    tile_gameID drawn = gameID game /\ location drawn = "boneyard"
    /\ GameTiles db = a ++ drawn :: c
    /\ GameTiles db' = a ++ set_location playerLocation drawn :: c
    /\ (draw_route_any pick userId gameUuid playerLocation db).2
       = DrawOk (set_location playerLocation drawn) (boneyard_count game - 1)
    /\ find_game gameUuid db'
       = Some (set_current_turn (nextTurnPlayerId game)
                 (set_boneyard_count (boneyard_count game - 1) game)).
Proof.
  intros Hauth Hfind Hturn Hpos Hnd Hrows db'. subst db'.
  destruct (draw_route_any_accepts pick db userId gameUuid playerLocation game
              Hauth Hfind Hturn Hpos Hnd Hrows) as (drawn & a & c & Hdrawn & Hts & Hdraw).
  exists drawn, a, c.
  assert (Hin : drawn ∈ filter (fun t => tile_gameID t = gameID game
                                         /\ location t = "boneyard") (GameTiles db))
    by (by eapply list_elem_of_lookup_2).
  apply list_elem_of_filter in Hin as [[Hg Hl] _].
  split; [exact Hg|]. split; [exact Hl|]. split; [exact Hts|].
  rewrite Hdraw. cbn [fst snd GameTiles]. split; [reflexivity|]. split; [reflexivity|].
  by apply (find_game_updated gameUuid db game
              (fun g => set_current_turn (nextTurnPlayerId game)
                          (set_boneyard_count (boneyard_count game - 1) g))).
Qed.

Lemma draw_moves_one_boneyard_row_witness :
  let db' := (draw_route_any 16 (JNum 2) "g" "player2_hand" Scenario.opened_db).1 in
  exists drawn,
    (draw_route_any 16 (JNum 2) "g" "player2_hand" Scenario.opened_db).2
    = DrawOk (set_location "player2_hand" drawn) 13
    /\ location drawn = "boneyard"
    /\ find_game "g" db'
       = Some (mkGame 1 "g" (JNum 1) (JNum 2) (JNum 1) "active" (JNum 0) 13).
Proof.
  destruct (draw_moves_one_boneyard_row 16 Scenario.opened_db (JNum 2) "g" "player2_hand"
              (mkGame 1 "g" (JNum 1) (JNum 2) (JNum 2) "active" (JNum 0) 14))
    as (drawn & a & c & _ & H1 & _ & _ & H2 & H3).
  - reflexivity.
  - vm_compute. reflexivity.
  - reflexivity.
  - reflexivity.
  - apply keys_distinct_by_evaluation. vm_compute. reflexivity.
  - vm_compute. discriminate.
  - exists drawn. split; [exact H2|]. split; [exact H1 | exact H3].
Defined.

Lemma find_game_force_end_none (u u' : string) (w : jsval) (db : DB) :
  find_game u db = None -> find_game u (force_end u' w db) = None.
Proof.
  unfold find_game, force_end, with_games. cbn [Games].
  rewrite (filter_update_where _ (fun g => game_uuid g = u)) by (intros x; reflexivity).
  unfold update_where.
  destruct (filter (fun g => game_uuid g = u) (Games db)) as [|x [|y l]];
    [reflexivity | discriminate | reflexivity].
Qed.

(** X6: the routes that move tiles do not read the status of the game.  A
    game that has been ended is completed in the store, and a play, a draw
    and a pass on it are answered as on the game before it was ended. *)
Theorem ended_game_still_takes_moves (db : DB) (ender userId winnerId : jsval)
    (gameUuid : string) (game : Game) (b : PlayBody) (playerLocation : string) :
  truthy ender = true ->
  find_game gameUuid db = Some game ->
  let db1 := (end_route ender gameUuid winnerId db).1 in
  (exists g, find_game gameUuid db1 = Some g /\ status g = "completed")
  /\ (play_route userId gameUuid b db1).2 = (play_route userId gameUuid b db).2
  /\ (draw_route userId gameUuid playerLocation db1).2
     = (draw_route userId gameUuid playerLocation db).2
  /\ (pass_route userId gameUuid db1).2 = (pass_route userId gameUuid db).2.
Proof.
  intros Hender Hfind db1. subst db1.
  unfold end_route. rewrite Hender. cbn [negb fst].
  pose proof (find_game_force_end gameUuid winnerId db game Hfind) as Hfind1.
  split; [by eexists|].
  assert (Hts : GameTiles (force_end gameUuid winnerId db) = GameTiles db) by reflexivity.
  split; [|split].
  - unfold play_route. rewrite Hfind, Hfind1, Hts.
    cbn [current_turn player1_id player2_id gameID set_completed].
    destruct (negb (truthy userId)); [reflexivity|].
    destruct (strict_ne (current_turn game) userId); [reflexivity|].
    destruct (single _); [|reflexivity].
    destruct (single _); reflexivity.
  - unfold draw_route. rewrite Hfind, Hfind1, Hts.
    cbn [current_turn player1_id player2_id gameID boneyard_count set_completed].
    destruct (negb (truthy userId)); [reflexivity|].
    destruct (strict_ne (current_turn game) userId); [reflexivity|].
    destruct (Z.leb (boneyard_count game) 0); [reflexivity|].
    destruct (filter _ (GameTiles db)); [reflexivity|].
    destruct (single _); reflexivity.
  - unfold pass_route. rewrite Hfind, Hfind1.
    cbn [current_turn player1_id player2_id gameID set_completed].
    destruct (negb (truthy userId)); [reflexivity|].
    destruct (strict_ne (current_turn game) userId); reflexivity.
Qed.

Lemma ended_game_still_takes_moves_witness :
  let db1 := (end_route (JNum 1) "g" (JNum 1) Scenario.opened_db).1 in
  (exists g, find_game "g" db1 = Some g /\ status g = "completed")
  /\ (play_route (JNum 2) "g" (Scenario.body 8 "right" 1) db1).2
     = PlayOk (mkTile 8 1 1 2 "board" 1) (JNum 1).
Proof.
  destruct (ended_game_still_takes_moves Scenario.opened_db (JNum 1) (JNum 2) (JNum 1) "g"
              (mkGame 1 "g" (JNum 1) (JNum 2) (JNum 2) "active" (JNum 0) 14)
              (Scenario.body 8 "right" 1) "player2_hand") as (H1 & H2 & _).
  - reflexivity.
  - vm_compute. reflexivity.
  - split; [exact H1|]. rewrite H2. vm_compute. reflexivity.
Defined.

End DrawAndEnd.

(** ** The challenge handler: the deal, and the life of a challenge *)

Section ChallengeLife.
Import ChallengeHandler AcceptSteps.

Lemma number_tiles_values (gid n : Z) (l : list TileToInsert) :
  map (fun t => (top_value t, bottom_value t)) (number_tiles gid n l)
  = map (fun s => (value0 s, value1 s)) l.
Proof.
  revert n. induction l as [|s l IH]; intros n; [reflexivity|].
  cbn. by rewrite IH.
Qed.

Lemma to_insert_values (loc : string) (l : list (Z * Z)) :
  map (fun s => (value0 s, value1 s)) (map (to_insert loc) l) = l.
Proof.
  induction l as [|[a b] l IH]; [reflexivity|]. cbn. by rewrite IH.
Qed.

(** X7: whatever the random source returns, the rows stored for an
    accepted challenge carry each of the 28 dominoes [i|j], i <= j <= 6,
    exactly once. *)
Theorem accepted_challenge_deals_the_whole_set (st : State) (db : DB) (sid cid : string)
    (random : nat -> nat) (gameUuid : string) (ch : Challenge) :
  activeChallenges st !! cid = Some ch ->
  let db' := (accept_challenge sid cid random gameUuid st db).1.2 in
  exists new,
    GameTiles db' = GameTiles db ++ new
    /\ map (fun t => (top_value t, bottom_value t)) new ≡ₚ domino_set
    /\ NoDup (map (fun t => (top_value t, bottom_value t)) new)
    /\ forall i j, (i, j) ∈ domino_set <-> 0 <= i <= j /\ j <= 6.
Proof.
  intros Hch db'. subst db'. unfold accept_challenge. rewrite Hch.
  cbn [insert_game insert_tiles fst snd GameTiles gameID next_titleID].
  eexists. split; [reflexivity|].
  destruct (generateAndShuffleDominoes_perm random) as [Hperm Hnd].
  assert (Hvals : map (fun t => (top_value t, bottom_value t))
            (number_tiles (next_gameID db) (next_titleID db)
               (map (to_insert "player1_hand") (take 7 (generateAndShuffleDominoes random))
                ++ map (to_insert "player2_hand")
                       (take 7 (drop 7 (generateAndShuffleDominoes random)))
                ++ map (to_insert "boneyard")
                       (drop 7 (drop 7 (generateAndShuffleDominoes random)))))
          = generateAndShuffleDominoes random).
  { rewrite number_tiles_values, !map_app, !to_insert_values.
    by rewrite !take_drop. }
  rewrite Hvals. split; [exact Hperm|]. split; [by rewrite Hperm|].
  intros i j. split.
  - intros Hin.
    assert (Hb : forallb (fun p => Z.leb 0 p.1 && Z.leb p.1 p.2 && Z.leb p.2 6) domino_set
                 = true) by (vm_compute; reflexivity).
    rewrite forallb_forall in Hb. apply list_elem_of_In in Hin.
    specialize (Hb _ Hin). cbn in Hb.
    apply andb_true_iff in Hb as [Hb H3]. apply andb_true_iff in Hb as [H1 H2].
    apply Z.leb_le in H1, H2, H3. lia.
  - intros [[Hi Hij] Hj].
    assert (Hc : (i = 0 \/ i = 1 \/ i = 2 \/ i = 3 \/ i = 4 \/ i = 5 \/ i = 6)
                 /\ (j = 0 \/ j = 1 \/ j = 2 \/ j = 3 \/ j = 4 \/ j = 5 \/ j = 6)) by lia.
    destruct Hc as [Hci Hcj].
    repeat (destruct Hci as [->|Hci]); try subst i;
      repeat (destruct Hcj as [->|Hcj]); try subst j; try lia;
      refine (bool_decide_eq_true_1 _ _); vm_compute; reflexivity.
Qed.

Lemma accepted_challenge_deals_the_whole_set_witness :
  exists new,
    GameTiles Scenario.started_db = new
    /\ map (fun t => (top_value t, bottom_value t)) new ≡ₚ domino_set.
Proof.
  destruct (accepted_challenge_deals_the_whole_set Scenario.challenged empty_db "sB"
              "1-2-1000" (fun _ => 0%nat) "g"
              (mkChallenge "1-2-1000" (JNum 1) (JStr "alice") (JStr "Alice") (JNum 2)
                           (JStr "bob") 1000))
    as (new & H1 & H2 & _).
  - vm_compute. reflexivity.
  - exists new. split; [exact H1 | exact H2].
Defined.

(** X8: a challenge is answered once its handler has ended.  After an
    accept-challenge handler for the challenge has reached its end, where
    it removes the challenge, or after a decline-challenge for it has been
    handled, a further accept-challenge for the id is refused at its
    check with the error and stores nothing, and a further decline does
    nothing.  (While an accept handler still waits for the store the
    challenge is there, and this does not hold.) *)
Theorem challenge_is_answered_once (st st' : State) (cid : string) (p : Pending) :
  (pd_challengeId p = cid /\ st' = (accept_finish p st).1)
  \/ st' = (decline_challenge cid st).1 ->
  forall (sid' : string) (random' : nat -> nat) (gameUuid' : string) (db' : DB),
    accept_begin sid' cid random' gameUuid' st' db'
    = (None, db', [(ToSocket sid', challenge_error "Challenge not found or expired")])
    /\ accept_challenge sid' cid random' gameUuid' st' db'
       = (st', db', [(ToSocket sid', challenge_error "Challenge not found or expired")])
    /\ decline_challenge cid st' = (st', []).
Proof.
  intros Hst' sid' random' gameUuid' db'.
  assert (Hgone : activeChallenges st' !! cid = None).
  { destruct Hst' as [[<- ->] | ->].
    - unfold accept_finish. cbn [fst activeChallenges]. apply lookup_delete_eq.
    - unfold decline_challenge.
      destruct (activeChallenges st !! cid) as [ch|] eqn:Hch; [|exact Hch].
      cbn [fst activeChallenges]. apply lookup_delete_eq. }
  unfold accept_begin, accept_challenge, decline_challenge. by rewrite Hgone.
Qed.

Lemma challenge_is_answered_once_witness :
  accept_challenge "sB" "1-2-1000" (fun _ => 1%nat) "h" Scenario.started.1 Scenario.started_db
  = (Scenario.started.1, Scenario.started_db,
     [(ToSocket "sB", challenge_error "Challenge not found or expired")]).
Proof.
  destruct (accept_begin "sB" "1-2-1000" (fun _ => 0%nat) "g" Scenario.challenged empty_db)
    as [[[p|] db1] out] eqn:E; [|vm_compute in E; discriminate].
  assert (Hp : pd_challengeId p = "1-2-1000" /\ (accept_finish p Scenario.challenged).1
               = Scenario.started.1).
  { vm_compute in E. injection E as <- _ _. split; vm_compute; reflexivity. }
  destruct Hp as [Hp1 Hp2].
  destruct (challenge_is_answered_once Scenario.challenged Scenario.started.1 "1-2-1000" p
              (or_introl (conj Hp1 (eq_sym Hp2)))
              "sB" (fun _ => 1%nat) "h" Scenario.started_db) as (_ & H & _).
  exact H.
Defined.

(** X9: the sweep keeps a challenge for two minutes, the bound included.
    A challenge sent at [sent] is still there after a sweep at [now] when
    [now - sent <= 120000]; after a later sweep it cannot be accepted. *)
Theorem challenge_expires_after_two_minutes (Number : jsval -> option jsval) (sid : string)
    (o : Offer) (sent now : Z) (st : State) :
  let cid := (to_string (of_challengerId o) ++ "-" ++ to_string (of_targetId o)
              ++ "-" ++ pretty sent)%string in
  let st1 := sweep now (send_challenge Number sid o sent st).1 in
  (now - sent <= 120000 ->
   exists ch, activeChallenges st1 !! cid = Some ch
              /\ challengerId ch = of_challengerId o /\ targetId ch = of_targetId o)
  /\ (120000 < now - sent ->
      forall (sid' : string) (random : nat -> nat) (gameUuid : string) (db : DB),
        accept_challenge sid' cid random gameUuid st1 db
        = (st1, db, [(ToSocket sid', challenge_error "Challenge not found or expired")])).
Proof.
  intros cid st1.
  assert (Hst : activeChallenges (send_challenge Number sid o sent st).1 !! cid
                = Some (mkChallenge cid (of_challengerId o) (of_challengerName o)
                          (of_challengerDisplayName o) (of_targetId o) (of_targetName o) sent)).
  { unfold send_challenge. fold cid. destruct (slot_truthy _); cbn; apply lookup_insert_eq. }
  split.
  - intros Hage.
    exists (mkChallenge cid (of_challengerId o) (of_challengerName o)
              (of_challengerDisplayName o) (of_targetId o) (of_targetName o) sent).
    split; [|split; reflexivity].
    subst st1. unfold sweep. cbn [activeChallenges].
    apply map_lookup_filter_Some. split; [exact Hst|]. cbn. lia.
  - intros Hage sid' random gameUuid db.
    assert (Hgone : activeChallenges st1 !! cid = None).
    { subst st1. unfold sweep. cbn [activeChallenges].
      apply map_lookup_filter_None. right. intros ch Hch.
      rewrite Hst in Hch. injection Hch as <-. cbn. lia. }
    unfold accept_challenge. by rewrite Hgone.
Qed.

Lemma challenge_expires_after_two_minutes_witness :
  (exists ch, activeChallenges (sweep 121000 Scenario.challenged) !! "1-2-1000" = Some ch
              /\ challengerId ch = JNum 1 /\ targetId ch = JNum 2)
  /\ accept_challenge "sB" "1-2-1000" (fun _ => 0%nat) "g"
       (sweep 121001 Scenario.challenged) empty_db
     = (sweep 121001 Scenario.challenged, empty_db,
        [(ToSocket "sB", challenge_error "Challenge not found or expired")]).
Proof.
  split.
  - destruct (challenge_expires_after_two_minutes Scenario.number_of "sA"
                Scenario.offer_to_bob 1000 121000 Scenario.lobby) as [H _].
    apply H. reflexivity.
  - destruct (challenge_expires_after_two_minutes Scenario.number_of "sA"
                Scenario.offer_to_bob 1000 121001 Scenario.lobby) as [_ H].
    apply H. reflexivity.
Defined.



End ChallengeLife.

(** ** The game handler: leaving, joining a full game *)

Section RoomAndLeave.
Import GameHandler.

(** What leave-game does to a game that is on the table, with the winner
    it writes: the other player for a socket in the first slot, player 1
    for every other socket. *)
Lemma leave_game_effect (sid gid : string) (st : State) (db : DB) (game : LiveGame) :
  activeGames st !! gid = Some game ->
  (player1SocketId game = Some sid \/ player2SocketId game = Some sid
   \/ player1Id game <> JNull) ->
  let w := if bool_decide (player1SocketId game = Some sid)
           then player2Id game else player1Id game in
  (leave_game sid gid st db).1.2 = force_end gid w db
  /\ activeGames (leave_game sid gid st db).1.1 = delete gid (activeGames st)
  /\ (leave_game sid gid st db).2
     = (ToSockets (room st gid ∖ {[sid]}), opponent_disconnected)
       :: announce_available (player1Id game) (player2Id game).
Proof.
  intros Hg Hcase w. subst w. unfold leave_game. rewrite Hg.
  set (leaving := if bool_decide (player1SocketId game = Some sid) then player1Id game
                  else if bool_decide (player2SocketId game = Some sid) then player2Id game
                  else JNull).
  assert (Hw : (if strict_eq leaving (player1Id game) then player2Id game
                else player1Id game)
               = if bool_decide (player1SocketId game = Some sid)
                 then player2Id game else player1Id game).
  { subst leaving. unfold strict_eq.
    destruct (bool_decide (player1SocketId game = Some sid)) eqn:H1.
    - by rewrite bool_decide_true.
    - destruct (bool_decide (player2SocketId game = Some sid)) eqn:H2.
      + destruct (decide (player2Id game = player1Id game)) as [E|E];
          [rewrite bool_decide_true by done; by rewrite E | by rewrite bool_decide_false].
      + apply bool_decide_eq_false in H1, H2.
        destruct Hcase as [?|[?|Hn]]; [done | done |].
        rewrite bool_decide_false; [reflexivity | congruence]. }
  rewrite Hw.
  destruct (truthy leaving); [destruct (disconnectTimeouts st !! _)|]; repeat split.
Qed.

(** X11: a player who leaves loses.  When the socket of one of the two
    slots sends leave-game, the game is completed in the store with the
    player of the other slot as winner, the game is taken off the table
    and the rest of the room is told. *)
Theorem leaving_player_forfeits (sid gid : string) (st : State) (db : DB)
    (game : LiveGame) (g : Game) (other : jsval) :
  activeGames st !! gid = Some game ->
  find_game gid db = Some g ->
  (player1SocketId game = Some sid /\ other = player2Id game)
  \/ (player1SocketId game <> Some sid /\ player2SocketId game = Some sid
      /\ other = player1Id game) ->
  other <> JUndef ->
  let r := leave_game sid gid st db in
  (exists g', find_game gid r.1.2 = Some g' /\ status g' = "completed" /\ winner_id g' = other)
  /\ activeGames r.1.1 !! gid = None
  /\ (ToSockets (room st gid ∖ {[sid]}), opponent_disconnected) ∈ r.2.
Proof.
  intros Hg Hfind Hslot Hdef r. subst r.
  destruct (leave_game_effect sid gid st db game Hg) as (Hdb & Hact & Hout);
    [destruct Hslot as [[? _]|(_ & ? & _)]; by auto|].
  rewrite Hdb, Hact, Hout. split; [|split; [apply lookup_delete_eq | by left]].
  assert (Hw : (if bool_decide (player1SocketId game = Some sid)
                then player2Id game else player1Id game) = other).
  { destruct Hslot as [[H1 ->]|(H1 & _ & ->)];
      [by rewrite bool_decide_true | by rewrite bool_decide_false]. }
  rewrite Hw, (find_game_force_end gid other db g Hfind).
  eexists. split; [reflexivity|]. split; [reflexivity|].
  cbn. by rewrite bool_decide_false.
Qed.

Lemma leaving_player_forfeits_witness :
  let st := (run Scenario.both_joined initial Scenario.started_db).1.1 in
  let r := leave_game "sB" "g" st Scenario.started_db in
  exists g', find_game "g" r.1.2 = Some g' /\ status g' = "completed"
             /\ winner_id g' = JNum 1.
Proof.
  destruct (leaving_player_forfeits "sB" "g"
              (run Scenario.both_joined initial Scenario.started_db).1.1
              Scenario.started_db
              (mkLiveGame (Some "sA") (JNum 1) (Some "sB") (JNum 2))
              (mkGame 1 "g" (JNum 1) (JNum 2) (JNum 1) "active" (JNum 0) 14)
              (JNum 1)) as [H _].
  - vm_compute. reflexivity.
  - vm_compute. reflexivity.
  - right. split; [discriminate|]. split; reflexivity.
  - discriminate.
  - exact H.
Defined.

(** X12: leave-game does not ask who sends it.  A socket that holds
    neither slot of a game ends it all the same: the game is completed
    with player 1 as winner and taken off the table, and both sockets of
    the players are told that their opponent has disconnected. *)
Theorem any_socket_can_end_a_game (sid gid : string) (st : State) (db : DB)
    (game : LiveGame) (g : Game) :
  activeGames st !! gid = Some game ->
  find_game gid db = Some g ->
  player1SocketId game <> Some sid ->
  player2SocketId game <> Some sid ->
  player1Id game <> JNull ->
  player1Id game <> JUndef ->
  let r := leave_game sid gid st db in
  (exists g', find_game gid r.1.2 = Some g' /\ status g' = "completed"
              /\ winner_id g' = player1Id game)
  /\ activeGames r.1.1 !! gid = None
  /\ (ToSockets (room st gid ∖ {[sid]}), opponent_disconnected) ∈ r.2.
Proof.
  intros Hg Hfind H1 H2 Hnull Hdef r. subst r.
  destruct (leave_game_effect sid gid st db game Hg) as (Hdb & Hact & Hout);
    [by auto|].
  rewrite Hdb, Hact, Hout. split; [|split; [apply lookup_delete_eq | by left]].
  rewrite bool_decide_false by assumption.
  rewrite (find_game_force_end gid (player1Id game) db g Hfind).
  eexists. split; [reflexivity|]. split; [reflexivity|].
  cbn. by rewrite bool_decide_false.
Qed.

Lemma any_socket_can_end_a_game_witness :
  let st := (run Scenario.both_joined initial Scenario.started_db).1.1 in
  let r := leave_game "sC" "g" st Scenario.started_db in
  (exists g', find_game "g" r.1.2 = Some g' /\ status g' = "completed"
              /\ winner_id g' = JNum 1)
  /\ activeGames r.1.1 !! "g" = None.
Proof.
  destruct (any_socket_can_end_a_game "sC" "g"
              (run Scenario.both_joined initial Scenario.started_db).1.1
              Scenario.started_db
              (mkLiveGame (Some "sA") (JNum 1) (Some "sB") (JNum 2))
              (mkGame 1 "g" (JNum 1) (JNum 2) (JNum 1) "active" (JNum 0) 14))
    as (H1 & H2 & _).
  - vm_compute. reflexivity.
  - vm_compute. reflexivity.
  - discriminate.
  - discriminate.
  - discriminate.
  - discriminate.
  - exact (conj H1 H2).
Defined.

(** X13: a game with both slots taken still lets a third socket into its
    room.  The entry of the game stays as it is, and the socket receives
    what the players relay from then on. *)
Theorem third_socket_joins_the_room (sid gid : string) (playerId : jsval) (st : State)
    (game : LiveGame) :
  activeGames st !! gid = Some game ->
  slot_truthy (player1SocketId game) = true ->
  slot_truthy (player2SocketId game) = true ->
  player1Id game <> playerId ->
  player2Id game <> playerId ->
  let st' := join_game sid gid playerId st in
  activeGames st' !! gid = Some game
  /\ forall (sender : string) (m : message), sender <> sid ->
       exists members, (relay sender gid m st').2 = [(ToSockets members, m)]
                       /\ sid ∈ members.
Proof.
  intros Hg Hs1 Hs2 Hp1 Hp2 st'. subst st'. unfold join_game. rewrite Hg.
  change (default empty_game (Some game)) with game.
  assert (Hslot : assign_slot sid playerId game = game).
  { unfold assign_slot, strict_eq.
    rewrite !bool_decide_false by assumption. by rewrite Hs1, Hs2. }
  rewrite Hslot.
  destruct (disconnectTimeouts st !! timeoutKey gid playerId);
    (split; [cbn; apply lookup_insert_eq|]);
    intros sender m Hsender; eexists; (split; [reflexivity|]);
    unfold room; cbn; rewrite lookup_insert_eq; cbn; set_solver.
Qed.

Lemma third_socket_joins_the_room_witness :
  let st := (run Scenario.both_joined initial Scenario.started_db).1.1 in
  let st' := join_game "sC" "g" (JNum 3) st in
  activeGames st' !! "g" = Some (mkLiveGame (Some "sA") (JNum 1) (Some "sB") (JNum 2))
  /\ exists members,
       (relay "sA" "g" (opponent_passed (JNum 1)) st').2
       = [(ToSockets members, opponent_passed (JNum 1))] /\ "sC" ∈ members.
Proof.
  destruct (third_socket_joins_the_room "sC" "g" (JNum 3)
              (run Scenario.both_joined initial Scenario.started_db).1.1
              (mkLiveGame (Some "sA") (JNum 1) (Some "sB") (JNum 2))) as [H1 H2].
  - vm_compute. reflexivity.
  - reflexivity.
  - reflexivity.
  - discriminate.
  - discriminate.
  - split; [exact H1|]. apply H2. discriminate.
Defined.

End RoomAndLeave.

(** ** The game handler: the disconnect loop and its timers *)

Section DisconnectLoop.
Import GameHandler ForfeitTerms.

Lemma disconnect_game_cases (sid gid : string) (game : LiveGame) (st : State) :
  disconnect_game sid gid game st
  = if truthy (dropped sid game)
    then mkState (<[gid := emptied sid game]> (activeGames st))
                 (<[timeoutKey gid (dropped sid game) := next_handle st]>
                    (disconnectTimeouts st))
                 (<[next_handle st := timer_of sid gid game]> (armed st))
                 (S (next_handle st)) (awaiting st) (rooms st)
    else mkState (<[gid := emptied sid game]> (activeGames st)) (disconnectTimeouts st)
                 (armed st) (next_handle st) (awaiting st) (rooms st).
Proof.
  unfold disconnect_game, dropped, emptied, timer_of, dropped.
  destruct (bool_decide (player1SocketId game = Some sid)); [reflexivity|].
  destruct (bool_decide (player2SocketId game = Some sid)); reflexivity.
Qed.

Lemma emptied_ids (sid : string) (game : LiveGame) :
  player1Id (emptied sid game) = player1Id game
  /\ player2Id (emptied sid game) = player2Id game.
Proof.
  unfold emptied. destruct (bool_decide _); [by split|].
  destruct (bool_decide _); by split.
Qed.

Lemma disconnect_loop (sid gid : string) (st0 : State) (m : gmap string LiveGame) :
  loop_done sid gid st0 (map_fold (disconnect_game sid) st0 m) m.
Proof.
  apply (map_fold_weak_ind (fun r m => loop_done sid gid st0 r m)).
  - unfold loop_done. rewrite fmap_empty, (left_id_L ∅ (∪)).
    repeat split; try done; try (intros _; by rewrite lookup_empty).
  - intros g game m' r Hfresh (Hact & Hrooms & Hawait & Htimers & Hone).
    rewrite disconnect_game_cases.
    assert (Hact' : <[g := emptied sid game]> (activeGames r)
                    = (emptied sid <$> <[g := game]> m') ∪ activeGames st0)
      by (by rewrite Hact, fmap_insert, insert_union_l).
    destruct (truthy (dropped sid game)) eqn:Hhit.
    + split; [exact Hact'|]. split; [exact Hrooms|]. split; [exact Hawait|]. split.
      * intros g' game' Hg' Hhit'. cbn [next_handle armed].
        destruct (decide (g' = g)) as [->|Hne].
        { rewrite lookup_insert_eq in Hg'. injection Hg' as <-.
          exists (next_handle r). split; [lia | apply lookup_insert_eq]. }
        rewrite lookup_insert_ne in Hg' by done.
        destruct (Htimers g' game' Hg' Hhit') as (h & Hlt & Hh).
        exists h. split; [lia|]. rewrite lookup_insert_ne by lia. exact Hh.
      * intros Hothers. cbn [disconnectTimeouts armed next_handle].
        destruct (decide (g = gid)) as [->|Hne].
        { rewrite lookup_insert_eq. intros _.
          assert (Hm' : forall g' game', m' !! g' = Some game' -> g' <> gid ->
                          truthy (dropped sid game') = false).
          { intros g' game' Hg' Hne. apply (Hothers g' game'); [|done].
            rewrite lookup_insert_ne; [done | congruence]. }
          specialize (Hone Hm'). rewrite Hfresh in Hone.
          destruct Hone as (-> & -> & ->). done. }
        exfalso. specialize (Hothers g game). rewrite lookup_insert_eq in Hothers.
        specialize (Hothers eq_refl Hne). congruence.
    + split; [exact Hact'|]. split; [exact Hrooms|]. split; [exact Hawait|]. split.
      * intros g' game' Hg' Hhit'. cbn [next_handle armed].
        destruct (decide (g' = g)) as [->|Hne].
        { rewrite lookup_insert_eq in Hg'. injection Hg' as <-. congruence. }
        rewrite lookup_insert_ne in Hg' by done.
        exact (Htimers g' game' Hg' Hhit').
      * intros Hothers. cbn [disconnectTimeouts armed next_handle].
        assert (Hm' : forall g' game', m' !! g' = Some game' -> g' <> gid ->
                        truthy (dropped sid game') = false).
        { intros g' game' Hg' Hne. apply (Hothers g' game'); [|done].
          rewrite lookup_insert_ne; [done | congruence]. }
        specialize (Hone Hm').
        destruct (decide (g = gid)) as [->|Hne].
        { rewrite lookup_insert_eq. congruence. }
        rewrite lookup_insert_ne by done. exact Hone.
Qed.

Lemma room_after_disconnect (sid gid : string) (st : State) :
  room (disconnect sid st) gid = room st gid ∖ {[sid]}.
Proof.
  unfold disconnect.
  destruct (disconnect_loop sid gid
              (mkState (activeGames st) (disconnectTimeouts st) (armed st) (next_handle st)
                       (awaiting st) ((fun members => members ∖ {[sid]}) <$> rooms st))
              (activeGames st)) as (_ & Hrooms & _).
  unfold room. rewrite Hrooms. cbn [rooms]. rewrite lookup_fmap.
  destruct (rooms st !! gid); cbn; [reflexivity|].
  apply set_eq. intros x. rewrite elem_of_difference, elem_of_empty. tauto.
Qed.

Lemma activeGames_after_disconnect (sid gid : string) (st : State) (game : LiveGame) :
  activeGames st !! gid = Some game ->
  activeGames (disconnect sid st) !! gid = Some (emptied sid game).
Proof.
  intros Hg. unfold disconnect.
  destruct (disconnect_loop sid gid
              (mkState (activeGames st) (disconnectTimeouts st) (armed st) (next_handle st)
                       (awaiting st) ((fun members => members ∖ {[sid]}) <$> rooms st))
              (activeGames st)) as (Hact & _).
  rewrite Hact. apply lookup_union_Some_l. by rewrite lookup_fmap, Hg.
Qed.

(** X14: a dropped player forfeits when the timer fires.  Whatever other
    games are on the table, the disconnect of a socket that holds a slot
    of a game arms a timer for that game; when it fires, the game is
    completed in the store with the player of the other slot as winner,
    and when the store has answered, the game is off the table and the
    rest of its room is told. *)
Theorem dropped_player_forfeits_when_the_timer_fires (sid gid : string) (st : State)
    (db : DB) (game : LiveGame) (g : Game) (pid other : jsval) :
  activeGames st !! gid = Some game ->
  find_game gid db = Some g ->
  (player1SocketId game = Some sid /\ pid = player1Id game /\ other = player2Id game)
  \/ (player1SocketId game <> Some sid /\ player2SocketId game = Some sid
      /\ pid = player2Id game /\ other = player1Id game) ->
  truthy pid = true ->
  other <> JUndef ->
  let st1 := disconnect sid st in
  exists h,
    armed st1 !! h = Some (mkTimer gid pid (timeoutKey gid pid))
    /\ (exists g', find_game gid (timer_fire h st1 db).2 = Some g'
                   /\ status g' = "completed" /\ winner_id g' = other)
    /\ activeGames (timer_resume (length (awaiting st)) (timer_fire h st1 db).1).1 !! gid
       = None
    /\ (ToSockets (room st gid ∖ {[sid]}), opponent_disconnected)
       ∈ (timer_resume (length (awaiting st)) (timer_fire h st1 db).1).2.
Proof.
  intros Hg Hfind Hslot Hpid Hother st1.
  assert (Hdropped : dropped sid game = pid).
  { unfold dropped. destruct Hslot as [(H1 & -> & _)|(H1 & H2 & -> & _)].
    - by rewrite bool_decide_true.
    - by rewrite bool_decide_false, bool_decide_true. }
  assert (Hwin : (if strict_eq pid (player1Id game) then player2Id game else player1Id game)
                 = other).
  { unfold strict_eq. destruct Hslot as [(_ & -> & ->)|(_ & _ & -> & ->)].
    - by rewrite bool_decide_true.
    - case_bool_decide as E; [by rewrite E | reflexivity]. }
  pose proof (activeGames_after_disconnect sid gid st game Hg) as Hact1.
  pose proof (room_after_disconnect sid gid st) as Hroom1.
  assert (Hwait1 : awaiting st1 = awaiting st).
  { subst st1. unfold disconnect.
    destruct (disconnect_loop sid gid
                (mkState (activeGames st) (disconnectTimeouts st) (armed st) (next_handle st)
                         (awaiting st) ((fun members => members ∖ {[sid]}) <$> rooms st))
                (activeGames st)) as (_ & _ & Hw & _). exact Hw. }
  assert (Harmed : exists h, armed st1 !! h = Some (timer_of sid gid game)).
  { subst st1. unfold disconnect.
    destruct (disconnect_loop sid gid
                (mkState (activeGames st) (disconnectTimeouts st) (armed st) (next_handle st)
                         (awaiting st) ((fun members => members ∖ {[sid]}) <$> rooms st))
                (activeGames st)) as (_ & _ & _ & Ht & _).
    destruct (Ht gid game Hg) as (h & _ & Hh); [by rewrite Hdropped|]. by exists h. }
  destruct Harmed as (h & Hh). unfold timer_of in Hh. rewrite Hdropped in Hh.
  exists h. split; [exact Hh|].
  fold st1 in Hact1, Hroom1.
  destruct (emptied_ids sid game) as [Hp1 Hp2].
  unfold timer_fire. rewrite Hh. cbn [tm_gameId tm_disconnectedPlayerId tm_timeoutKey].
  rewrite Hact1, Hp1, Hp2, Hwin. cbn [fst snd]. split.
  - rewrite (find_game_force_end gid other db g Hfind).
    eexists. split; [reflexivity|]. split; [reflexivity|].
    cbn. by rewrite bool_decide_false.
  - unfold timer_resume. cbn [awaiting]. rewrite Hwait1.
    rewrite lookup_app_r by lia. rewrite Nat.sub_diag. cbn [lookup list_lookup fst snd
      su_gameId su_timeoutKey su_player1Id su_player2Id activeGames].
    split; [apply lookup_delete_eq|].
    unfold room in *. cbn [rooms]. rewrite Hroom1. by left.
Qed.

Lemma dropped_player_forfeits_when_the_timer_fires_witness :
  let st := (run Scenario.both_joined initial Scenario.started_db).1.1 in
  let st1 := disconnect "sA" st in
  exists h,
    armed st1 !! h = Some (mkTimer "g" (JNum 1) (timeoutKey "g" (JNum 1)))
    /\ exists g', find_game "g" (timer_fire h st1 Scenario.started_db).2 = Some g'
                  /\ status g' = "completed" /\ winner_id g' = JNum 2.
Proof.
  destruct (dropped_player_forfeits_when_the_timer_fires "sA" "g"
              (run Scenario.both_joined initial Scenario.started_db).1.1
              Scenario.started_db
              (mkLiveGame (Some "sA") (JNum 1) (Some "sB") (JNum 2))
              (mkGame 1 "g" (JNum 1) (JNum 2) (JNum 1) "active" (JNum 0) 14)
              (JNum 1) (JNum 2)) as (h & H1 & H2 & _).
  - vm_compute. reflexivity.
  - vm_compute. reflexivity.
  - left. repeat split.
  - reflexivity.
  - discriminate.
  - exists h. split; [exact H1 | exact H2].
Defined.

(** X15: a player who joins again in time keeps the game.  For a socket
    that is in one game only, the disconnect arms the timer with the next
    handle; when the player joins the game again on a new socket, the
    slot holds the new socket, the timer is cleared, and the handle does
    nothing when it comes due. *)
Theorem rejoining_player_keeps_the_game (sid sid' gid : string) (st : State)
    (game game' : LiveGame) (pid : jsval) :
  activeGames st !! gid = Some game ->
  (forall gid' other, activeGames st !! gid' = Some other -> gid' <> gid ->
     player1SocketId other <> Some sid /\ player2SocketId other <> Some sid) ->
  (player1SocketId game = Some sid /\ pid = player1Id game
   /\ game' = mkLiveGame (Some sid') (player1Id game) (player2SocketId game) (player2Id game))
  \/ (player1SocketId game <> Some sid /\ player2SocketId game = Some sid
      /\ pid = player2Id game /\ player1Id game <> pid
      /\ game' = mkLiveGame (player1SocketId game) (player1Id game) (Some sid')
                            (player2Id game)) ->
  truthy pid = true ->
  let st1 := disconnect sid st in
  let st2 := join_game sid' gid pid st1 in
  armed st1 !! next_handle st = Some (mkTimer gid pid (timeoutKey gid pid))
  /\ activeGames st2 !! gid = Some game'
  /\ armed st2 !! next_handle st = None
  /\ disconnectTimeouts st2 !! timeoutKey gid pid = None
  /\ forall db, timer_fire (next_handle st) st2 db = (st2, db).
Proof.
  intros Hg Hothers Hslot Hpid st1 st2.
  assert (Hdropped : dropped sid game = pid).
  { unfold dropped. destruct Hslot as [(H1 & -> & _)|(H1 & H2 & -> & _)].
    - by rewrite bool_decide_true.
    - by rewrite bool_decide_false, bool_decide_true. }
  assert (Hslot' : assign_slot sid' pid (emptied sid game) = game').
  { unfold assign_slot, emptied, strict_eq.
    destruct Hslot as [(H1 & -> & ->)|(H1 & H2 & -> & Hne & ->)].
    - rewrite (bool_decide_true (player1SocketId game = Some sid)) by done.
      cbn [player1Id player2Id player1SocketId player2SocketId].
      by rewrite bool_decide_true.
    - rewrite (bool_decide_false (player1SocketId game = Some sid)),
        (bool_decide_true (player2SocketId game = Some sid)) by done.
      cbn [player1Id player2Id player1SocketId player2SocketId].
      by rewrite (bool_decide_false (player1Id game = player2Id game)), bool_decide_true. }
  pose proof (activeGames_after_disconnect sid gid st game Hg) as Hact1.
  fold st1 in Hact1.
  assert (Hloop : disconnectTimeouts st1
                  = <[timeoutKey gid pid := next_handle st]> (disconnectTimeouts st)
                  /\ armed st1 = <[next_handle st := mkTimer gid pid (timeoutKey gid pid)]>
                                   (armed st)).
  { subst st1. unfold disconnect.
    destruct (disconnect_loop sid gid
                (mkState (activeGames st) (disconnectTimeouts st) (armed st) (next_handle st)
                         (awaiting st) ((fun members => members ∖ {[sid]}) <$> rooms st))
                (activeGames st)) as (_ & _ & _ & _ & Hone).
    rewrite Hg in Hone. unfold timer_of in Hone. rewrite Hdropped in Hone.
    destruct Hone as (H1 & H2 & _); [|assumption|by split].
    intros g' other Hg' Hne. destruct (Hothers g' other Hg' Hne) as [Ho1 Ho2].
    unfold dropped. by rewrite !bool_decide_false. }
  destruct Hloop as [Htimeouts Harmed].
  split; [rewrite Harmed; apply lookup_insert_eq|].
  assert (Hst2 : activeGames st2 = <[gid := game']> (activeGames st1)
                 /\ disconnectTimeouts st2
                    = delete (timeoutKey gid pid) (disconnectTimeouts st1)
                 /\ armed st2 = delete (next_handle st) (armed st1)).
  { subst st2. unfold join_game. rewrite Hact1.
    change (default empty_game (Some (emptied sid game))) with (emptied sid game).
    rewrite Hslot', Htimeouts, lookup_insert_eq. by cbn. }
  destruct Hst2 as (Ha2 & Ht2 & Hr2).
  assert (Hgone : armed st2 !! next_handle st = None)
    by (rewrite Hr2; apply lookup_delete_eq).
  split; [rewrite Ha2; apply lookup_insert_eq|].
  split; [exact Hgone|].
  split; [rewrite Ht2; apply lookup_delete_eq|].
  intros db. unfold timer_fire. by rewrite Hgone.
Qed.

Lemma rejoining_player_keeps_the_game_witness :
  let st := (run Scenario.both_joined initial Scenario.started_db).1.1 in
  let st2 := join_game "sA2" "g" (JNum 1) (disconnect "sA" st) in
  activeGames st2 !! "g" = Some (mkLiveGame (Some "sA2") (JNum 1) (Some "sB") (JNum 2))
  /\ forall db, timer_fire (next_handle st) st2 db = (st2, db).
Proof.
  destruct (rejoining_player_keeps_the_game "sA" "sA2" "g"
              (run Scenario.both_joined initial Scenario.started_db).1.1
              (mkLiveGame (Some "sA") (JNum 1) (Some "sB") (JNum 2))
              (mkLiveGame (Some "sA2") (JNum 1) (Some "sB") (JNum 2))
              (JNum 1)) as (_ & H1 & _ & _ & H2).
  - vm_compute. reflexivity.
  - intros gid' other Hg' Hne. exfalso.
    change (activeGames (run Scenario.both_joined initial Scenario.started_db).1.1)
      with (<[ "g" := mkLiveGame (Some "sA") (JNum 1) (Some "sB") (JNum 2)]>
              (∅ : gmap string LiveGame)) in Hg'.
    rewrite lookup_insert_ne in Hg' by done. by rewrite lookup_empty in Hg'.
  - left. repeat split.
  - reflexivity.
  - split; [exact H1 | exact H2].
Defined.

End DisconnectLoop.

(** ** The client: what it lays, and what the opponent sees *)

Section ClientChain.
Import GameBoard GameBoardEvents ChainShape.

Lemma linked_snoc (chain : list Tile) (t : Tile) :
  linked chain ->
  (forall y, last chain = Some y -> bottom y = top t) ->
  linked (chain ++ [t]).
Proof.
  induction chain as [|a chain IH]; [by cbn|].
  intros [Ha Hl] Hlast. destruct chain as [|b chain].
  - cbn. split; [|done]. by apply Hlast.
  - split; [exact Ha|]. apply IH; [exact Hl|]. intros y Hy. apply Hlast. exact Hy.
Qed.

Lemma orient_linked (chain : list Tile) (tile newTile : Tile) (side : string)
    (pos : Z) (chain' : list Tile) :
  linked chain ->
  orient chain tile side = Some (newTile, pos, chain') ->
  linked chain'.
Proof.
  intros Hl. destruct chain as [|x chain].
  - cbn. intros [= <- <- <-]. by cbn.
  - destruct (chain_ends x chain) as (r & Hle & Hre). unfold orient. rewrite Hle, Hre.
    assert (Hlast : forall y, last (x :: chain) = Some y -> bottom y = r).
    { intros y Hy. unfold rightEnd in Hre. rewrite Hy in Hre. by injection Hre. }
    case_bool_decide as Hs.
    + destruct (Z.eqb_spec (bottom tile) (top x)) as [E1|E1].
      { intros [= <- <- <-]. split; [exact E1 | exact Hl]. }
      destruct (Z.eqb_spec (top tile) (top x)) as [E2|E2]; [|discriminate].
      intros [= <- <- <-]. split; [exact E2 | exact Hl].
    + destruct (Z.eqb_spec (top tile) r) as [E1|E1].
      { intros [= <- <- <-]. apply (linked_snoc (x :: chain) (keep tile)); [exact Hl|].
        intros y Hy. cbn. rewrite E1. by apply Hlast. }
      destruct (Z.eqb_spec (bottom tile) r) as [E2|E2]; [|discriminate].
      intros [= <- <- <-]. apply (linked_snoc (x :: chain) (flip tile)); [exact Hl|].
      intros y Hy. cbn. rewrite E2. by apply Hlast.
Qed.

(** X16: [playTile] keeps the chain a chain.  Whatever tile and side it
    is called with and whatever the server answers, if the neighbours of
    the chain matched before, they match afterwards. *)
Theorem playTile_keeps_the_chain_linked (tile : Tile) (side : string) (c : Component)
    (db : DB) :
  linked (boardChain c) -> linked (boardChain (playTile tile side c db).1.1).
Proof.
  intros H. unfold playTile.
  destruct (negb (isMyTurn c)); [exact H|].
  destruct (negb (canPlayTile _ _)); [exact H|].
  destruct (negb (truthy (id tile))); [exact H|].
  destruct (orient _ _ _) as [[[newTile pos] chain']|] eqn:E; [|exact H].
  pose proof (orient_linked _ _ _ _ _ _ H E) as H'.
  destruct (play_route _ _ _ _) as [db1 resp].
  destruct resp; try exact H'.
  destruct (bool_decide _); [|exact H'].
  unfold endGame. destruct (end_route _ _ _ _) as [db2 resp2]. destruct resp2; exact H'.
Qed.

Lemma playTile_keeps_the_chain_linked_witness :
  linked (boardChain (playTile (mkCTile (JNum 8) 1 2) "left" Scenario.bob_view
                               Scenario.opened_db).1.1).
Proof.
  apply (playTile_keeps_the_chain_linked (mkCTile (JNum 8) 1 2) "left" Scenario.bob_view
           Scenario.opened_db).
  vm_compute. tauto.
Defined.

(** X17: the check before a move agrees with the move.  [canPlayTile]
    answers true exactly for the tiles that [playTile] can orient on the
    left or on the right of the chain. *)
Theorem canPlayTile_iff_some_side_fits (chain : list Tile) (tile : Tile) :
  canPlayTile chain tile = true
  <-> is_Some (orient chain tile "left") \/ is_Some (orient chain tile "right").
Proof.
  destruct chain as [|x chain].
  - cbn. split; [intros _; left; eexists; reflexivity | reflexivity].
  - destruct (chain_ends x chain) as (r & Hl & Hr).
    unfold canPlayTile, orient. rewrite Hl, Hr.
    rewrite bool_decide_true by reflexivity. rewrite bool_decide_false by discriminate.
    destruct (Z.eqb (bottom tile) (top x)), (Z.eqb (top tile) (top x)),
      (Z.eqb (top tile) r), (Z.eqb (bottom tile) r); cbn;
      (split; [intros ?; first [left; eexists; reflexivity | right; eexists; reflexivity
                               | discriminate]
              | intros [[? ?]|[? ?]]; first [reflexivity | discriminate]]).
Qed.

(** X18: the opponent sees the chain the player sees.  For a legal move
    of the player whose turn it is, [playTile] sends the tile as it was
    laid, and the handler of opponent-played, given that message, leaves
    the opponent's component with the same chain, if the two components
    showed the same chain before. *)
Theorem opponent_sees_the_same_chain (c : Component) (v : View) (db : DB) (tile : Tile)
    (side : string) (game : Game) (row : GameTile) :
  isMyTurn c = true ->
  truthy (id tile) = true ->
  truthy (currentUser_id c) = true ->
  find_game (gameId c) db = Some game ->
  current_turn game = currentUser_id c ->
  NoDup (map titleID (GameTiles db)) ->
  in_hand_of_turn game (id tile) db = Some row ->
  legal_placement (boardChain c) tile side ->
  boardChain (component v) = boardChain c ->
  exists newTile pos,
    head (playTile tile side c db).2 = Some (play_tile (gameId c) newTile side pos)
    /\ (newTile = keep tile \/ newTile = flip tile)
    /\ forall (seen : Z) (db2 : DB),
         boardChain (component (handleOpponentPlayed seen newTile side pos v db2).1.1)
         = boardChain (playTile tile side c db).1.1.
Proof.
  intros Hmy Hid Hauth Hfind Hturn Hnd Hrow Hlegal Hsame.
  destruct (playTile_legal c db tile side game row Hmy Hid Hauth Hfind Hturn Hnd Hrow Hlegal)
    as (newTile & pos & chain' & db1 & E & Hplay & Hchain & _).
  exists newTile, pos. split; [|split].
  - unfold playTile. rewrite Hmy. cbn [negb].
    rewrite (legal_canPlayTile _ _ _ Hlegal). cbn [negb]. rewrite Hid. cbn [negb].
    rewrite E, Hplay.
    destruct (bool_decide _); [|reflexivity].
    unfold endGame. destruct (end_route _ _ _ _) as [db2 resp2]. by destruct resp2.
  - clear -E. destruct (boardChain c) as [|x chain].
    + cbn in E. injection E as <- _ _. by left.
    + destruct (chain_ends x chain) as (r & Hl & Hr). unfold orient in E.
      rewrite Hl, Hr in E.
      destruct (bool_decide (side = "left")).
      * destruct (Z.eqb (bottom tile) (top x)); [injection E as <- _ _; by left|].
        destruct (Z.eqb (top tile) (top x)); [injection E as <- _ _; by right | discriminate].
      * destruct (Z.eqb (top tile) r); [injection E as <- _ _; by left|].
        destruct (Z.eqb (bottom tile) r); [injection E as <- _ _; by right | discriminate].
  - intros seen db2. rewrite Hchain.
    assert (Hshown : (if bool_decide (side = "left") then newTile :: boardChain (component v)
                      else boardChain (component v) ++ [newTile]) = chain').
    { rewrite Hsame. destruct (orient_cases _ _ _ _ _ _ E) as [_ Hc].
      destruct Hc as [(-> & _ & ->)|[(-> & _ & ->)|(Hs & _ & ->)]].
      - by destruct (bool_decide _).
      - by rewrite bool_decide_true.
      - by rewrite bool_decide_false. }
    unfold handleOpponentPlayed. rewrite Hshown.
    destruct (Z.eqb seen 1); [|reflexivity].
    unfold endGame. cbn [gameId currentUser_id].
    destruct (end_route _ _ _ _) as [db3 resp3]. by destruct resp3.
Qed.

Lemma opponent_sees_the_same_chain_witness :
  let tile := mkCTile (JNum 8) 1 2 in
  exists newTile pos,
    head (playTile tile "right" Scenario.bob_view Scenario.opened_db).2
    = Some (play_tile "g" newTile "right" pos)
    /\ boardChain (component (handleOpponentPlayed 7 newTile "right" pos
                     (mkView (loadGameFromDatabase (JNum 1) (Scenario.mounted (JNum 1) true)
                                                   Scenario.opened_db) (JNum 2) 7 14)
                     Scenario.opened_db).1.1)
       = boardChain (playTile tile "right" Scenario.bob_view Scenario.opened_db).1.1.
Proof.
  destruct (opponent_sees_the_same_chain Scenario.bob_view
              (mkView (loadGameFromDatabase (JNum 1) (Scenario.mounted (JNum 1) true)
                                            Scenario.opened_db) (JNum 2) 7 14)
              Scenario.opened_db (mkCTile (JNum 8) 1 2) "right"
              (mkGame 1 "g" (JNum 1) (JNum 2) (JNum 2) "active" (JNum 0) 14)
              (mkTile 8 1 1 2 "player2_hand" (-1)))
    as (newTile & pos & H1 & _ & H2).
  - reflexivity.
  - reflexivity.
  - reflexivity.
  - vm_compute. reflexivity.
  - reflexivity.
  - apply keys_distinct_by_evaluation. vm_compute. reflexivity.
  - vm_compute. reflexivity.
  - right. exists 1. split; [vm_compute; reflexivity | left; reflexivity].
  - vm_compute. reflexivity.
  - exists newTile, pos. split; [exact H1 | apply H2].
Defined.

End ClientChain.

(** ** The lobby chat: the history *)

Section ChatHistory.
Import ChallengeHandler LobbyChat.

Lemma push_bounded_drop (m : ChatMessage) (history : list ChatMessage) :
  (length history <= MAX_HISTORY)%nat ->
  push_bounded m history
  = drop (length (history ++ [m]) - MAX_HISTORY) (history ++ [m]).
Proof.
  intros Hlen. unfold push_bounded. rewrite length_app. cbn [length].
  case_decide as Hfull.
  - replace (length history + 1 - MAX_HISTORY)%nat with 1%nat by lia.
    by destruct (history ++ [m]).
  - by replace (length history + 1 - MAX_HISTORY)%nat with 0%nat by lia.
Qed.

Lemma last_of_last (n : nat) (a p : list ChatMessage) :
  drop (length (drop (length a - n) a ++ p) - n) (drop (length a - n) a ++ p)
  = drop (length (a ++ p) - n) (a ++ p).
Proof.
  rewrite <- (drop_app_le a p (length a - n)) by lia.
  rewrite drop_drop, length_drop. f_equal. rewrite !length_app. lia.
Qed.

(** X19: the history is the last fifty messages.  After any sequence of
    events the history holds, in order, the last [MAX_HISTORY] of the
    messages it held before followed by the messages broadcast since; it
    never holds more. *)
Theorem chat_history_is_the_last_fifty (es : list event) (st : State) :
  (length (messageHistory st) <= MAX_HISTORY)%nat ->
  let all := messageHistory st ++ posted es st in
  messageHistory (run es st) = drop (length all - MAX_HISTORY) all
  /\ (length (messageHistory (run es st)) <= MAX_HISTORY)%nat.
Proof.
  intros Hlen all. subst all.
  assert (Heq : messageHistory (run es st)
                = drop (length (messageHistory st ++ posted es st) - MAX_HISTORY)
                       (messageHistory st ++ posted es st)).
  { revert st Hlen. induction es as [|e es IH]; intros st Hlen.
    - cbn. rewrite app_nil_r. by replace (_ - _)%nat with 0%nat by lia.
    - change (run (e :: es) st) with (run es (handle e st).1).
      cbn [posted].
      assert (Hstep : messageHistory (handle e st).1
                      = drop (length (messageHistory st ++ omap chat_of (handle e st).2)
                              - MAX_HISTORY)
                             (messageHistory st ++ omap chat_of (handle e st).2)).
      { destruct e as [sid u now|sid text now0 now|sid now|sid now]; cbn [handle].
        - cbn. rewrite app_nil_r. by replace (_ - _)%nat with 0%nat by lia.
        - unfold lobby_message. destruct (userData_of st sid) as [u|].
          + cbn. by apply push_bounded_drop.
          + cbn. rewrite app_nil_r. by replace (_ - _)%nat with 0%nat by lia.
        - unfold leave_lobby. destruct (userData_of st sid) as [u|];
            cbn; rewrite app_nil_r; by replace (_ - _)%nat with 0%nat by lia.
        - unfold disconnect. destruct (userData_of st sid) as [u|];
            cbn; rewrite app_nil_r; by replace (_ - _)%nat with 0%nat by lia. }
      rewrite IH by (rewrite Hstep, length_drop; lia).
      rewrite Hstep, last_of_last. by rewrite app_assoc. }
  split; [exact Heq|]. rewrite Heq, length_drop. lia.
Qed.

Lemma chat_history_is_the_last_fifty_witness :
  let st := mkState [] ∅ (ChallengeHandler.sockets Scenario.lobby) in
  let es := [JoinLobby "sA" Scenario.alice 10; LobbyMessage "sA" (JStr "hi") 20 21;
             LobbyMessage "sB" (JStr "yo") 30 30] in
  messageHistory (run es st)
  = [mkChatMessage "20-sA" (JStr "alice") (JStr "hi") 21;
     mkChatMessage "30-sB" (JStr "bob") (JStr "yo") 30].
Proof.
  destruct (chat_history_is_the_last_fifty
              [JoinLobby "sA" Scenario.alice 10; LobbyMessage "sA" (JStr "hi") 20 21;
               LobbyMessage "sB" (JStr "yo") 30 30]
              (mkState [] ∅ (ChallengeHandler.sockets Scenario.lobby))) as [H _].
  - cbn. unfold MAX_HISTORY. lia.
  - cbv zeta. rewrite H. vm_compute. reflexivity.
Defined.

(** X20: the chat takes the name from the socket, not from the room.  A
    socket that the challenge handler has registered posts to the lobby
    under the name it registered with, whether or not it has joined the
    lobby; every member of the lobby receives the message. *)
Theorem registered_socket_posts_to_the_lobby (cst : ChallengeHandler.State) (sid : string)
    (u : UserData) (history : list ChatMessage) (members : gset string) (text : jsval)
    (now0 now : Z) :
  let st := mkState history members (ChallengeHandler.sockets (register_user sid u cst)) in
  exists m,
    msg_username m = ud_username u /\ msg_text m = text
    /\ (lobby_message sid text now0 now st).2 = [(members, new_message m)]
    /\ last (messageHistory (lobby_message sid text now0 now st).1) = Some m.
Proof.
  intros st. subst st. unfold lobby_message, userData_of. cbn [sockets register_user
    ChallengeHandler.sockets]. rewrite lookup_insert_eq. cbn [sock_userData].
  exists (mkChatMessage (pretty now0 +:+ "-" +:+ sid) (ud_username u) text now).
  split; [reflexivity|]. split; [reflexivity|]. split; [reflexivity|].
  cbn [fst messageHistory]. unfold push_bounded.
  case_decide; [|apply last_snoc].
  destruct history as [|x history]; [cbn in *; unfold MAX_HISTORY in *; lia|].
  cbn [app tail]. apply last_snoc.
Qed.

End ChatHistory.

(** ** The online users and the list of the lobby *)

Section OnlineList.
Import Users.

Lemma map_set_keys (k : jsval) (v : OnlineUser) (m : list (jsval * OnlineUser)) :
  map fst (map_set k v m) = if bool_decide (k ∈ map fst m) then map fst m
                            else map fst m ++ [k].
Proof.
  induction m as [|[k' v'] m IH]; [reflexivity|].
  cbn [map_set map fst]. destruct (decide (k' = k)) as [E|E].
  - subst k'. rewrite bool_decide_true by (by left). reflexivity.
  - cbn [map fst]. rewrite IH. destruct (decide (k ∈ map fst m)) as [Hin|Hin].
    + rewrite !bool_decide_true; [reflexivity | by right | done].
    + rewrite !bool_decide_false; [reflexivity | | done].
      intros Hin'. apply elem_of_cons in Hin' as [?|?]; [congruence | done].
Qed.

Lemma map_set_values (k : jsval) (v : OnlineUser) (m : list (jsval * OnlineUser)) :
  ou_id v = k -> Forall (fun kv => ou_id kv.2 = kv.1) m ->
  Forall (fun kv => ou_id kv.2 = kv.1) (map_set k v m).
Proof.
  intros Hv. induction m as [|[k' v'] m IH]; intros Hm.
  - by repeat constructor.
  - apply Forall_cons in Hm as [Hh Ht]. cbn [map_set]. destruct (decide (k' = k)).
    + by constructor.
    + constructor; [exact Hh | by apply IH].
Qed.

Lemma NoDup_map_filter {A B} (f : A -> B) (P : A -> Prop) `{!forall x, Decision (P x)}
    (l : list A) :
  NoDup (map f l) -> NoDup (map f (filter P l)).
Proof.
  induction l as [|x l IH]; [done|]. cbn [map]. intros Hnd.
  apply NoDup_cons in Hnd as [Hx Hl]. rewrite filter_cons.
  destruct (decide (P x)); [|by apply IH].
  cbn [map]. apply NoDup_cons. split; [|by apply IH].
  intros Hin. apply Hx. apply list_elem_of_fmap in Hin as (y & -> & Hy).
  apply list_elem_of_fmap. exists y. split; [done|].
  apply list_elem_of_filter in Hy. tauto.
Qed.

Lemma Forall_filter_keep {A} (P Q : A -> Prop) `{!forall x, Decision (Q x)} (l : list A) :
  Forall P l -> Forall P (filter Q l).
Proof.
  induction 1 as [|x l Hx _ IH]; [constructor|].
  rewrite filter_cons. destruct (decide (Q x)); [by constructor | exact IH].
Qed.

Lemma serve_keyed (r : request) (m : list (jsval * OnlineUser)) :
  keyed m -> keyed (serve r m).
Proof.
  intros [Hnd Hv]. destruct r as [s|s]; cbn [serve].
  - unfold mark_online. destruct (negb (truthy (s_userId s))); [by split|].
    cbn [fst ou_id]. split.
    + rewrite map_set_keys.
      destruct (bool_decide (s_userId s ∈ map fst m)) eqn:Hin; [exact Hnd|].
      apply bool_decide_eq_false in Hin.
      apply NoDup_app. split; [exact Hnd|]. split; [|apply NoDup_singleton].
      intros x Hx Hx'. apply list_elem_of_singleton in Hx'. by subst x.
    + by apply map_set_values.
  - unfold mark_offline. destruct (negb (truthy (s_userId s))); [by split|].
    cbn [fst]. unfold map_delete. split.
    + by apply NoDup_map_filter.
    + by apply Forall_filter_keep.
Qed.

Lemma served_keyed (rs : list request) (m : list (jsval * OnlineUser)) :
  keyed m -> keyed (served rs m).
Proof.
  revert m. induction rs as [|r rs IH]; intros m Hm; [exact Hm|].
  apply IH. by apply serve_keyed.
Qed.

Lemma on_event_clean (me : jsval) (e : lobby_event) (l : list OnlineUser) :
  NoDup (map ou_id l) /\ me ∉ map ou_id l ->
  NoDup (map ou_id (on_event me e l)) /\ me ∉ map ou_id (on_event me e l).
Proof.
  intros [Hnd Hme]. destruct e as [u|uid]; cbn [on_event].
  - unfold on_user_online.
    destruct (bool_decide (is_Some (list_find (fun x => ou_id x = ou_id u) l))) eqn:Hfound;
      [by split|].
    destruct (strict_eq (ou_id u) me) eqn:Hisme; [by split|]. cbn [orb].
    apply bool_decide_eq_false in Hfound, Hisme.
    assert (Hnew : ou_id u ∉ map ou_id l).
    { intros Hin. apply Hfound. apply list_elem_of_fmap in Hin as (y & Hy & Hyl).
      destruct (list_find (fun x => ou_id x = ou_id u) l) as [p|] eqn:E; [by eexists|].
      apply list_find_None in E. rewrite Forall_forall in E.
      exfalso. by apply (E y). }
    rewrite map_app. cbn [map]. split.
    + apply NoDup_app. split; [exact Hnd|]. split; [|apply NoDup_singleton].
      intros x Hx Hx'. apply list_elem_of_singleton in Hx'. by subst x.
    + intros Hin. apply elem_of_app in Hin as [Hin|Hin]; [done|].
      apply list_elem_of_singleton in Hin. congruence.
  - unfold on_user_offline. split; [by apply NoDup_map_filter|].
    intros Hin. apply Hme. apply list_elem_of_fmap in Hin as (y & -> & Hy).
    apply list_elem_of_fmap. exists y. split; [done|].
    apply list_elem_of_filter in Hy. tauto.
Qed.

(** X21: the list of the lobby shows every user once and never the user
    who looks at it.  Whatever requests the server has handled before it
    answers with the list of online users, and whatever user-online and
    user-offline events the component receives afterwards, the ids in the
    list are distinct and the own id is not among them. *)
Theorem lobby_list_shows_each_other_user_once (rs : list request) (s : Session)
    (es : list lobby_event) (users : list OnlineUser) :
  get_online s (served rs []) = UsersOk users ->
  NoDup (map ou_id (shown (s_userId s) es users))
  /\ s_userId s ∉ map ou_id (shown (s_userId s) es users).
Proof.
  intros Hget.
  assert (Hstart : NoDup (map ou_id users) /\ s_userId s ∉ map ou_id users).
  { unfold get_online in Hget. destruct (negb (truthy (s_userId s))); [discriminate|].
    injection Hget as <-.
    destruct (served_keyed rs []) as [Hnd Hv]; [split; [apply NoDup_nil_2 | constructor]|].
    assert (Hids : map ou_id (map snd (served rs [])) = map fst (served rs [])).
    { clear -Hv. induction Hv as [|[k v] m E _ IH]; [reflexivity|].
      cbn in *. by rewrite E, IH. }
    split.
    - apply NoDup_map_filter. by rewrite Hids.
    - intros Hin. apply list_elem_of_fmap in Hin as (y & Hy & Hyl).
      apply list_elem_of_filter in Hyl. destruct Hyl as [Hne _]. congruence. }
  clear Hget. revert users Hstart. unfold shown.
  induction es as [|e es IH]; intros users Hstart; [exact Hstart|].
  cbn [fold_left]. apply IH. by apply on_event_clean.
Qed.

Lemma lobby_list_shows_each_other_user_once_witness :
  let alice := mkSession (JNum 1) (JStr "alice") (JStr "Alice") in
  let bob := mkSession (JNum 2) (JStr "bob") JUndef in
  let users := [mkOnlineUser (JNum 2) (JStr "bob") (JStr "bob")] in
  let es := [UserOnline (mkOnlineUser (JNum 2) (JStr "bob") (JStr "bob"));
             UserOnline (mkOnlineUser (JNum 1) (JStr "alice") (JStr "Alice"));
             UserOnline (mkOnlineUser (JNum 3) (JStr "carol") (JStr "Carol"))] in
  NoDup (map ou_id (shown (JNum 1) es users))
  /\ JNum 1 ∉ map ou_id (shown (JNum 1) es users).
Proof.
  apply (lobby_list_shows_each_other_user_once
           [MarkOnline (mkSession (JNum 2) (JStr "bob") JUndef);
            MarkOnline (mkSession (JNum 1) (JStr "alice") (JStr "Alice"));
            MarkOnline (mkSession (JNum 2) (JStr "bob") JUndef)]
           (mkSession (JNum 1) (JStr "alice") (JStr "Alice"))).
  vm_compute. reflexivity.
Defined.

End OnlineList.

(** ** Registration, login and the request-forgery token *)

Section Accounts.
Import Auth.



(** X23: registering does not log in, and the account works afterwards.
    A registration that is answered with success leaves the session
    without a user; a login with the registered name and a password that
    matches the stored hash is then answered with the new user. *)
Theorem registered_user_can_log_in (production : bool) (hashed : string) (r : Request)
    (b : RegisterBody) (users : Users) (s : Session)
    (compare : jsval -> string -> bool) (password : jsval) :
  (register production hashed r b users s).2 = Registered ->
  truthy password = true ->
  compare password hashed = true ->
  hashed <> "" ->
  next_userID users <> 0 ->
  let users1 := (register production hashed r b users s).1.1 in
  let s1 := (register production hashed r b users s).1.2 in
  userId s1 = userId s
  /\ forall s' : Session,
       (login compare (rb_username b) password users1 s').2
       = LoggedIn (next_userID users) (rb_username b) (rb_displayName b)
       /\ userId (login compare (rb_username b) password users1 s').1
          = JNum (next_userID users).
Proof.
  intros Hok Hpw Hcmp Hhash Hid users1 s1. subst users1 s1.
  unfold register in *.
  destruct (_ || _); [discriminate|].
  destruct (_ && _); [discriminate|].
  destruct (_ && _); [discriminate|].
  destruct (token_expired r s); [discriminate|].
  destruct (negb (truthy (rb_username b)) || _ || _) eqn:Hfields; [discriminate|].
  destruct (bool_decide (Exists _ (rows users))) eqn:Htaken; [discriminate|].
  cbn [fst snd]. split; [reflexivity|]. intros s'.
  apply bool_decide_eq_false in Htaken.
  assert (Hname : truthy (rb_username b) = true).
  { destruct (truthy (rb_username b)); [reflexivity | discriminate]. }
  assert (Hrow : filter (fun u => u_username u = rb_username b)
                   (rows users ++ [mkUser (next_userID users) (rb_username b)
                                          (rb_displayName b) hashed])
                 = [mkUser (next_userID users) (rb_username b) (rb_displayName b) hashed]).
  { rewrite filter_app, filter_cons, decide_True by reflexivity.
    rewrite (filter_none _ (rows users)); [reflexivity|].
    apply Forall_forall. intros u Hu Hn. apply Htaken. apply Exists_exists. by exists u. }
  unfold login. rewrite Hname, Hpw. cbn [negb orb rows]. rewrite Hrow.
  cbn [single password_hash userID u_username display_name].
  rewrite (bool_decide_false (hashed = "")) by assumption.
  rewrite Hcmp. cbn [negb].
  replace (Z.eqb (next_userID users) 0) with false by (symmetry; by apply Z.eqb_neq).
  split; reflexivity.
Qed.

Lemma registered_user_can_log_in_witness :
  let r := mkRequest "10.0.0.1" "agent" 5000 in
  let b := mkRegisterBody (JStr "dave") (JStr "Dave") (JStr "pw") (JStr "t1") in
  let s := csrf_middleware "t1" (mkRequest "10.0.0.1" "agent" 1000) fresh_session in
  let compare := fun (p : jsval) (h : string) => bool_decide (p = JStr "pw" /\ h = "h") in
  (login compare (JStr "dave") (JStr "pw") (register true "h" r b (mkUsers [] 1) s).1.1
         fresh_session).2
  = LoggedIn 1 (JStr "dave") (JStr "Dave").
Proof.
  destruct (registered_user_can_log_in true "h"
              (mkRequest "10.0.0.1" "agent" 5000)
              (mkRegisterBody (JStr "dave") (JStr "Dave") (JStr "pw") (JStr "t1"))
              (mkUsers [] 1)
              (csrf_middleware "t1" (mkRequest "10.0.0.1" "agent" 1000) fresh_session)
              (fun (p : jsval) (h : string) => bool_decide (p = JStr "pw" /\ h = "h"))
              (JStr "pw")) as [_ H].
  - vm_compute. reflexivity.
  - reflexivity.
  - vm_compute. reflexivity.
  - discriminate.
  - discriminate.
  - destruct (H fresh_session) as [H1 _]. exact H1.
Defined.

(** X24: the session follows the login.  A login that is answered with a
    user makes /me answer with that user and keeps the token of the
    session; a login that is refused leaves the session as it was; after
    a logout /me answers 401. *)
Theorem session_follows_the_login (compare : jsval -> string -> bool)
    (name password : jsval) (users : Users) (s : Session) :
  let s' := (login compare name password users s).1 in
  (forall uid n d, (login compare name password users s).2 = LoggedIn uid n d ->
     me s' = Me (JNum uid) n /\ csrfToken s' = csrfToken s
     /\ me (logout s').1 = Err 401 "Not authenticated")
  /\ (forall code e, (login compare name password users s).2 = Err code e -> s' = s).
Proof.
  intros s'. subst s'. unfold login.
  destruct (_ || _); [split; [discriminate | reflexivity]|].
  destruct (single _) as [data|]; [|split; [discriminate | reflexivity]].
  destruct (bool_decide (password_hash data = "")); [split; [discriminate | reflexivity]|].
  destruct (negb (compare password (password_hash data)));
    [split; [discriminate | reflexivity]|].
  destruct (Z.eqb_spec (userID data) 0) as [E|E]; [split; [discriminate | reflexivity]|].
  split; [|discriminate].
  intros uid n d [= <- <- <-]. cbn [fst]. unfold me. cbn [userId username truthy].
  replace (Z.eqb (userID data) 0) with false by (symmetry; by apply Z.eqb_neq).
  repeat split.
Qed.

Lemma session_follows_the_login_witness :
  let users := mkUsers [mkUser 1 (JStr "dave") (JStr "Dave") "h"] 2 in
  let compare := fun (p : jsval) (h : string) => bool_decide (p = JStr "pw" /\ h = "h") in
  me (login compare (JStr "dave") (JStr "pw") users fresh_session).1 = Me (JNum 1) (JStr "dave")
  /\ (login compare (JStr "dave") (JStr "no") users fresh_session).1 = fresh_session.
Proof.
  split.
  - destruct (session_follows_the_login
                (fun (p : jsval) (h : string) => bool_decide (p = JStr "pw" /\ h = "h"))
                (JStr "dave") (JStr "pw")
                (mkUsers [mkUser 1 (JStr "dave") (JStr "Dave") "h"] 2) fresh_session)
      as [H _].
    destruct (H 1 (JStr "dave") (JStr "Dave")) as [H1 _]; [vm_compute; reflexivity|].
    exact H1.
  - destruct (session_follows_the_login
                (fun (p : jsval) (h : string) => bool_decide (p = JStr "pw" /\ h = "h"))
                (JStr "dave") (JStr "no")
                (mkUsers [mkUser 1 (JStr "dave") (JStr "Dave") "h"] 2) fresh_session)
      as [_ H].
    apply (H 401 "Invalid credentials"). vm_compute. reflexivity.
Defined.

End Accounts.

(** ** The layout of the board *)

Section Layout.
Import SVGBoard.

(** X25: the tiles of the chain lie side by side inside the board.  In a
    chain of [n] tiles, one tile included, every tile lies between the
    paddings of the board and inside its height, and a tile further right
    starts after the tile has ended, with the spacing between them. *)
Theorem tiles_lie_side_by_side_inside_the_board (n i : nat) :
  (i < n)%nat ->
  BOARD_PADDING <= tile_x i
  /\ tile_x i + TILE_WIDTH <= boardWidth n - BOARD_PADDING
  /\ 0 <= tile_y i /\ tile_y i + TILE_HEIGHT <= BOARD_HEIGHT
  /\ forall j : nat, (i < j)%nat -> tile_x i + TILE_WIDTH + TILE_SPACING <= tile_x j.
Proof.
  intros Hi. unfold tile_x, tile_y, boardWidth, centerY,
    BOARD_PADDING, TILE_WIDTH, TILE_SPACING, TILE_HEIGHT, BOARD_HEIGHT.
  replace (Z.ltb 0 (Z.of_nat n)) with true by (symmetry; apply Z.ltb_lt; lia).
  change (250 / 2 - 60 / 2) with 95.
  repeat split; intros; lia.
Qed.

Lemma tiles_lie_side_by_side_inside_the_board_witness :
  BOARD_PADDING <= tile_x 0
  /\ tile_x 0 + TILE_WIDTH <= boardWidth 1 - BOARD_PADDING
  /\ tile_x 0 + TILE_WIDTH + TILE_SPACING <= tile_x 1.
Proof.
  destruct (tiles_lie_side_by_side_inside_the_board 1 0) as (H1 & H2 & _ & _ & H3).
  - lia.
  - split; [exact H1|]. split; [exact H2|]. apply H3. lia.
Defined.

End Layout.

(** ** The client: drawing *)

Section ClientDraw.
Import GameBoard GameBoardEvents.

(** X26: a draw reaches the hand.  When the player whose turn it is
    draws and the boneyard is not empty, then whichever boneyard row of
    the game the store returns, the component adds that row to the hand it
    shows, the store holds the row at the hand location the component
    named, the counter is the one of the store less one, and the opponent
    is told. *)
Theorem drawn_tile_reaches_the_hand (pick : nat) (v : View) (db : DB) (game : Game) :
  isMyTurn (component v) = true ->
  boneyardCount v <> 0 ->
  truthy (currentUser_id (component v)) = true ->
  find_game (gameId (component v)) db = Some game ->
  current_turn game = currentUser_id (component v) ->
  0 < boneyard_count game ->
  NoDup (map titleID (GameTiles db)) ->
  filter (fun t => tile_gameID t = gameID game /\ location t = "boneyard") (GameTiles db)
  <> [] ->
  let c := component v in
  let r := drawFromBoneyard pick v db in
  exists drawn a b,
    tile_gameID drawn = gameID game /\ location drawn = "boneyard"
    /\ GameTiles db = a ++ drawn :: b
    /\ GameTiles r.1.2 = a ++ set_location (playerHandLocation c) drawn :: b
    /\ playerHand (component r.1.1) = playerHand c ++ [to_tile drawn]
    /\ boneyardCount r.1.1 = boneyard_count game - 1
    /\ r.2 = [draw_tile (gameId c) (currentUser_id c)].
Proof.
  intros Hmy Hcount Hauth Hfind Hturn Hpos Hnd Hrows c r. subst c r.
  destruct (draw_route_any_accepts pick db (currentUser_id (component v))
              (gameId (component v)) (playerHandLocation (component v)) game
              Hauth Hfind Hturn Hpos Hnd Hrows) as (drawn & a & b & Hdrawn & Hts & Hdraw).
  assert (Hin : drawn ∈ filter (fun t => tile_gameID t = gameID game
                                         /\ location t = "boneyard") (GameTiles db))
    by (by eapply list_elem_of_lookup_2).
  apply list_elem_of_filter in Hin as [[Hg Hl] _].
  exists drawn, a, b. split; [exact Hg|]. split; [exact Hl|]. split; [exact Hts|].
  unfold drawFromBoneyard. rewrite Hmy. cbn [negb].
  replace (Z.eqb (boneyardCount v) 0) with false by (symmetry; by apply Z.eqb_neq).
  rewrite Hdraw. cbn [fst snd component playerHand boneyardCount GameTiles].
  repeat split.
Qed.

Lemma drawn_tile_reaches_the_hand_witness :
  let v := mkView Scenario.bob_view (JNum 1) 6 14 in
  let r := drawFromBoneyard 16 v Scenario.opened_db in
  exists drawn,
    location drawn = "boneyard"
    /\ playerHand (component r.1.1) = playerHand Scenario.bob_view ++ [to_tile drawn]
    /\ boneyardCount r.1.1 = 13.
Proof.
  destruct (drawn_tile_reaches_the_hand 16 (mkView Scenario.bob_view (JNum 1) 6 14)
              Scenario.opened_db
              (mkGame 1 "g" (JNum 1) (JNum 2) (JNum 2) "active" (JNum 0) 14))
    as (drawn & a & b & _ & H1 & _ & _ & H2 & H3 & _).
  - reflexivity.
  - discriminate.
  - reflexivity.
  - vm_compute. reflexivity.
  - reflexivity.
  - reflexivity.
  - apply keys_distinct_by_evaluation. vm_compute. reflexivity.
  - vm_compute. discriminate.
  - exists drawn. split; [exact H1|]. split; [exact H2 | exact H3].
Defined.

End ClientDraw.

(** ** Turns, registered targets, created games *)

Section Turns.

Lemma nextTurnPlayerId_moves_on (game : Game) :
  player1_id game <> player2_id game -> nextTurnPlayerId game <> current_turn game.
Proof.
  intros Hne. unfold nextTurnPlayerId, strict_eq.
  destruct (decide (current_turn game = player1_id game)) as [E|E].
  - rewrite bool_decide_true by assumption. congruence.
  - rewrite bool_decide_false by assumption. congruence.
Qed.

(** What an accepted move leaves: the game is found with the turn given on. *)
Lemma accepted_move_gives_the_turn_on (db db1 : DB) (u : jsval) (gameUuid : string)
    (game : Game) (b : PlayBody) (pick : nat) (loc : string) :
  find_game gameUuid db = Some game ->
  (exists t n, play_route u gameUuid b db = (db1, PlayOk t n))
  \/ (exists t n, draw_route_any pick u gameUuid loc db = (db1, DrawOk t n))
  \/ (exists n, pass_route u gameUuid db = (db1, PassOk n)) ->
  truthy u = true
  /\ current_turn game = u
  /\ exists game1, find_game gameUuid db1 = Some game1
                   /\ current_turn game1 = nextTurnPlayerId game.
Proof.
  intros Hfind Hmove.
  assert (Hturn : forall x, strict_ne (current_turn game) x = false -> current_turn game = x).
  { intros x Hx. unfold strict_ne, strict_eq in Hx. apply negb_false_iff in Hx.
    by apply bool_decide_eq_true in Hx. }
  destruct Hmove as [(t & n & Hplay)|[(t & n & Hdraw)|(n & Hpass)]].
  - unfold play_route in Hplay.
    destruct (truthy u) eqn:Hauth; [|discriminate]. cbn [negb] in Hplay.
    rewrite Hfind in Hplay.
    destruct (strict_ne (current_turn game) u) eqn:Hne; [discriminate|].
    destruct (single _) as [tileToPlay|]; [|discriminate].
    destruct (single _) as [row|]; [|discriminate].
    injection Hplay as <- _ _.
    split; [reflexivity|]. split; [by apply Hturn|].
    exists (set_current_turn (nextTurnPlayerId game) game). split; [|reflexivity].
    unfold with_games, insert_move, with_tiles. cbn [Games GameTiles GameMoves
      next_gameID next_titleID].
    by apply (find_game_updated gameUuid db game (set_current_turn (nextTurnPlayerId game))).
  - unfold draw_route_any in Hdraw.
    destruct (truthy u) eqn:Hauth; [|discriminate]. cbn [negb] in Hdraw.
    rewrite Hfind in Hdraw.
    destruct (strict_ne (current_turn game) u) eqn:Hne; [discriminate|].
    destruct (Z.leb (boneyard_count game) 0); [discriminate|].
    destruct (filter _ (GameTiles db)) as [|drawnTile others]; [discriminate|].
    destruct (single _) as [row|]; [|discriminate].
    injection Hdraw as <- _ _.
    split; [reflexivity|]. split; [by apply Hturn|].
    exists (set_current_turn (nextTurnPlayerId game)
              (set_boneyard_count (boneyard_count game - 1) game)).
    split; [|reflexivity].
    unfold with_games, insert_move, with_tiles. cbn [Games GameTiles GameMoves
      next_gameID next_titleID].
    by apply (find_game_updated gameUuid db game
                (fun g => set_current_turn (nextTurnPlayerId game)
                            (set_boneyard_count (boneyard_count game - 1) g))).
  - unfold pass_route in Hpass.
    destruct (truthy u) eqn:Hauth; [|discriminate]. cbn [negb] in Hpass.
    rewrite Hfind in Hpass.
    destruct (strict_ne (current_turn game) u) eqn:Hne; [discriminate|].
    injection Hpass as <- _.
    split; [reflexivity|]. split; [by apply Hturn|].
    exists (set_current_turn (nextTurnPlayerId game) game). split; [|reflexivity].
    unfold with_games, insert_move. cbn [Games GameTiles GameMoves
      next_gameID next_titleID].
    by apply (find_game_updated gameUuid db game (set_current_turn (nextTurnPlayerId game))).
Qed.

(** X27: after an accepted move the mover has to wait.  In a game of
    two different players, once a play, a draw or a pass of a player has
    been accepted and its writes are in the store, a play, draw or pass
    request of that player that is handled on that store is answered 403
    'Not your turn' and leaves the store as it is.  (Requests of one
    player that are in flight together are not covered: each route reads
    the turn before it waits for the store.) *)
Theorem mover_is_refused_after_an_accepted_move (db db1 : DB) (u : jsval)
    (gameUuid : string) (game : Game) (b b' : PlayBody) (pick pick' : nat)
    (loc loc' : string) :
  find_game gameUuid db = Some game ->
  player1_id game <> player2_id game ->
  (exists t n, play_route u gameUuid b db = (db1, PlayOk t n))
  \/ (exists t n, draw_route_any pick u gameUuid loc db = (db1, DrawOk t n))
  \/ (exists n, pass_route u gameUuid db = (db1, PassOk n)) ->
  play_route u gameUuid b' db1 = (db1, Err 403 "Not your turn")
  /\ draw_route_any pick' u gameUuid loc' db1 = (db1, Err 403 "Not your turn")
  /\ pass_route u gameUuid db1 = (db1, Err 403 "Not your turn").
Proof.
  intros Hfind Hplayers Hmove.
  destruct (accepted_move_gives_the_turn_on db db1 u gameUuid game b pick loc Hfind Hmove)
    as (Hauth & Hturn & game1 & Hfind1 & Hturn1).
  assert (Hne : strict_ne (current_turn game1) u = true).
  { unfold strict_ne, strict_eq. rewrite bool_decide_false; [reflexivity|].
    rewrite Hturn1, <- Hturn. by apply nextTurnPlayerId_moves_on. }
  unfold play_route, draw_route_any, pass_route. rewrite Hauth, !Hfind1, Hne. by cbn.
Qed.

Lemma mover_is_refused_after_an_accepted_move_witness :
  play_route (JNum 1) "g" (Scenario.body 6 "right" 1) Scenario.opened_db
  = (Scenario.opened_db, Err 403 "Not your turn").
Proof.
  destruct (mover_is_refused_after_an_accepted_move Scenario.started_db Scenario.opened_db
              (JNum 1) "g"
              (mkGame 1 "g" (JNum 1) (JNum 2) (JNum 1) "active" (JNum 0) 14)
              (Scenario.body 7 "right" 0) (Scenario.body 6 "right" 1) 0 0
              "player1_hand" "player1_hand") as [H _].
  - vm_compute. reflexivity.
  - discriminate.
  - left. eexists _, _. vm_compute. reflexivity.
  - exact H.
Defined.

End Turns.

Section RegisteredTarget.
Import ChallengeHandler.

(** X28: a registered user receives the challenge.  After register-user
    on a socket, a send-challenge is delivered to that socket as
    challenge-received with the challenger of the payload when its target
    id is the id registered; or when the lookup of the target id finds no
    socket and [Number] of it is the id registered; or when neither the
    lookup of the target id nor the lookup of [Number] of it finds a
    socket and [String] of it is the id registered. *)
Theorem registered_user_receives_the_challenge (Number : jsval -> option jsval)
    (sender sid : string) (u : UserData) (o : Offer) (now : Z) (st : State) :
  sid <> "" ->
  of_targetId o = ud_id u
  \/ (of_targetId o <> ud_id u
      /\ slot_truthy (userSocketMap st !! of_targetId o) = false
      /\ Number (of_targetId o) = Some (ud_id u))
  \/ (of_targetId o <> ud_id u
      /\ slot_truthy (userSocketMap st !! of_targetId o) = false
      /\ (Number (of_targetId o) = None
          \/ exists k, Number (of_targetId o) = Some k /\ k <> ud_id u
                       /\ slot_truthy (userSocketMap st !! k) = false)
      /\ JStr (to_string (of_targetId o)) = ud_id u) ->
  exists cid,
    (send_challenge Number sender o now (register_user sid u st)).2
    = [(ToSocket sid,
        challenge_received cid (mkPlayer (of_challengerId o) (of_challengerName o)
                                         (of_challengerDisplayName o)))]
    /\ exists ch, activeChallenges (send_challenge Number sender o now
                                      (register_user sid u st)).1 !! cid = Some ch
                  /\ targetId ch = of_targetId o.
Proof.
  intros Hsid Hcase.
  assert (Htruthy : slot_truthy (Some sid) = true).
  { cbn. by rewrite bool_decide_false. }
  assert (Hfound : lookup_target Number (<[ud_id u := sid]> (userSocketMap st))
                     (of_targetId o) = Some sid).
  { unfold lookup_target.
    destruct Hcase as [E|[(Hne & Hnone & Hnum)|(Hne & Hnone & Hnum & Hstr)]].
    - rewrite E, lookup_insert_eq, Htruthy. cbn [negb]. by rewrite Htruthy.
    - rewrite (lookup_insert_ne _ (ud_id u) (of_targetId o)) by congruence.
      rewrite Hnone. cbn [negb]. rewrite Hnum, lookup_insert_eq.
      by rewrite Htruthy.
    - rewrite (lookup_insert_ne _ (ud_id u) (of_targetId o)) by congruence.
      rewrite Hnone. cbn [negb].
      destruct Hnum as [Hnum|(k & Hnum & Hk & Hknone)]; rewrite Hnum.
      + cbn [slot_truthy negb]. by rewrite Hstr, lookup_insert_eq.
      + rewrite (lookup_insert_ne _ (ud_id u) k) by congruence.
        rewrite Hknone. cbn [negb]. by rewrite Hstr, lookup_insert_eq. }
  unfold send_challenge. cbn [register_user userSocketMap activeChallenges sockets].
  rewrite Hfound, Htruthy. cbn [fst snd default from_option id].
  eexists. split; [reflexivity|]. cbn [activeChallenges].
  eexists. split; [apply lookup_insert_eq | reflexivity].
Qed.

Lemma registered_user_receives_the_challenge_witness :
  exists cid,
    (send_challenge Scenario.number_of "sA"
       (mkOffer (JNum 1) (JStr "alice") (JStr "Alice") (JNum 7) (JStr "gia")) 1000
       (register_user "sG" (mkUserData (JStr "7") (JStr "gia") (JStr "Gia"))
                      (register_user "sA" Scenario.alice initial))).2
    = [(ToSocket "sG",
        challenge_received cid (mkPlayer (JNum 1) (JStr "alice") (JStr "Alice")))].
Proof.
  destruct (registered_user_receives_the_challenge Scenario.number_of
              "sA" "sG" (mkUserData (JStr "7") (JStr "gia") (JStr "Gia"))
              (mkOffer (JNum 1) (JStr "alice") (JStr "Alice") (JNum 7) (JStr "gia")) 1000
              (register_user "sA" Scenario.alice initial)) as (cid & H & _).
  - discriminate.
  - right. right. split; [discriminate|]. split; [vm_compute; reflexivity|].
    split; [|vm_compute; reflexivity].
    right. exists (JNum 7). split; [reflexivity|]. split; [discriminate|].
    vm_compute. reflexivity.
  - exists cid. exact H.
Defined.

End RegisteredTarget.

Section CreatedGame.

Lemma number_tiles_of_game (gid n : Z) (l : list TileToInsert) :
  Forall (fun t => tile_gameID t = gid) (number_tiles gid n l).
Proof.
  revert n. induction l as [|s l IH]; intros n; [constructor|].
  cbn. constructor; [reflexivity | apply IH].
Qed.

(** X29: a created game can be loaded.  When no game of the store has
    the uuid and no row belongs to the next game key, the create route
    answers with that key, the game is found under its uuid as an active
    game of the two players with player 1 to move, and the rows of the
    game are the tiles of the request, numbered from the next tile key. *)
Theorem created_game_can_be_loaded (db : DB) (userId : jsval) (gameUuid : string)
    (p1 p2 : jsval) (tiles : list TileToInsert) :
  truthy userId = true ->
  Forall (fun g => game_uuid g <> gameUuid) (Games db) ->
  Forall (fun t => tile_gameID t <> next_gameID db) (GameTiles db) ->
  let db' := (create_route userId gameUuid p1 p2 tiles db).1 in
  (create_route userId gameUuid p1 p2 tiles db).2 = CreateOk (next_gameID db) gameUuid
  /\ find_game gameUuid db'
     = Some (mkGame (next_gameID db) gameUuid p1 p2 p1 "active" (JNum 0) 14)
  /\ tiles_of (next_gameID db) db'
     = number_tiles (next_gameID db) (next_titleID db) tiles.
Proof.
  intros Hauth Hfresh Hrows db'. subst db'.
  unfold create_route, insert_game, insert_tiles. rewrite Hauth.
  cbn [negb fst snd gameID game_uuid Games GameTiles GameMoves next_gameID next_titleID].
  split; [reflexivity|]. split.
  - unfold find_game. cbn [Games]. rewrite filter_app, filter_cons.
    rewrite decide_True by reflexivity. by rewrite (filter_none _ (Games db)).
  - unfold tiles_of. cbn [GameTiles]. rewrite filter_app.
    rewrite (filter_none _ (GameTiles db)) by assumption.
    apply filter_all, number_tiles_of_game.
Qed.

Lemma created_game_can_be_loaded_witness :
  let tiles := [mkToInsert 0 0 "player1_hand" (-1); mkToInsert 0 1 "boneyard" (-1)] in
  let db' := (create_route (JNum 1) "h" (JNum 1) (JNum 2) tiles Scenario.started_db).1 in
  find_game "h" db' = Some (mkGame 2 "h" (JNum 1) (JNum 2) (JNum 1) "active" (JNum 0) 14)
  /\ tiles_of 2 db' = [mkTile 29 2 0 0 "player1_hand" (-1); mkTile 30 2 0 1 "boneyard" (-1)].
Proof.
  destruct (created_game_can_be_loaded Scenario.started_db (JNum 1) "h" (JNum 1) (JNum 2)
              [mkToInsert 0 0 "player1_hand" (-1); mkToInsert 0 1 "boneyard" (-1)])
    as (_ & H1 & H2).
  - reflexivity.
  - refine (bool_decide_eq_true_1 _ _). vm_compute. reflexivity.
  - refine (bool_decide_eq_true_1 _ _). vm_compute. reflexivity.
  - exact (conj H1 H2).
Defined.

End CreatedGame.

(** ** The accept handler between its awaits *)

Section AcceptRace.
Import ChallengeHandler AcceptSteps.

(** [accept_challenge] is the handler run from its check to its end with
    no other event in between. *)
Lemma accept_challenge_in_one_go (sid cid : string) (random : nat -> nat)
    (gameUuid : string) (st : State) (db : DB) :
  accept_challenge sid cid random gameUuid st db
  = accept_in_one_go sid cid random gameUuid st db.
Proof.
  unfold accept_challenge, accept_in_one_go, accept_begin, accept_finish, accept_tiles.
  destruct (activeChallenges st !! cid) as [challenge|]; [|reflexivity].
  generalize (generateAndShuffleDominoes random). intros allTiles.
  cbn [insert_game fst snd pd_socket pd_challengeId pd_challenge pd_challengerSocketId
       pd_targetSocketId pd_gameUuid pd_tilesToInsert pd_game gameID].
  reflexivity.
Qed.

Lemma length_number_tiles (gid n : Z) (l : list TileToInsert) :
  length (number_tiles gid n l) = length l.
Proof.
  revert n. induction l as [|x l IH]; intros n; [reflexivity|]. cbn. by rewrite IH.
Qed.

Lemma accept_begin_found (sid cid : string) (random : nat -> nat) (gameUuid : string)
    (st : State) (db : DB) (ch : Challenge) :
  activeChallenges st !! cid = Some ch ->
  exists p,
    accept_begin sid cid random gameUuid st db
    = (Some p,
       mkDB (Games db ++ [mkGame (next_gameID db) gameUuid (challengerId ch) (targetId ch)
                                 (challengerId ch) "active" (JNum 0) 14])
            (GameTiles db) (GameMoves db) (next_gameID db + 1) (next_titleID db),
       [])
    /\ pd_socket p = sid /\ pd_challengeId p = cid /\ pd_challenge p = ch
    /\ pd_gameUuid p = gameUuid
    /\ gameID (pd_game p) = next_gameID db
    /\ length (pd_tilesToInsert p) = 28%nat.
Proof.
  intros Hch. unfold accept_begin. rewrite Hch.
  pose proof (generateAndShuffleDominoes_length random) as Hlen.
  destruct (generateAndShuffleDominoes random) as [|a l]; [discriminate|].
  do 27 (destruct l as [|? l]; [discriminate|]).
  destruct l; [|discriminate].
  eexists. split; [reflexivity|]. repeat split.
Qed.

(** C7, what the code does when two accepts of one challenge are in
    flight.  The handler checks the challenge at its start and removes it
    only at its end, after it has waited twice for the store.  A second
    accept-challenge for the same id that arrives while the first waits
    passes the check as well: the store ends with two game rows for the
    one challenge, both between its challenger and its target, and with
    56 new tile rows, and after the first handler has finished the
    second still sends game-start for its own game. *)
Theorem racing_accepts_create_two_games (st : State) (db : DB) (sid1 sid2 cid : string)
    (random1 random2 : nat -> nat) (uuid1 uuid2 : string) (ch : Challenge) :
  activeChallenges st !! cid = Some ch ->
  exists p1 p2 db1 db2,
    accept_begin sid1 cid random1 uuid1 st db = (Some p1, db1, [])
    /\ accept_begin sid2 cid random2 uuid2 st db1 = (Some p2, db2, [])
    /\ let db' := accept_tiles p2 (accept_tiles p1 db2) in
       let st1 := (accept_finish p1 st).1 in
       Games db'
       = Games db
         ++ [mkGame (next_gameID db) uuid1 (challengerId ch) (targetId ch)
                    (challengerId ch) "active" (JNum 0) 14;
             mkGame (next_gameID db + 1) uuid2 (challengerId ch) (targetId ch)
                    (challengerId ch) "active" (JNum 0) 14]
       /\ length (GameTiles db') = (length (GameTiles db) + 56)%nat
       /\ activeChallenges st1 !! cid = None
       /\ (ToAll, user_busy (challengerId ch) (challengerName ch))
          ∈ (accept_finish p2 st1).2.
Proof.
  intros Hch.
  destruct (accept_begin_found sid1 cid random1 uuid1 st db ch Hch)
    as (p1 & Hb1 & _ & Hc1 & Hp1 & _ & Hg1 & Hl1).
  set (db1 := mkDB (Games db ++ [mkGame (next_gameID db) uuid1 (challengerId ch)
                                        (targetId ch) (challengerId ch) "active" (JNum 0) 14])
                   (GameTiles db) (GameMoves db) (next_gameID db + 1) (next_titleID db))
    in *.
  destruct (accept_begin_found sid2 cid random2 uuid2 st db1 ch Hch)
    as (p2 & Hb2 & _ & Hc2 & Hp2 & _ & Hg2 & Hl2).
  exists p1, p2, db1. eexists. split; [exact Hb1|]. split; [exact Hb2|].
  cbv zeta. split; [|split; [|split]].
  - unfold accept_tiles, insert_tiles. cbn [Games]. subst db1. cbn [Games next_gameID].
    by rewrite <- app_assoc.
  - unfold accept_tiles, insert_tiles. cbn [GameTiles]. subst db1. cbn [GameTiles].
    rewrite !length_app, !length_number_tiles, Hl1, Hl2. lia.
  - unfold accept_finish. cbn [fst activeChallenges]. rewrite Hc1. apply lookup_delete_eq.
  - unfold accept_finish. cbn [snd]. rewrite Hp2.
    rewrite !elem_of_app. right. right. by left.
Qed.

Lemma racing_accepts_create_two_games_witness :
  exists p1 p2 db1 db2,
    accept_begin "sB" "1-2-1000" (fun _ => 0%nat) "g" Scenario.challenged empty_db
    = (Some p1, db1, [])
    /\ accept_begin "sB" "1-2-1000" (fun _ => 1%nat) "h" Scenario.challenged db1
       = (Some p2, db2, [])
    /\ Games (accept_tiles p2 (accept_tiles p1 db2))
       = [mkGame 1 "g" (JNum 1) (JNum 2) (JNum 1) "active" (JNum 0) 14;
          mkGame 2 "h" (JNum 1) (JNum 2) (JNum 1) "active" (JNum 0) 14]
    /\ length (GameTiles (accept_tiles p2 (accept_tiles p1 db2))) = 56%nat.
Proof.
  destruct (racing_accepts_create_two_games Scenario.challenged empty_db "sB" "sB"
              "1-2-1000" (fun _ => 0%nat) (fun _ => 1%nat) "g" "h"
              (mkChallenge "1-2-1000" (JNum 1) (JStr "alice") (JStr "Alice")
                           (JNum 2) (JStr "bob") 1000))
    as (p1 & p2 & db1 & db2 & H1 & H2 & H3 & H4 & _).
  - vm_compute. reflexivity.
  - exists p1, p2, db1, db2. split; [exact H1|]. split; [exact H2|].
    split; [exact H3 | exact H4].
Defined.

End AcceptRace.
